(** * drone-cache tar archive engine: a shallow embedding of [archive/tar/tar.go]

    The development follows the Go source function by function.  The Go
    standard library ([path/filepath], [strings], [os], [archive/tar]) is not
    part of the repository; the parts the engine calls are modelled here for a
    POSIX host (separator [/], no volume names), each next to the Go function
    it stands for. *)

From Stdlib Require Import ZArith Ascii String List Bool Lia Permutation Sorted.
From stdpp Require Import base option list gmap strings fin_maps.

Local Open Scope string_scope.
Local Open Scope list_scope.
Local Open Scope nat_scope.

(** ** Strings as byte sequences *)

Abbreviation bytes := (list ascii).

Definition to_bytes (s : string) : bytes := list_ascii_of_string s.
Definition of_bytes (l : bytes) : string := string_of_list_ascii l.

Definition bytes_eqb (a b : bytes) : bool := bool_decide (a = b).

(** ** [strings] and [path/filepath] (POSIX build)  *)

Module filepath.

Definition Separator : ascii := "/"%char.

Definition IsPathSeparator (c : ascii) : bool := bool_decide (c = Separator).

(** [strings.HasPrefix(s, prefix)] *)
Fixpoint has_prefix (s prefix : bytes) : bool :=
  match prefix, s with
  | [], _ => true
  | p :: prefix', c :: s' => bool_decide (c = p) && has_prefix s' prefix'
  | _ :: _, [] => false
  end.

Definition HasPrefix (s prefix : string) : bool :=
  has_prefix (to_bytes s) (to_bytes prefix).

(** [strings.TrimPrefix(s, prefix)]: [s] without the leading [prefix], or
    [s] itself when it does not start with [prefix]. *)
Definition trim_prefix (s prefix : bytes) : bytes :=
  if has_prefix s prefix then drop (length prefix) s else s.

Definition TrimPrefix (s prefix : string) : string :=
  of_bytes (trim_prefix (to_bytes s) (to_bytes prefix)).

(** [strings.Split(s, "/")] *)
Fixpoint split_sep (l : bytes) : list bytes :=
  match l with
  | [] => [[]]
  | c :: l' =>
      if IsPathSeparator c then [] :: split_sep l'
      else match split_sep l' with
           | e :: es => (c :: e) :: es
           | [] => [[c]]
           end
  end.

(** [strings.Join(elems, "/")] *)
Fixpoint join_sep (es : list bytes) : bytes :=
  match es with
  | [] => []
  | [e] => e
  | e :: es' => e ++ Separator :: join_sep es'
  end.

Definition dot : bytes := ["."%char].
Definition dotdot : bytes := ["."%char; "."%char].

Definition rooted (p : bytes) : bool :=
  match p with
  | c :: _ => IsPathSeparator c
  | [] => false
  end.

(** The element pass of [filepath.Clean].  [stack] holds the elements kept
    so far, last one first; it plays the role of Go's output buffer, and an
    element [..] on top of it is Go's [dotdot] mark (nothing to back up
    over). *)
Fixpoint clean_pass (is_rooted : bool) (es stack : list bytes) : list bytes :=
  match es with
  | [] => rev stack
  | e :: es' =>
      if bytes_eqb e [] then clean_pass is_rooted es' stack        (* empty element *)
      else if bytes_eqb e dot then clean_pass is_rooted es' stack  (* . element *)
      else if bytes_eqb e dotdot then
        match stack with
        | top :: below =>
            if bytes_eqb top dotdot
            then clean_pass is_rooted es' (e :: stack)   (* leading ../.. grows *)
            else clean_pass is_rooted es' below          (* can backtrack *)
        | [] =>
            if is_rooted then clean_pass is_rooted es' []  (* .. at the root *)
            else clean_pass is_rooted es' [e]
        end
      else clean_pass is_rooted es' (e :: stack)
  end.

Definition clean_elems (p : bytes) : list bytes :=
  clean_pass (rooted p) (split_sep p) [].

(** The text of a cleaned path from its rootedness and elements. *)
Definition render (is_rooted : bool) (es : list bytes) : bytes :=
  match is_rooted, es with
  | false, [] => dot
  | false, _ => join_sep es
  | true, _ => Separator :: join_sep es
  end.

Definition clean (p : bytes) : bytes := render (rooted p) (clean_elems p).

(** [filepath.Clean] *)
Definition Clean (path : string) : string := of_bytes (clean (to_bytes path)).

(** [filepath.IsAbs] *)
Definition IsAbs (path : string) : bool := HasPrefix path "/".

(** [filepath.ToSlash]: the separator already is [/]. *)
Definition ToSlash (path : string) : string := path.

(** [filepath.Abs] on a path that is already absolute (the only use in the
    engine): the cleaned path. *)
Definition Abs_of_absolute (path : string) : string := Clean path.

(** Remove trailing separators. *)
Fixpoint strip_trailing_rev (r : bytes) : bytes :=
  match r with
  | c :: r' => if IsPathSeparator c then strip_trailing_rev r' else r
  | [] => []
  end.

(** The part of a reversed path before its first separator. *)
Fixpoint take_elem (r : bytes) : bytes :=
  match r with
  | c :: r' => if IsPathSeparator c then [] else c :: take_elem r'
  | [] => []
  end.

(** The part of a reversed path from its first separator on. *)
Fixpoint drop_elem (r : bytes) : bytes :=
  match r with
  | c :: r' => if IsPathSeparator c then r else drop_elem r'
  | [] => []
  end.

(** [filepath.Base] *)
Definition base (p : bytes) : bytes :=
  match p with
  | [] => dot
  | _ =>
      let stripped := strip_trailing_rev (rev p) in
      match rev (take_elem stripped) with
      | [] => [Separator]
      | name => name
      end
  end.

Definition Base (path : string) : string := of_bytes (base (to_bytes path)).

(** [filepath.Dir]: everything up to and including the last separator,
    cleaned. *)
Definition dir (p : bytes) : bytes := clean (rev (drop_elem (rev p))).

Definition Dir (path : string) : string := of_bytes (dir (to_bytes path)).

(** [filepath.Join]: empty elements are ignored, the rest is joined with the
    separator and cleaned; all elements empty gives the empty string. *)
Definition join2 (a b : bytes) : bytes :=
  match a, b with
  | [], [] => []
  | [], _ => clean b
  | _, _ => clean (a ++ Separator :: b)
  end.

Definition Join (a b : string) : string := of_bytes (join2 (to_bytes a) (to_bytes b)).

(** *** [filepath.Rel] *)

(** Up to the next separator, and what follows from that separator on. *)
Fixpoint span_elem (l : bytes) : bytes * bytes :=
  match l with
  | c :: l' =>
      if IsPathSeparator c then ([], l)
      else let '(e, r) := span_elem l' in (c :: e, r)
  | [] => ([], [])
  end.

Definition skip_sep (l : bytes) : bytes :=
  match l with
  | c :: l' => if IsPathSeparator c then l' else l
  | [] => []
  end.

(** The loop of [Rel] that positions both paths at their first differing
    elements.  Returns what is left of the base ([base[b0:]]), what is left
    of the target ([targ[t0:]]) and the base element under the cursor when
    the loop stopped ([base[b0:bi]]). *)
Fixpoint rel_scan (fuel : nat) (b t : bytes) : bytes * bytes * bytes :=
  match fuel with
  | O => (b, t, [])
  | S fuel' =>
      match b, t with
      | [], _ | _, [] => (b, t, [])
      | _, _ =>
          let '(eb, b') := span_elem b in
          let '(et, t') := span_elem t in
          if bytes_eqb et eb
          then rel_scan fuel' (skip_sep b') (skip_sep t')
          else (b, t, eb)
      end
  end.

Definition count_sep (l : bytes) : nat :=
  length (filter (λ c, c = Separator) l).

Fixpoint up_dirs (seps : nat) : bytes :=
  match seps with
  | O => []
  | S n => Separator :: dotdot ++ up_dirs n
  end.

Definition rel (basepath targpath : bytes) : option bytes :=
  let base0 := clean basepath in
  let targ := clean targpath in
  if bytes_eqb targ base0 then Some dot
  else
    let base := if bytes_eqb base0 dot then [] else base0 in
    if negb (eqb (rooted base) (rooted targ)) then None
    else
      let '(brest, trest, cur) := rel_scan (S (length base)) base targ in
      if bytes_eqb cur dotdot then None
      else
        match brest with
        | [] => Some trest
        | _ =>
            Some (dotdot ++ up_dirs (count_sep brest)
                    ++ match trest with
                       | [] => []
                       | _ => Separator :: trest
                       end)
        end.

(** [filepath.Rel], after the loop of the Go function; [None] stands for the
    error "Rel: can't make targpath relative to basepath". *)
Definition Rel (basepath targpath : string) : option string :=
  of_bytes <$> rel (to_bytes basepath) (to_bytes targpath).

End filepath.

Import filepath.

(** ** Errors

    Go errors as values: the two sentinels of the package, errors coming from
    a library or the operating system, and [fmt.Errorf] results, which either
    only format their arguments or also wrap an error with [%w]. *)

Inductive error : Type :=
| ErrSourceNotReachable
| ErrArchiveNotReadable
| ErrNew (msg : string)
| Errorf (format : string) (args : list string)
| Wrapf (format : string) (args : list string) (wrapped : error).

Global Instance error_eq_dec : EqDecision error.
Proof. solve_decision. Defined.

(** [fmt.Sprintf] for the verbs the package uses ([%s], [%v], [%w], [%c]):
    each verb takes the next argument. *)
Fixpoint sprintf (format : bytes) (args : list string) : string :=
  match format with
  | "%"%char :: _verb :: rest =>
      match args with
      | a :: args' => a +:+ sprintf rest args'
      | [] => sprintf rest []
      end
  | c :: rest => String c (sprintf rest args)
  | [] => ""
  end.

(** [err.Error()] *)
Fixpoint Error (e : error) : string :=
  match e with
  | ErrSourceNotReachable => "source not reachable"
  | ErrArchiveNotReadable => "archive not readable"
  | ErrNew msg => msg
  | Errorf format args => sprintf (to_bytes format) args
  | Wrapf format args wrapped => sprintf (to_bytes format) (args ++ [Error wrapped])
  end.

(** [errors.Is(e, target)] *)
Fixpoint Is (e target : error) : bool :=
  bool_decide (e = target)
  || match e with
     | Wrapf _ _ wrapped => Is wrapped target
     | _ => false
     end.

(** ** Integers and times *)

(** Go's [int64] addition wraps around. *)
Definition wrap64 (z : Z) : Z := ((z + 2 ^ 63) mod 2 ^ 64 - 2 ^ 63)%Z.

Definition add64 (a b : Z) : Z := wrap64 (a + b).

(** [time.Time] as nanoseconds counted from the zero time. *)
Definition Time := Z.
Definition IsZero (t : Time) : bool := (t =? 0)%Z.

(** ** [os.FileMode] and [os.FileInfo] *)

Module os.

Definition FileMode := Z.

Definition ModeDir : FileMode := Z.shiftl 1 31.
Definition ModeSymlink : FileMode := Z.shiftl 1 27.
Definition ModeDevice : FileMode := Z.shiftl 1 26.
Definition ModeNamedPipe : FileMode := Z.shiftl 1 25.
Definition ModeSocket : FileMode := Z.shiftl 1 24.
Definition ModeSetuid : FileMode := Z.shiftl 1 23.
Definition ModeSetgid : FileMode := Z.shiftl 1 22.
Definition ModeCharDevice : FileMode := Z.shiftl 1 21.
Definition ModeSticky : FileMode := Z.shiftl 1 20.
Definition ModeIrregular : FileMode := Z.shiftl 1 19.
Definition ModePerm : FileMode := 511%Z.   (* 0777 *)

Definition ModeType : FileMode :=
  Z.lor ModeDir (Z.lor ModeSymlink (Z.lor ModeNamedPipe
    (Z.lor ModeSocket (Z.lor ModeDevice (Z.lor ModeCharDevice ModeIrregular))))).

Definition has (m bit : FileMode) : bool := negb (Z.land m bit =? 0)%Z.

Definition IsRegular (m : FileMode) : bool := (Z.land m ModeType =? 0)%Z.
Definition IsDir (m : FileMode) : bool := has m ModeDir.
Definition Perm (m : FileMode) : FileMode := Z.land m ModePerm.

(** [syscall.Stat_t], the fields the engine reads. *)
Record Stat_t := { Uid : Z; Gid : Z; Atim : Time; Ctim : Time }.

(** [os.FileInfo]; [Sys] is [Some] when [fi.Sys()] is a [*syscall.Stat_t]. *)
Record FileInfo := {
  Name : string;
  Size : Z;
  Mode : FileMode;
  ModTime : Time;
  Sys : option Stat_t;
}.

End os.

(** ** [archive/tar]: headers *)

Module tar.

Definition TypeReg : ascii := "0"%char.
Definition TypeRegA : ascii := "000"%char.
Definition TypeLink : ascii := "1"%char.
Definition TypeSymlink : ascii := "2"%char.
Definition TypeChar : ascii := "3"%char.
Definition TypeBlock : ascii := "4"%char.
Definition TypeDir : ascii := "5"%char.
Definition TypeFifo : ascii := "6"%char.
Definition TypeXGlobalHeader : ascii := "g"%char.

Inductive format := FormatUnknown | FormatUSTAR | FormatPAX | FormatGNU.

Global Instance format_eq_dec : EqDecision format.
Proof. solve_decision. Defined.

Record Header := {
  Typeflag : ascii;
  Name : string;
  Linkname : string;
  Size : Z;
  Mode : Z;
  Uid : Z;
  Gid : Z;
  ModTime : Time;
  AccessTime : Time;
  ChangeTime : Time;
  Format : format;
}.

Definition c_ISUID : Z := 2048%Z.  (* 04000 *)
Definition c_ISGID : Z := 1024%Z.  (* 02000 *)
Definition c_ISVTX : Z := 512%Z.   (* 01000 *)

Definition with_Name (n : string) (h : Header) : Header :=
  {| Typeflag := Typeflag h; Name := n; Linkname := Linkname h; Size := Size h;
     Mode := Mode h; Uid := Uid h; Gid := Gid h; ModTime := ModTime h;
     AccessTime := AccessTime h; ChangeTime := ChangeTime h; Format := Format h |}.

Definition with_Format (f : format) (h : Header) : Header :=
  {| Typeflag := Typeflag h; Name := Name h; Linkname := Linkname h; Size := Size h;
     Mode := Mode h; Uid := Uid h; Gid := Gid h; ModTime := ModTime h;
     AccessTime := AccessTime h; ChangeTime := ChangeTime h; Format := f |}.

Definition with_owner_times (uid gid : Z) (at_ ct : Time) (h : Header) : Header :=
  {| Typeflag := Typeflag h; Name := Name h; Linkname := Linkname h; Size := Size h;
     Mode := Mode h; Uid := uid; Gid := gid; ModTime := ModTime h;
     AccessTime := at_; ChangeTime := ct; Format := Format h |}.

(** The type switch of [tar.FileInfoHeader]: type flag, name suffix, link
    name and size from the file mode; sockets and unknown modes are
    errors. *)
Definition header_kind (fi : os.FileInfo) (link : string)
  : error + (ascii * string * string * Z) :=
  let fm := os.Mode fi in
  if os.IsRegular fm then inr (TypeReg, os.Name fi, "", os.Size fi)
  else if os.IsDir fm then inr (TypeDir, os.Name fi +:+ "/", "", 0%Z)
  else if os.has fm os.ModeSymlink then inr (TypeSymlink, os.Name fi, link, 0%Z)
  else if os.has fm os.ModeDevice then
    inr (if os.has fm os.ModeCharDevice then TypeChar else TypeBlock,
         os.Name fi, "", 0%Z)
  else if os.has fm os.ModeNamedPipe then inr (TypeFifo, os.Name fi, "", 0%Z)
  else if os.has fm os.ModeSocket then inl (Errorf "archive/tar: sockets not supported" [])
  else inl (Errorf "archive/tar: unknown file mode %v" ["?"]).

Definition header_mode (fm : os.FileMode) : Z :=
  let m0 := os.Perm fm in
  let m1 := if os.has fm os.ModeSetuid then Z.lor m0 c_ISUID else m0 in
  let m2 := if os.has fm os.ModeSetgid then Z.lor m1 c_ISGID else m1 in
  if os.has fm os.ModeSticky then Z.lor m2 c_ISVTX else m2.

(** [tar.FileInfoHeader(fi, link)]: the header of a file, with [Format]
    left at [FormatUnknown]; owner and access/change times come from the
    platform's stat structure when there is one. *)
Definition FileInfoHeader (fi : os.FileInfo) (link : string) : error + Header :=
  match header_kind fi link with
  | inl e => inl e
  | inr (flag, name, lnk, size) =>
      let sys := os.Sys fi in
      inr {| Typeflag := flag; Name := name; Linkname := lnk; Size := size;
             Mode := header_mode (os.Mode fi);
             Uid := from_option os.Uid 0%Z sys;
             Gid := from_option os.Gid 0%Z sys;
             ModTime := os.ModTime fi;
             AccessTime := from_option os.Atim 0%Z sys;
             ChangeTime := from_option os.Ctim 0%Z sys;
             Format := FormatUnknown |}
  end.

End tar.

(** ** The archive engine: options and path normalizer *)

(** [Archive]: the options fixed at construction (the logger is left out). *)
Record Archive := {
  root : string;
  skipSymlinks : bool;
  preserveMetadata : bool;
}.

Definition New (root : string) (skipSymlinks : bool) : Archive :=
  {| root := root; skipSymlinks := skipSymlinks; preserveMetadata := false |}.

Definition NewWithPreserveMetadata (root : string) (skipSymlinks preserveMetadata : bool)
  : Archive :=
  {| root := root; skipSymlinks := skipSymlinks; preserveMetadata := preserveMetadata |}.

(** The loop [for strings.HasPrefix(rel, "../") { rel = strings.TrimPrefix(rel, "../") }];
    every turn removes three bytes, so the length of [rel] bounds the turns. *)
Fixpoint strip_updirs (fuel : nat) (rel : string) : string :=
  match fuel with
  | O => rel
  | S fuel' =>
      if HasPrefix rel "../" then strip_updirs fuel' (TrimPrefix rel "../") else rel
  end.

Definition relative (parent path : string) : error + string :=
  let name := Base path in
  match Rel parent (Dir path) with
  | None =>
      inl (Wrapf "relative path <%s>, base <%s>, %w" [""; name]
             (ErrNew ("Rel: can't make " +:+ Dir path +:+ " relative to " +:+ parent)))
  | Some rel =>
      let rel := strip_updirs (String.length rel) rel in
      let rel := ToSlash rel in
      inr (TrimPrefix (Join rel name) "/")
  end.

(** ** Create *)

(** What [filepath.Walk] and the file system present for one visited node:
    the arguments of the walk callback and the outcome of each call the
    callback may make for that node. *)
Record visit := {
  v_path : string;
  v_info : option os.FileInfo;
  v_err : option error;
  v_readlink : error + string;     (* os.Readlink(path) *)
  v_writeheader : option error;    (* tw.WriteHeader(h) *)
  v_open : option error;           (* os.Open(path) *)
  v_data : bytes;                  (* the bytes io.Copy moves into the archive ... *)
  v_copy : option error;           (* ... before it fails, if it does *)
  v_close : option error;          (* f.Close() *)
}.

(** One requested source path: the outcome of [os.Lstat(src)] and the nodes
    [filepath.Walk(src, ...)] visits, in order. *)
Record source := {
  src_path : string;
  src_lstat : option error;
  src_walk : list visit;
}.

(** The tar writer: the headers written so far, each with the payload bytes
    written after it. *)
Abbreviation tarWriter := (list (tar.Header * bytes)).

Definition tw_WriteHeader (h : tar.Header) (tw : tarWriter) : tarWriter := tw ++ [(h, [])].

Definition tw_Write (data : bytes) (tw : tarWriter) : tarWriter :=
  match reverse tw with
  | (h, payload) :: before => reverse before ++ [(h, payload ++ data)]
  | [] => tw
  end.

(** Modelled from the spec: [internal.CloseWithErrCapturef] is not among the
    sources, and of errors the specification only says that every fatal one
    is wrapped and returned.  The deferred close reports a failing [Close]
    through the named result [err]; a successful close leaves [err] as it
    is. *)
Definition CloseWithErrCapturef (err : option error) (closed : option error)
    (format : string) (args : list string) : option error :=
  match closed, err with
  | None, _ => err
  | Some c, None => Some (Wrapf (format +:+ ": %w") args c)
  | Some c, Some e => Some (Wrapf (Error e +:+ "; " +:+ format +:+ ": %w") args c)
  end.

Section Engine.

(** [runtime.GOOS] *)
Variable GOOS : string.

Definition not_windows : bool := negb (bool_decide (GOOS = "windows")).

(** tar.go 91-104: the extended format and the stat fields of a preserved
    header. *)
Definition preserve_header (preserve : bool) (fi : os.FileInfo) (h : tar.Header)
  : tar.Header :=
  if preserve then
    let h := tar.with_Format tar.FormatPAX h in
    if not_windows then
      match os.Sys fi with
      | Some stat =>
          tar.with_owner_times (os.Uid stat) (os.Gid stat)
            (os.ModTime fi) (os.ModTime fi) h
      | None => h
      end
    else h
  else h.

Definition createSymlinkHeader (fi : os.FileInfo) (v : visit) : error + tar.Header :=
  match v_readlink v with
  | inl err => inl (Wrapf "read link <%s>, %w" [v_path v] err)
  | inr lnk =>
      match tar.FileInfoHeader fi lnk with
      | inl err => inl (Wrapf "create symlink header for <%s>, %w" [v_path v] err)
      | inr h => inr h
      end
  end.

(** tar.go 117-124: the name of the entry. *)
Definition entry_name (root : string) (isRelativePath : bool) (path : string)
  : error + string :=
  if IsAbs path then inr (Abs_of_absolute path)
  else if isRelativePath then inr path
  else relative root path.

Definition writeFileToArchive (v : visit) (tw : tarWriter)
  : tarWriter * Z * option error :=
  match v_open v with
  | Some err => (tw, 0%Z, Some (Wrapf "open file <%s>, %w" [v_path v] err))
  | None =>
      let tw := tw_Write (v_data v) tw in
      let written := Z.of_nat (length (v_data v)) in
      let err :=
        match v_copy v with
        | Some err =>
            Some (Wrapf "copy the file <%s> data to the tarball, %w" [v_path v] err)
        | None => None
        end in
      (tw, written,
       CloseWithErrCapturef err (v_close v) "write file to archive <%s>" [v_path v])
  end.

(** The walk callback returned by [writeToArchive]; the state is the tar
    writer and the counter [*written]. *)
Definition writeToArchive (root : string) (skipSymlinks isRelativePath preserve : bool)
    (v : visit) (st : tarWriter * Z) : (tarWriter * Z) * option error :=
  let '(tw, written) := st in
  match v_err v with
  | Some err => (st, Some err)
  | None =>
  match v_info v with
  | None => (st, Some (ErrNew "no file info"))
  | Some fi =>
  match tar.FileInfoHeader fi (os.Name fi) with
  | inl err => (st, Some (Wrapf "create header for <%s>, %w" [v_path v] err))
  | inr h =>
  let h := preserve_header preserve fi h in
  let symlink :=
    if os.has (os.Mode fi) os.ModeSymlink then
      if skipSymlinks then None
      else Some (match createSymlinkHeader fi v with
                 | inl err => inl (Wrapf "create header for symbolic link, %w" [] err)
                 | inr h' => inr h'
                 end)
    else Some (inr h) in
  match symlink with
  | None => (st, None)
  | Some (inl err) => (st, Some err)
  | Some (inr h) =>
  match entry_name root isRelativePath (v_path v) with
  | inl err => (st, Some (Wrapf "relative name <%s>: <%s>, %w" [v_path v; root] err))
  | inr name =>
  let h := tar.with_Name name h in
  match v_writeheader v with
  | Some err => (st, Some (Wrapf "write header for <%s>, %w" [v_path v] err))
  | None =>
  let tw := tw_WriteHeader h tw in
  if negb (os.IsRegular (os.Mode fi)) then ((tw, written), None)
  else
    let '(tw, n, err) := writeFileToArchive v tw in
    match err with
    | Some err => ((tw, written), Some (Wrapf "write file to archive, %w" [] err))
    | None => ((tw, add64 written n), None)
    end
  end end end end end end.

(** [filepath.Walk]: the callback runs on every visited node until it
    returns an error, which ends the walk. *)
Fixpoint Walk {S : Type} (fn : visit → S → S * option error) (vs : list visit) (st : S)
  : S * option error :=
  match vs with
  | [] => (st, None)
  | v :: vs' =>
      match fn v st with
      | (st', Some err) => (st', Some err)
      | (st', None) => Walk fn vs' st'
      end
  end.

Fixpoint Create_srcs (a : Archive) (srcs : list source) (isRelativePath : bool)
    (st : tarWriter * Z) : tarWriter * (Z * option error) :=
  match srcs with
  | [] => (st.1, (st.2, None))
  | src :: srcs' =>
      match src_lstat src with
      | Some err =>
          (st.1, (st.2,
            Some (Wrapf "make sure file or directory readable <%s>: %v,, %w"
                    [src_path src; Error err] ErrSourceNotReachable)))
      | None =>
          match Walk (writeToArchive (root a) (skipSymlinks a) isRelativePath
                        (preserveMetadata a)) (src_walk src) st with
          | (st', Some err) =>
              (st'.1, (st'.2, Some (Wrapf "walk, add all files to archive, %w" [] err)))
          | (st', None) => Create_srcs a srcs' isRelativePath st'
          end
      end
  end.

(** [Create]: the archive written and the pair the Go function returns.  The
    deferred close of the tar writer only logs, it is left out. *)
Definition Create (a : Archive) (srcs : list source) (isRelativePath : bool)
  : tarWriter * (Z * option error) :=
  Create_srcs a srcs isRelativePath ([], 0%Z).

End Engine.

(** ** The operating system seen by Extract

    A directory tree as a table from cleaned paths to inode numbers and a
    table of inodes, so that hard links share one inode.  Paths are resolved
    by their text; a symbolic link in the last position is followed by the
    calls that follow links on POSIX.  Besides the failures that the tree
    itself causes (a missing entry, a file where a directory is needed, ...)
    every call may fail because the environment says so: the world carries
    the faults scheduled for the coming content calls and for the coming
    metadata calls.  Every call is recorded in the log of the world. *)

Record meta := {
  m_mode : Z;
  m_atime : Time;
  m_mtime : Time;
  m_uid : Z;
  m_gid : Z;
}.

Inductive body :=
| BFile (data : bytes)
| BDir
| BSymlink (target : string).

Record inode := { i_body : body; i_meta : meta }.

Record fs := {
  names : gmap string nat;
  inodes : gmap nat inode;
  next_ino : nat;
}.

Inductive event :=
| EvLstat (path : string)
| EvRemove (path : string)
| EvMkdirAll (path : string) (perm : Z)
| EvOpenFile (path : string) (flag perm : Z)
| EvRead (n : nat)                       (* payload bytes taken from the tar reader *)
| EvWrite (ino : nat) (n : nat)          (* bytes written to an open file *)
| EvClose (ino : nat)
| EvSymlink (oldname newname : string)
| EvLink (oldname newname : string)
| EvChmod (path : string) (mode : Z)
| EvChtimes (path : string) (atime mtime : Time)
| EvChown (path : string) (uid gid : Z)
| EvLchown (path : string) (uid gid : Z).

Global Instance event_eq_dec : EqDecision event.
Proof. solve_decision. Defined.

Record world := {
  w_fs : fs;
  w_log : list event;
  w_io : list (option nat);   (* faults of the coming content calls *)
  w_md : list bool;           (* faults of the coming metadata calls *)
}.

Inductive errno := ENOENT | EEXIST | EISDIR | ENOTDIR | ENOTEMPTY | EPERM | ELOOP | EIO.

Definition errno_text (e : errno) : string :=
  match e with
  | ENOENT => "no such file or directory"
  | EEXIST => "file exists"
  | EISDIR => "is a directory"
  | ENOTDIR => "not a directory"
  | ENOTEMPTY => "directory not empty"
  | EPERM => "operation not permitted"
  | ELOOP => "too many levels of symbolic links"
  | EIO => "input/output error"
  end.

(** [*os.PathError] *)
Definition PathError (op path : string) (e : errno) : error :=
  ErrNew (op +:+ " " +:+ path +:+ ": " +:+ errno_text e).

Module sys.

Definition O_RDWR : Z := 2%Z.
Definition O_CREATE : Z := 64%Z.
Definition O_TRUNC : Z := 512%Z.

Definition set_fs (f : fs) (w : world) : world :=
  {| w_fs := f; w_log := w_log w; w_io := w_io w; w_md := w_md w |}.

Definition record (e : event) (w : world) : world :=
  {| w_fs := w_fs w; w_log := w_log w ++ [e]; w_io := w_io w; w_md := w_md w |}.

(** The fault of the next content call, if one is scheduled. *)
Definition next_io (w : world) : option nat * world :=
  match w_io w with
  | [] => (None, w)
  | f :: rest =>
      (f, {| w_fs := w_fs w; w_log := w_log w; w_io := rest; w_md := w_md w |})
  end.

(** Whether the next metadata call is scheduled to fail. *)
Definition next_md (w : world) : bool * world :=
  match w_md w with
  | [] => (false, w)
  | f :: rest =>
      (f, {| w_fs := w_fs w; w_log := w_log w; w_io := w_io w; w_md := rest |})
  end.

Definition key (path : string) : string := Clean path.

(** The body of the inode [i]. *)
Definition body_of (f : fs) (i : nat) : option body := i_body <$> inodes f !! i.

(** The inode number that the name [k] has, with the body of the inode. *)
Definition find_inode (f : fs) (k : string) : option (nat * body) :=
  names f !! k ≫= λ i, (λ b, (i, b)) <$> body_of f i.

Definition lookup_key (f : fs) (k : string) : option body :=
  snd <$> find_inode f k.

Definition link_dest (k target : string) : string :=
  if IsAbs target then Clean target else Join (Dir k) target.

(** Follow symbolic links in the last position, at most [fuel] of them. *)
Fixpoint resolve (f : fs) (fuel : nat) (k : string) : option string :=
  match lookup_key f k with
  | Some (BSymlink target) =>
      match fuel with
      | O => None
      | S fuel' => resolve f fuel' (link_dest k target)
      end
  | _ => Some k
  end.

Definition max_links : nat := 40.

(** The name a path leads to when links are followed, and its inode. *)
Definition stat_key (f : fs) (k : string) : errno + (string * option (nat * body)) :=
  match resolve f max_links k with
  | None => inl ELOOP
  | Some k' => inr (k', find_inode f k')
  end.

Definition is_dir (f : fs) (k : string) : bool :=
  match stat_key f k with
  | inr (_, Some (_, BDir)) => true
  | _ => false
  end.

Definition new_meta (mode : Z) : meta :=
  {| m_mode := mode; m_atime := 0%Z; m_mtime := 0%Z; m_uid := 0%Z; m_gid := 0%Z |}.

Definition add_inode (k : string) (n : inode) (f : fs) : fs :=
  {| names := <[k := next_ino f]> (names f);
     inodes := <[next_ino f := n]> (inodes f);
     next_ino := S (next_ino f) |}.

(** A new body for the inode [i]; its metadata stay. *)
Definition set_body (i : nat) (b : body) (f : fs) : fs :=
  {| names := names f;
     inodes := alter (λ n, {| i_body := b; i_meta := i_meta n |}) i (inodes f);
     next_ino := next_ino f |}.

(** New metadata for the inode [i]; its body stays. *)
Definition set_meta (i : nat) (upd : meta → meta) (f : fs) : fs :=
  {| names := names f;
     inodes := alter (λ n, {| i_body := i_body n; i_meta := upd (i_meta n) |}) i
                 (inodes f);
     next_ino := next_ino f |}.

(** [k], its parent, the parent of that, ... up to the top, top first. *)
Fixpoint ancestors (fuel : nat) (k : string) (acc : list string) : list string :=
  match fuel with
  | O => k :: acc
  | S fuel' =>
      if bool_decide (Dir k = k) then k :: acc
      else ancestors fuel' (Dir k) (k :: acc)
  end.

Fixpoint mkdir_chain (perm : Z) (ks : list string) (f : fs) : errno + fs :=
  match ks with
  | [] => inr f
  | k :: ks' =>
      match stat_key f k with
      | inl e => inl e
      | inr (_, Some (_, BDir)) => mkdir_chain perm ks' f
      | inr (_, Some _) => inl ENOTDIR
      | inr (k', None) =>
          if bool_decide (k' = k)
          then mkdir_chain perm ks'
                 (add_inode k {| i_body := BDir; i_meta := new_meta perm |} f)
          else inl EEXIST      (* a dangling link is in the way *)
      end
  end.

(** [os.MkdirAll(path, perm)] *)
Definition MkdirAll (path : string) (perm : Z) (w : world) : option error * world :=
  let w := record (EvMkdirAll path perm) w in
  let '(fault, w) := next_io w in
  match fault with
  | Some _ => (Some (PathError "mkdir" path EIO), w)
  | None =>
      let k := key path in
      match mkdir_chain perm (ancestors (String.length k) k []) (w_fs w) with
      | inl e => (Some (PathError "mkdir" path e), w)
      | inr f => (None, set_fs f w)
      end
  end.

(** [os.Lstat(path)], of which the engine only uses the error. *)
Definition Lstat (path : string) (w : world) : option error * world :=
  let w := record (EvLstat path) w in
  let '(fault, w) := next_io w in
  match fault with
  | Some _ => (Some (PathError "lstat" path EIO), w)
  | None =>
      match lookup_key (w_fs w) (key path) with
      | Some _ => (None, w)
      | None => (Some (PathError "lstat" path ENOENT), w)
      end
  end.

Definition has_children (f : fs) (k : string) : bool :=
  bool_decide (Exists (λ k', k' ≠ k ∧ Dir k' = k) (map_to_list (names f)).*1).

Definition unlink_name (k : string) (f : fs) : fs :=
  {| names := delete k (names f); inodes := inodes f; next_ino := next_ino f |}.

(** [os.Remove(path)] *)
Definition Remove (path : string) (w : world) : option error * world :=
  let w := record (EvRemove path) w in
  let '(fault, w) := next_io w in
  match fault with
  | Some _ => (Some (PathError "remove" path EIO), w)
  | None =>
      let k := key path in
      match lookup_key (w_fs w) k with
      | None => (Some (PathError "remove" path ENOENT), w)
      | Some BDir =>
          if has_children (w_fs w) k
          then (Some (PathError "remove" path ENOTEMPTY), w)
          else (None, set_fs (unlink_name k (w_fs w)) w)
      | Some _ => (None, set_fs (unlink_name k (w_fs w)) w)
      end
  end.

(** [os.Symlink(oldname, newname)] *)
Definition Symlink (oldname newname : string) (w : world) : option error * world :=
  let w := record (EvSymlink oldname newname) w in
  let '(fault, w) := next_io w in
  match fault with
  | Some _ => (Some (PathError "symlink" newname EIO), w)
  | None =>
      let k := key newname in
      match names (w_fs w) !! k with
      | Some _ => (Some (PathError "symlink" newname EEXIST), w)
      | None =>
          if is_dir (w_fs w) (Dir k)
          then (None,
                set_fs (add_inode k {| i_body := BSymlink oldname;
                                       i_meta := new_meta 511%Z |} (w_fs w)) w)
          else (Some (PathError "symlink" newname ENOENT), w)
      end
  end.

(** [os.Link(oldname, newname)] *)
Definition Link (oldname newname : string) (w : world) : option error * world :=
  let w := record (EvLink oldname newname) w in
  let '(fault, w) := next_io w in
  match fault with
  | Some _ => (Some (PathError "link" newname EIO), w)
  | None =>
      let f := w_fs w in
      let k := key newname in
      match find_inode f (key oldname) with
      | None => (Some (PathError "link" oldname ENOENT), w)
      | Some (_, BDir) => (Some (PathError "link" oldname EPERM), w)
      | Some (i, _) =>
          match names f !! k with
          | Some _ => (Some (PathError "link" newname EEXIST), w)
          | None =>
              if is_dir f (Dir k)
              then (None,
                    set_fs {| names := <[k := i]> (names f); inodes := inodes f;
                              next_ino := next_ino f |} w)
              else (Some (PathError "link" newname ENOENT), w)
          end
      end
  end.

(** [os.OpenFile(path, flag, perm)]: the inode number of the opened regular
    file stands for the [*os.File]. *)
Definition OpenFile (path : string) (flag perm : Z) (w : world) : (error + nat) * world :=
  let w := record (EvOpenFile path flag perm) w in
  let '(fault, w) := next_io w in
  match fault with
  | Some _ => (inl (PathError "open" path EIO), w)
  | None =>
      let f := w_fs w in
      match stat_key f (key path) with
      | inl e => (inl (PathError "open" path e), w)
      | inr (_, Some (i, BFile data)) =>
          if negb (Z.land flag O_TRUNC =? 0)%Z
          then (inr i, set_fs (set_body i (BFile []) f) w)
          else (inr i, w)
      | inr (_, Some (_, BDir)) => (inl (PathError "open" path EISDIR), w)
      | inr (_, Some (_, BSymlink _)) => (inl (PathError "open" path ELOOP), w)
      | inr (k, None) =>
          if (Z.land flag O_CREATE =? 0)%Z then (inl (PathError "open" path ENOENT), w)
          else if is_dir f (Dir k)
          then (inr (next_ino f),
                set_fs (add_inode k {| i_body := BFile []; i_meta := new_meta perm |} f) w)
          else (inl (PathError "open" path ENOENT), w)
      end
  end.

(** Writing [data] at offset 0 of an open file. *)
Definition overwrite (data old : bytes) : bytes := data ++ drop (length data) old.

Definition write_inode (i : nat) (data : bytes) (f : fs) : fs :=
  match body_of f i with
  | Some (BFile old) => set_body i (BFile (overwrite data old)) f
  | _ => f
  end.

(** [io.Copy(f, tr)] for a file just opened: the reader delivers [data] and
    then [read_err] (or the regular end of the payload); the file takes the
    bytes unless the write is cut short by a fault.  Returns the number of
    bytes written and the error. *)
Definition Copy (i : nat) (data : bytes) (read_err : option error) (w : world)
  : (Z * option error) * world :=
  let w := record (EvRead (length data)) w in
  match data with
  | [] => ((0%Z, read_err), w)
  | _ =>
      let '(fault, w) := next_io w in
      match fault with
      | Some k =>
          let part := take k data in
          let w := record (EvWrite i (length part)) w in
          ((Z.of_nat (length part), Some (PathError "write" "" EIO)),
           set_fs (write_inode i part (w_fs w)) w)
      | None =>
          let w := record (EvWrite i (length data)) w in
          ((Z.of_nat (length data), read_err),
           set_fs (write_inode i data (w_fs w)) w)
      end
  end.

(** [f.Close()] *)
Definition Close (i : nat) (w : world) : option error * world :=
  let w := record (EvClose i) w in
  let '(fault, w) := next_io w in
  match fault with
  | Some _ => (Some (PathError "close" "" EIO), w)
  | None => (None, w)
  end.

(** A metadata call on the inode that [path] names; [follow] says whether
    a symbolic link in the last position is followed. *)
Definition update_meta (follow : bool) (upd : meta → meta) (op path : string)
    (w : world) : option error * world :=
  let '(fault, w) := next_md w in
  if fault then (Some (PathError op path EPERM), w)
  else
    let f := w_fs w in
    let target :=
      if follow then stat_key f (key path)
      else inr (key path, find_inode f (key path)) in
    match target with
    | inl e => (Some (PathError op path e), w)
    | inr (_, None) => (Some (PathError op path ENOENT), w)
    | inr (_, Some (i, _)) => (None, set_fs (set_meta i upd f) w)
    end.

Definition set_mode (mode : Z) (m : meta) : meta :=
  {| m_mode := mode; m_atime := m_atime m; m_mtime := m_mtime m;
     m_uid := m_uid m; m_gid := m_gid m |}.

Definition set_times (atime mtime : Time) (m : meta) : meta :=
  {| m_mode := m_mode m; m_atime := atime; m_mtime := mtime;
     m_uid := m_uid m; m_gid := m_gid m |}.

Definition set_owner (uid gid : Z) (m : meta) : meta :=
  {| m_mode := m_mode m; m_atime := m_atime m; m_mtime := m_mtime m;
     m_uid := uid; m_gid := gid |}.

(** [os.Chmod], [os.Chtimes], [os.Chown] follow links; [os.Lchown] does not. *)
Definition Chmod (path : string) (mode : Z) (w : world) : option error * world :=
  update_meta true (set_mode mode) "chmod" path (record (EvChmod path mode) w).

Definition Chtimes (path : string) (atime mtime : Time) (w : world)
  : option error * world :=
  update_meta true (set_times atime mtime) "chtimes" path
    (record (EvChtimes path atime mtime) w).

Definition Chown (path : string) (uid gid : Z) (w : world) : option error * world :=
  update_meta true (set_owner uid gid) "chown" path (record (EvChown path uid gid) w).

Definition Lchown (path : string) (uid gid : Z) (w : world) : option error * world :=
  update_meta false (set_owner uid gid) "lchown" path (record (EvLchown path uid gid) w).

End sys.

(** ** Extract *)

(** What [tr.Next()] yields for one entry: the header, the payload bytes the
    reader then delivers and the error that ends the payload early, if any.
    [NilHeader] is a nil header returned without an error. *)
Inductive item :=
| Entry (h : tar.Header) (data : bytes) (read_err : option error)
| NilHeader.

(** The archive stream: its entries, then [io.EOF] ([None]) or the error of a
    damaged stream. *)
Record tape := {
  t_items : list item;
  t_end : option error;
}.

(** The value type of the [dirMetadata] map. *)
Record dirRecord := {
  mode : os.FileMode;
  at_ : Time;
  mt : Time;
  uid : Z;
  gid : Z;
}.

Definition defaultDirPermission : Z := 493%Z.   (* 0755 *)

(** The conversion [os.FileMode(h.Mode)] from [int64] to [uint32]. *)
Definition FileMode_of (m : Z) : os.FileMode := (m mod 2 ^ 32)%Z.

(** *** Ranging over a Go map

    The keys come in an order the language leaves open.  [range_keys] takes
    the keys in the order of the table and then, for every number of
    [order], moves the key at that position to the front: every order of
    the keys can be reached this way. *)
Definition to_front {A} (i : nat) (l : list A) : list A :=
  match l !! (i mod length l) with
  | Some x => x :: delete (i mod length l) l
  | None => l
  end.

Definition range_keys {V} (order : list nat) (m : gmap string V) : list string :=
  fold_left (λ l i, to_front i l) order (map_to_list m).*1.

(** *** The sort of tar.go 232-238 *)

Definition swap (i j : nat) (dirs : list string) : list string :=
  <[i := dirs !!! j]> (<[j := dirs !!! i]> dirs).

(** The inner loop [for j := ...; j < len(dirs); j++]. *)
Fixpoint sort_inner (fuel i j : nat) (dirs : list string) : list string :=
  match fuel with
  | O => dirs
  | S fuel' =>
      if (j <? length dirs)%nat then
        sort_inner fuel' i (S j)
          (if (String.length (dirs !!! i) <? String.length (dirs !!! j))%nat
           then swap i j dirs else dirs)
      else dirs
  end.

(** The outer loop [for i := ...; i < len(dirs); i++]. *)
Fixpoint sort_outer (fuel i : nat) (dirs : list string) : list string :=
  match fuel with
  | O => dirs
  | S fuel' =>
      if (i <? length dirs)%nat then
        sort_outer fuel' (S i) (sort_inner (length dirs) i (S i) dirs)
      else dirs
  end.

Definition sort_dirs (dirs : list string) : list string :=
  sort_outer (length dirs) 0 dirs.

Section Extraction.

Variable GOOS : string.

(** The order in which [for dir := range dirMetadata] visits the keys. *)
Variable range_order : list nat.

Definition unlink (path : string) (w : world) : option error * world :=
  let '(err, w) := sys.Lstat path w in
  match err with
  | None => sys.Remove path w
  | Some _ => (None, w)
  end.

(** The block "apply metadata" of [extractRegular] and [extractLink]: mode,
    times (the access time falls back to the modification time), owner. *)
Definition restore_metadata (h : tar.Header) (target : string) (w : world) : world :=
  let w := (sys.Chmod target (FileMode_of (tar.Mode h)) w).2 in
  let at_ := if IsZero (tar.AccessTime h) then tar.ModTime h else tar.AccessTime h in
  let w := (sys.Chtimes target at_ (tar.ModTime h) w).2 in
  if not_windows GOOS then (sys.Chown target (tar.Uid h) (tar.Gid h) w).2 else w.

Definition extractDir (h : tar.Header) (target : string) (w : world)
  : option error * world :=
  match sys.MkdirAll target (FileMode_of (tar.Mode h)) w with
  | (Some err, w) => (Some (Wrapf "create directory <%s>, %w" [target] err), w)
  | (None, w) => (None, w)
  end.

Definition extractRegular (h : tar.Header) (data : bytes) (read_err : option error)
    (target : string) (preserve : bool) (w : world) : (Z * option error) * world :=
  match sys.OpenFile target (Z.lor sys.O_CREATE sys.O_RDWR) (FileMode_of (tar.Mode h)) w with
  | (inl err, w) =>
      ((0%Z, Some (Wrapf "open extracted file for writing <%s>, %w" [target] err)), w)
  | (inr f, w) =>
      let '((written, err), w) := sys.Copy f data read_err w in
      let '(err, w) :=
        match err with
        | Some err =>
            (Some (Wrapf "copy extracted file for writing <%s>, %w" [target] err), w)
        | None => (None, if preserve then restore_metadata h target w else w)
        end in
      let '(closed, w) := sys.Close f w in
      ((written, CloseWithErrCapturef err closed "extract regular <%s>" [target]), w)
  end.

Definition extractSymlink (h : tar.Header) (target : string) (preserve : bool)
    (w : world) : option error * world :=
  match unlink target w with
  | (Some err, w) => (Some (Wrapf "unlink <%s>, %w" [target] err), w)
  | (None, w) =>
      match sys.Symlink (tar.Linkname h) target w with
      | (Some err, w) => (Some (Wrapf "create symbolic link <%s>, %w" [target] err), w)
      | (None, w) =>
          if preserve && not_windows GOOS
          then (None, (sys.Lchown target (tar.Uid h) (tar.Gid h) w).2)
          else (None, w)
      end
  end.

Definition extractLink (h : tar.Header) (target : string) (preserve : bool)
    (w : world) : option error * world :=
  match unlink target w with
  | (Some err, w) => (Some (Wrapf "unlink <%s>, %w" [target] err), w)
  | (None, w) =>
      match sys.Link (tar.Linkname h) target w with
      | (Some err, w) =>
          (Some (Wrapf "create hard link <%s>, %w" [tar.Linkname h] err), w)
      | (None, w) =>
          (None, if preserve then restore_metadata h target w else w)
      end
  end.

(** tar.go 256-266: where the entry goes. *)
Definition entry_target (dst : string) (h : tar.Header) : error + string :=
  if bool_decide (dst = tar.Name h) || IsAbs (tar.Name h) then inr (tar.Name h)
  else
    match relative dst (tar.Name h) with
    | inl err => inl (Wrapf "relative name, %w" [] err)
    | inr name => inr (Join dst name)
    end.

(** tar.go 240-247: one pending record is applied. *)
Definition apply_dir (dirMetadata : gmap string dirRecord) (dir : string) (w : world)
  : world :=
  let meta := default {| mode := 0%Z; at_ := 0%Z; mt := 0%Z; uid := 0%Z; gid := 0%Z |}
                (dirMetadata !! dir) in
  let w := (sys.Chmod dir (mode meta) w).2 in
  let w := (sys.Chtimes dir (at_ meta) (mt meta) w).2 in
  if not_windows GOOS then (sys.Chown dir (uid meta) (gid meta) w).2 else w.

(** The directories in the order in which their records are applied. *)
Definition flush_order (dirMetadata : gmap string dirRecord) : list string :=
  sort_dirs (range_keys range_order dirMetadata).

(** tar.go 224-248 *)
Definition flush (dirMetadata : gmap string dirRecord) (w : world) : world :=
  fold_left (λ w dir, apply_dir dirMetadata dir w) (flush_order dirMetadata) w.

Definition is_regular_flag (c : ascii) : bool :=
  bool_decide (c = tar.TypeReg) || bool_decide (c = tar.TypeRegA)
  || bool_decide (c = tar.TypeChar) || bool_decide (c = tar.TypeBlock)
  || bool_decide (c = tar.TypeFifo).

(** The body of the loop of [Extract] for one entry: [inl] is a [return],
    [inr] is a [continue] with the new state. *)
Definition extract_entry (a : Archive) (dst : string) (h : tar.Header) (data : bytes)
    (read_err : option error) (w : world) (written : Z)
    (dirMetadata : gmap string dirRecord)
  : world * ((Z * option error) + (Z * gmap string dirRecord)) :=
  match entry_target dst h with
  | inl err => (w, inl (0%Z, Some err))
  | inr target =>
  match sys.MkdirAll (Dir target) defaultDirPermission w with
  | (Some err, w) =>
      (w, inl (0%Z, Some (Wrapf "ensure directory <%s>, %w" [target] err)))
  | (None, w) =>
  let flag := tar.Typeflag h in
  if bool_decide (flag = tar.TypeDir) then
    if preserveMetadata a then
      let dirMetadata :=
        <[target := {| mode := FileMode_of (tar.Mode h); at_ := tar.AccessTime h;
                       mt := tar.ModTime h; uid := tar.Uid h; gid := tar.Gid h |}]>
          dirMetadata in
      match sys.MkdirAll target defaultDirPermission w with
      | (Some err, w) =>
          (w, inl (written, Some (Wrapf "create directory <%s>, %w" [target] err)))
      | (None, w) => (w, inr (written, dirMetadata))
      end
    else
      match extractDir h target w with
      | (Some err, w) => (w, inl (written, Some err))
      | (None, w) => (w, inr (written, dirMetadata))
      end
  else if is_regular_flag flag then
    let '((n, err), w) := extractRegular h data read_err target (preserveMetadata a) w in
    let written := add64 written n in
    match err with
    | Some err => (w, inl (written, Some (Wrapf "extract regular file, %w" [] err)))
    | None => (w, inr (written, dirMetadata))
    end
  else if bool_decide (flag = tar.TypeSymlink) then
    match extractSymlink h target (preserveMetadata a) w with
    | (Some err, w) => (w, inl (written, Some (Wrapf "extract symbolic link, %w" [] err)))
    | (None, w) => (w, inr (written, dirMetadata))
    end
  else if bool_decide (flag = tar.TypeLink) then
    match extractLink h target (preserveMetadata a) w with
    | (Some err, w) => (w, inl (written, Some (Wrapf "extract link, %w" [] err)))
    | (None, w) => (w, inr (written, dirMetadata))
    end
  else if bool_decide (flag = tar.TypeXGlobalHeader) then (w, inr (written, dirMetadata))
  else
    (w, inl (written,
             Some (Errorf "extract %s, unknown type flag: %c" [target; String flag ""])))
  end end.

(** The loop of [Extract]. *)
Fixpoint Extract_loop (a : Archive) (dst : string) (items : list item)
    (stream_end : option error) (w : world) (written : Z)
    (dirMetadata : gmap string dirRecord) : world * (Z * option error) :=
  match items with
  | [] =>
      match stream_end with
      | None =>
          (if preserveMetadata a then flush dirMetadata w else w, (written, None))
      | Some err =>
          (w, (written, Some (Wrapf "tar reader <%v>, %w" [Error err] ErrArchiveNotReadable)))
      end
  | NilHeader :: items' => Extract_loop a dst items' stream_end w written dirMetadata
  | Entry h data read_err :: items' =>
      match extract_entry a dst h data read_err w written dirMetadata with
      | (w, inl result) => (w, result)
      | (w, inr (written, dirMetadata)) =>
          Extract_loop a dst items' stream_end w written dirMetadata
      end
  end.

(** [Extract]: the world it leaves and the pair the Go function returns. *)
Definition Extract (a : Archive) (dst : string) (r : tape) (w : world)
  : world * (Z * option error) :=
  Extract_loop a dst (t_items r) (t_end r) w 0%Z ∅.

End Extraction.

(** ** Vocabulary of the properties *)

(** The bytes written into files according to a log. *)
Fixpoint written_bytes (log : list event) : Z :=
  match log with
  | [] => 0%Z
  | EvWrite _ n :: log' => (Z.of_nat n + written_bytes log')%Z
  | _ :: log' => written_bytes log'
  end.

(** The payload bytes that went into an archive. *)
Definition archive_bytes (tw : tarWriter) : Z :=
  foldr (λ e acc, (Z.of_nat (length e.2) + acc)%Z) 0%Z tw.

(** The content of the regular file that [path] leads to. *)
Definition file_at (f : fs) (path : string) : option bytes :=
  match sys.stat_key f (sys.key path) with
  | inr (_, Some (_, BFile data)) => Some data
  | _ => None
  end.

(** The paths a call was made on. *)
Definition event_paths (e : event) : list string :=
  match e with
  | EvLstat p | EvRemove p | EvMkdirAll p _ | EvOpenFile p _ _
  | EvChmod p _ | EvChtimes p _ _ | EvChown p _ _ | EvLchown p _ _ => [p]
  | EvSymlink o n | EvLink o n => [o; n]
  | EvRead _ | EvWrite _ _ | EvClose _ => []
  end.

(** The two errors that [Extract] raises before an entry is dispatched on its
    type: the relative name and the parent directory of the entry. *)
Definition setup_error (e : error) : bool :=
  match e with
  | Wrapf format _ _ =>
      bool_decide (format = "relative name, %w")
      || bool_decide (format = "ensure directory <%s>, %w")
  | _ => false
  end.

(** [w'] is [w] after calls that added [evs] to the log. *)
Definition emits (w w' : world) (evs : list event) : Prop :=
  w_log w' = w_log w ++ evs.

(** All calls of [evs] are on paths of [allowed]. *)
Definition calls_on (allowed : list string) (evs : list event) : Prop :=
  Forall (λ e, event_paths e ⊆ allowed) evs.

(** From [w] to [w'] the calls were on paths of [allowed] and wrote [k]
    bytes into files. *)
Definition performs (allowed : list string) (w w' : world) (k : Z) : Prop :=
  ∃ evs, emits w w' evs ∧ calls_on allowed evs ∧ written_bytes evs = k.

(** [p] is [dst] or lies below it. *)
Definition under (dst p : string) : bool :=
  bool_decide (Clean p = Clean dst) || HasPrefix (Clean p) (Clean dst +:+ "/").

(** *** Directories and the order of their records *)

(** [l] without the leading elements [pre], when it starts with them. *)
Fixpoint strip_elems (pre l : list bytes) : option (list bytes) :=
  match pre, l with
  | [], _ => Some l
  | x :: pre', y :: l' => if bytes_eqb x y then strip_elems pre' l' else None
  | _ :: _, [] => None
  end.

(** [child] lies inside [parent], by the text of the paths: the cleaned
    [child] is the cleaned [parent] followed by one or more names. *)
Definition nested (child parent : string) : bool :=
  let c := to_bytes child in
  let p := to_bytes parent in
  eqb (rooted c) (rooted p)
  && match strip_elems (clean_elems p) (clean_elems c) with
     | Some (e :: rest) => negb (bool_decide (dotdot ∈ e :: rest))
     | _ => false
     end.

(** The calls that apply the record of [dir]. *)
Definition dir_events (GOOS : string) (dirMetadata : gmap string dirRecord)
    (dir : string) : list event :=
  let meta := default {| mode := 0%Z; at_ := 0%Z; mt := 0%Z; uid := 0%Z; gid := 0%Z |}
                (dirMetadata !! dir) in
  [EvChmod dir (mode meta); EvChtimes dir (at_ meta) (mt meta)]
  ++ (if not_windows GOOS then [EvChown dir (uid meta) (gid meta)] else []).

(** No path of the list is longer than one before it. *)
Definition longest_first (dirs : list string) : Prop :=
  StronglySorted (λ p q, (String.length q ≤ String.length p)%nat) dirs.

(** The inner loop of the sort as a function on the element at [i] and the
    elements after it: the longest moves to the front, every element that it
    passes takes its place. *)
Fixpoint bubble (x : string) (l : list string) : string * list string :=
  match l with
  | [] => (x, [])
  | y :: l' =>
      if (String.length x <? String.length y)%nat
      then let '(m, r) := bubble y l' in (m, x :: r)
      else let '(m, r) := bubble x l' in (m, y :: r)
  end.

(** The outer loop on the elements from [i] on. *)
Fixpoint exchange_sort (fuel : nat) (l : list string) : list string :=
  match fuel, l with
  | S fuel', x :: l' => let '(m, r) := bubble x l' in m :: exchange_sort fuel' r
  | _, _ => l
  end.

(** What a metadata call with the update [upd] keeps of every inode: all
    that [upd] does not touch. *)
Definition kept_by {A} (upd : meta → meta) (pr : inode → A) : Prop :=
  ∀ n, pr {| i_body := i_body n; i_meta := upd (i_meta n) |} = pr n.


(** *** Worlds that differ in metadata only *)

(** The same names, the same inode numbers and the same bodies. *)
Definition same_tree (f1 f2 : fs) : Prop :=
  names f1 = names f2
  ∧ next_ino f1 = next_ino f2
  ∧ ∀ i, sys.body_of f1 i = sys.body_of f2 i.

(** The same tree, the same coming content faults and the same calls so far;
    the metadata of the inodes and the coming metadata faults are free. *)
Definition same_content (w1 w2 : world) : Prop :=
  same_tree (w_fs w1) (w_fs w2) ∧ w_io w1 = w_io w2 ∧ w_log w1 = w_log w2.

(** Two outcomes with the same result in worlds of the same content. *)
Definition agree {R} (x y : R * world) : Prop :=
  x.1 = y.1 ∧ same_content x.2 y.2.

(** The world [w] with [faults] as the faults of the coming metadata calls. *)
Definition with_md (faults : list bool) (w : world) : world :=
  {| w_fs := w_fs w; w_log := w_log w; w_io := w_io w; w_md := faults |}.

(** ** Sample inputs *)

Module sample.

Definition stat : os.Stat_t :=
  {| os.Uid := 1000%Z; os.Gid := 1000%Z; os.Atim := 8%Z; os.Ctim := 9%Z |}.

Definition regular_info (name : string) (size : Z) : os.FileInfo :=
  {| os.Name := name; os.Size := size; os.Mode := 420%Z; os.ModTime := 7%Z;
     os.Sys := Some stat |}.

Definition symlink_info (name : string) : os.FileInfo :=
  {| os.Name := name; os.Size := 0%Z; os.Mode := Z.lor os.ModeSymlink 511%Z;
     os.ModTime := 7%Z; os.Sys := Some stat |}.

(** A node of a walk on which every call succeeds unless [copy] says that
    the copy of the content stops with an error after [data]. *)
Definition node (path : string) (fi : os.FileInfo) (data : string)
    (copy : option error) : visit :=
  {| v_path := path; v_info := Some fi; v_err := None; v_readlink := inr "target";
     v_writeheader := None; v_open := None; v_data := to_bytes data;
     v_copy := copy; v_close := None |}.

(** A directory [w] with a symbolic link [l] and a file [f]. *)
Definition link_and_file : source :=
  {| src_path := "w"; src_lstat := None;
     src_walk := [node "w/l" (symlink_info "l") "" None;
                  node "w/f" (regular_info "f" 3) "abc" None] |}.

(** A directory [w] with the files [f], read in full, and [g], whose read
    fails after four of its ten bytes. *)
Definition failing_copy : source :=
  {| src_path := "w"; src_lstat := None;
     src_walk := [node "w/f" (regular_info "f" 3) "abc" None;
                  node "w/g" (regular_info "g" 10) "0123"
                    (Some (ErrNew "read w/g: input/output error"))] |}.

Definition header (flag : ascii) (name : string) : tar.Header :=
  {| tar.Typeflag := flag; tar.Name := name; tar.Linkname := ""; tar.Size := 0%Z;
     tar.Mode := 420%Z; tar.Uid := 0%Z; tar.Gid := 0%Z; tar.ModTime := 5%Z;
     tar.AccessTime := 0%Z; tar.ChangeTime := 0%Z; tar.Format := tar.FormatUnknown |}.

Definition link_header (flag : ascii) (name linkname : string) : tar.Header :=
  {| tar.Typeflag := flag; tar.Name := name; tar.Linkname := linkname;
     tar.Size := 0%Z; tar.Mode := 511%Z; tar.Uid := 1000%Z; tar.Gid := 1000%Z;
     tar.ModTime := 5%Z; tar.AccessTime := 0%Z; tar.ChangeTime := 0%Z;
     tar.Format := tar.FormatUnknown |}.

Definition empty_fs : fs := {| names := ∅; inodes := ∅; next_ino := 0 |}.

(** A world with an empty tree in which no call is scheduled to fail. *)
Definition fresh : world :=
  {| w_fs := empty_fs; w_log := []; w_io := []; w_md := [] |}.

Definition stream (items : list item) : tape := {| t_items := items; t_end := None |}.

Definition plain : Archive := New "" false.
Definition preserving : Archive := NewWithPreserveMetadata "" false true.

End sample.

(** ** The platform helpers

    The two files of metadata helpers, one built for POSIX hosts and one for
    Windows (the build tag chooses).  They return nothing; here they return
    the world they leave. *)

Module unix.

Definition applyFileMetadata (target : string) (h : tar.Header) (w : world) : world :=
  let w := (sys.Chmod target (FileMode_of (tar.Mode h)) w).2 in
  let atime := tar.ModTime h in
  let atime := if negb (IsZero (tar.AccessTime h)) then tar.AccessTime h else atime in
  let w := (sys.Chtimes target atime (tar.ModTime h) w).2 in
  (sys.Chown target (tar.Uid h) (tar.Gid h) w).2.

Definition applySymlinkMetadata (target : string) (h : tar.Header) (w : world) : world :=
  (sys.Lchown target (tar.Uid h) (tar.Gid h) w).2.

Definition applyDirMetadata (target : string) (mode : os.FileMode) (atime mtime : Time)
    (uid gid : Z) (w : world) : world :=
  let w := (sys.Chmod target mode w).2 in
  let w := (sys.Chtimes target atime mtime w).2 in
  (sys.Chown target uid gid w).2.

End unix.

Module windows.

Definition applyFileMetadata (target : string) (h : tar.Header) (w : world) : world :=
  let w := (sys.Chmod target (FileMode_of (tar.Mode h)) w).2 in
  let atime := tar.ModTime h in
  let atime := if negb (IsZero (tar.AccessTime h)) then tar.AccessTime h else atime in
  (sys.Chtimes target atime (tar.ModTime h) w).2.

Definition applySymlinkMetadata (target : string) (h : tar.Header) (w : world) : world :=
  w.

Definition applyDirMetadata (target : string) (mode : os.FileMode) (atime mtime : Time)
    (uid gid : Z) (w : world) : world :=
  let w := (sys.Chmod target mode w).2 in
  (sys.Chtimes target atime mtime w).2.

End windows.

(** ** The Cloud Storage backend: listing

    [List] is the one operation of the backend that runs in the calling
    goroutine.  The object iterator of the storage client is given by what
    its [Next] yields: the attributes of the objects under the prefix, then
    [iterator.Done] ([None]) or an error. *)

Module common.

Record FileEntry := {
  Path : string;
  Size : Z;
  LastModified : Time;
}.

End common.

Module gcs.

(** [storage.ObjectAttrs], the fields [List] reads. *)
Record ObjectAttrs := {
  Name : string;
  Size : Z;
  Updated : Time;
}.

Record ObjectIterator := {
  it_objects : list ObjectAttrs;
  it_end : option error;
}.

(** [Backend], without the logger and the client. *)
Record Backend := {
  bucket : string;
  acl : string;
  encryption : string;
}.

(** The loop of [List]; [entries] is the slice built so far. *)
Fixpoint List_loop (b : Backend) (p : string) (objects : list ObjectAttrs)
    (done : option error) (entries : list common.FileEntry)
  : list common.FileEntry * option error :=
  match objects with
  | [] =>
      match done with
      | None => (entries, None)
      | Some err =>
          ([], Some (Errorf "failed to iterate objects present at path %s/%s with err: %v"
                       [bucket b; p; Error err]))
      end
  | attrs :: objects' =>
      List_loop b p objects' done
        (entries ++ [{| common.Path := Name attrs; common.Size := Size attrs;
                        common.LastModified := Updated attrs |}])
  end.

Definition List (b : Backend) (p : string) (it : ObjectIterator)
  : list common.FileEntry * option error :=
  List_loop b p (it_objects it) (it_end it) [].

End gcs.

(** ** More vocabulary *)

(** The calls that set metadata, and among them those that set the owner. *)
Definition is_metadata_call (e : event) : bool :=
  match e with
  | EvChmod _ _ | EvChtimes _ _ _ | EvChown _ _ _ | EvLchown _ _ _ => true
  | _ => false
  end.

Definition is_owner_call (e : event) : bool :=
  match e with
  | EvChown _ _ _ | EvLchown _ _ _ => true
  | _ => false
  end.

(** From [w] to [w'] only calls with the property [P] were made. *)
Definition only (P : event → Prop) (w w' : world) : Prop :=
  ∃ evs, emits w w' evs ∧ Forall P evs.

(** An item of the stream that has a header. *)
Definition has_header (i : item) : bool :=
  match i with
  | Entry _ _ _ => true
  | NilHeader => false
  end.

(** The payload bytes of the entries that [Extract] restores as regular
    files. *)
Fixpoint regular_payload (items : list item) : Z :=
  match items with
  | [] => 0%Z
  | Entry h data _ :: items' =>
      ((if is_regular_flag (tar.Typeflag h) then Z.of_nat (length data) else 0)
       + regular_payload items')%Z
  | NilHeader :: items' => regular_payload items'
  end.

(** More sample inputs. *)
Module sample2.

(** The world after [out/d/f] was restored with 17 bytes. *)
Definition restored : world :=
  (Extract "linux" [] sample.plain "out"
     (sample.stream [Entry (sample.header tar.TypeReg "d/f")
                       (to_bytes "a longer old text") None])
     sample.fresh).1.

(** The same, with the file [out/d/g] beside it. *)
Definition restored_two : world :=
  (Extract "linux" [] sample.plain "out"
     (sample.stream [Entry (sample.header tar.TypeReg "d/g") (to_bytes "second") None])
     restored).1.

Definition directory_info (name : string) : os.FileInfo :=
  {| os.Name := name; os.Size := 0%Z; os.Mode := Z.lor os.ModeDir 493%Z;
     os.ModTime := 7%Z; os.Sys := Some sample.stat |}.

(** A source whose [Lstat] fails. *)
Definition missing : source :=
  {| src_path := "gone"; src_lstat := Some (ErrNew "lstat gone: no such file or directory");
     src_walk := [] |}.

(** A directory [w] with one file [f] of three bytes. *)
Definition one_file : source :=
  {| src_path := "w"; src_lstat := None;
     src_walk := [sample.node "w" (directory_info "w") "" None;
                  sample.node "w/f" (sample.regular_info "f" 3) "abc" None] |}.

End sample2.

(** What an entry with the header [h] and the payload [data] leaves at
    [name] when it is restored: [before] is the tree once the parent
    directory of [name] is there, [after] the tree at the end of the turn.
    A directory entry leaves a directory; a regular entry leaves the payload
    at the start of the file that [name] led to; a symbolic-link entry
    leaves a link with the link name of the header; a hard-link entry leaves
    [name] and the link name of the header on one inode. *)
Definition restored_at (h : tar.Header) (data : bytes) (name : string)
    (before after : fs) : Prop :=
  let flag := tar.Typeflag h in
  if bool_decide (flag = tar.TypeDir) then sys.is_dir after (sys.key name) = true
  else if is_regular_flag flag then
    ∃ k i old, sys.resolve before sys.max_links (sys.key name) = Some k
               ∧ sys.find_inode after k
                 = Some (i, BFile (data ++ drop (length data) old))
  else if bool_decide (flag = tar.TypeSymlink) then
    ∃ i, sys.find_inode after (sys.key name) = Some (i, BSymlink (tar.Linkname h))
  else if bool_decide (flag = tar.TypeLink) then
    ∃ i b, sys.find_inode after (sys.key name) = Some (i, b)
           ∧ sys.find_inode after (sys.key (tar.Linkname h)) = Some (i, b)
  else True.

(** Entries with absolute names, and the world after the first of them was
    extracted with the destination [/out]. *)
Module sample3.

Definition motd : item :=
  Entry (sample.header tar.TypeReg "/etc/motd") (to_bytes "hi") None.

Definition with_motd : world :=
  (Extract "linux" [] sample.plain "/out" (sample.stream [motd]) sample.fresh).1.

End sample3.

(** * Properties *)

(** ** The path functions on the samples of the Go documentation and tests *)

Example Clean_samples :
  map Clean ["abc//def//ghi"; "abc/def/../../.."; "/../abc"; "";
             "abc/../../././../def"; "/abc/def/../.."; "../"; "//abc//";
             "abc/def/../../../ghi/jkl/../../../mno"]
  = ["abc/def/ghi"; ".."; "/abc"; "."; "../../def"; "/"; ".."; "/abc"; "../../mno"].
Proof. reflexivity. Qed.

Example Base_samples :
  map Base [""; "/"; "//"; "a/b"; "a/b/"; "/a"; "."; "a"]
  = ["."; "/"; "/"; "b"; "b"; "a"; "."; "a"].
Proof. reflexivity. Qed.

Example Dir_samples :
  map Dir [""; "/"; "a"; "a/b"; "a/b/"; "/a"; "/a/b/../c"; "x/"]
  = ["."; "/"; "."; "a"; "a/b"; "/"; "/a"; "x"].
Proof. reflexivity. Qed.

Example Rel_samples :
  map (λ '(b, t), Rel b t)
      [("a/b", "a/b"); ("a/b/.", "a/b"); ("ab/cd", "ab/cde"); ("a/b", "a/b/c/d");
       ("a/b", "a/b/../c"); ("a/b/c", "a/c/d"); ("a/b", "c/d"); ("a/b/c/d", "a/b");
       ("/a/b/c/d/", "/a/b/"); ("/../../a/b", "/../../a/b/c/d"); (".", "a/b");
       (".", ".."); ("..", "."); ("..", "a"); ("a", "/a");
       ("/a", "a"); ("/", "/a"); ("/a", "/")]
  = [Some "."; Some "."; Some "../cde"; Some "c/d";
     Some "../c"; Some "../../c/d"; Some "../../c/d"; Some "../..";
     Some "../.."; Some "c/d"; Some "a/b";
     Some ".."; None; None; None;
     None; Some "a"; Some ".."].
Proof. reflexivity. Qed.

Example Join_samples :
  map (λ '(a, b), Join a b)
      [("a", "b"); ("a", ""); ("", "b"); ("", ""); ("/", "a"); ("a/", "/b");
       ("..", "x"); (".", "x"); ("out", "../x")]
  = ["a/b"; "a"; "b"; ""; "/a"; "a/b"; "../x"; "x"; "x"].
Proof. reflexivity. Qed.

(** ** What the calls of the operating system leave in the log *)

Lemma next_io_frame w :
  w_fs (sys.next_io w).2 = w_fs w ∧ w_log (sys.next_io w).2 = w_log w
  ∧ w_md (sys.next_io w).2 = w_md w.
Proof. unfold sys.next_io. destruct (w_io w); done. Qed.

Lemma next_md_frame w :
  w_fs (sys.next_md w).2 = w_fs w ∧ w_log (sys.next_md w).2 = w_log w
  ∧ w_io (sys.next_md w).2 = w_io w.
Proof. unfold sys.next_md. destruct (w_md w); done. Qed.

(** Splits the world after [next_io] or [next_md] off and brings its frame
    facts into the context. *)
Ltac step_io :=
  match goal with
  | |- context [sys.next_io ?w] =>
      let F := fresh "F" in
      pose proof (next_io_frame w) as F;
      destruct (sys.next_io w) as [? ?]; simpl in F; destruct F as (? & ? & ?)
  | |- context [sys.next_md ?w] =>
      let F := fresh "F" in
      pose proof (next_md_frame w) as F;
      destruct (sys.next_md w) as [? ?]; simpl in F; destruct F as (? & ? & ?)
  end.

Ltac log_solve := repeat (step_io || case_match); simpl in *; subst; simpl; congruence.

Lemma MkdirAll_log path perm w :
  w_log (sys.MkdirAll path perm w).2 = w_log w ++ [EvMkdirAll path perm].
Proof. unfold sys.MkdirAll. log_solve. Qed.

Lemma Lstat_log path w :
  w_log (sys.Lstat path w).2 = w_log w ++ [EvLstat path]
  ∧ w_fs (sys.Lstat path w).2 = w_fs w.
Proof. unfold sys.Lstat. split; log_solve. Qed.

Lemma Remove_log path w :
  w_log (sys.Remove path w).2 = w_log w ++ [EvRemove path].
Proof. unfold sys.Remove. log_solve. Qed.

Lemma Symlink_log o n w :
  w_log (sys.Symlink o n w).2 = w_log w ++ [EvSymlink o n].
Proof. unfold sys.Symlink. log_solve. Qed.

Lemma Link_log o n w :
  w_log (sys.Link o n w).2 = w_log w ++ [EvLink o n].
Proof. unfold sys.Link. log_solve. Qed.

Lemma OpenFile_log path flag perm w :
  w_log (sys.OpenFile path flag perm w).2 = w_log w ++ [EvOpenFile path flag perm].
Proof. unfold sys.OpenFile. log_solve. Qed.

Lemma Close_log i w :
  w_log (sys.Close i w).2 = w_log w ++ [EvClose i].
Proof. unfold sys.Close. log_solve. Qed.

Lemma update_meta_log follow upd op path w :
  w_log (sys.update_meta follow upd op path w).2 = w_log w.
Proof. unfold sys.update_meta. log_solve. Qed.

Lemma Chmod_log path mode w :
  w_log (sys.Chmod path mode w).2 = w_log w ++ [EvChmod path mode].
Proof. unfold sys.Chmod. by rewrite update_meta_log. Qed.

Lemma Chtimes_log path a m w :
  w_log (sys.Chtimes path a m w).2 = w_log w ++ [EvChtimes path a m].
Proof. unfold sys.Chtimes. by rewrite update_meta_log. Qed.

Lemma Chown_log path u g w :
  w_log (sys.Chown path u g w).2 = w_log w ++ [EvChown path u g].
Proof. unfold sys.Chown. by rewrite update_meta_log. Qed.

Lemma Lchown_log path u g w :
  w_log (sys.Lchown path u g w).2 = w_log w ++ [EvLchown path u g].
Proof. unfold sys.Lchown. by rewrite update_meta_log. Qed.

(** [io.Copy] reads the payload and writes what it reports as written. *)
Lemma Copy_log i data read_err w :
  ∃ evs, w_log (sys.Copy i data read_err w).2 = w_log w ++ EvRead (length data) :: evs
         ∧ written_bytes evs = (sys.Copy i data read_err w).1.1
         ∧ Forall (λ e, event_paths e = []) evs.
Proof.
  unfold sys.Copy. destruct data as [|c data].
  - exists []. simpl. done.
  - step_io. case_match; simpl.
    + exists [EvWrite i (length (take n (c :: data)))]. simpl.
      rewrite H0, <- app_assoc. simpl. split; [done|].
      split; [lia | by repeat constructor].
    + exists [EvWrite i (S (length data))].
      rewrite H0, <- app_assoc. simpl. split; [done|].
      split; [lia | by repeat constructor].
Qed.

(** ** The path normalizer *)

(** C4. With root [a/b] and path [a/x], whose directory [a] is the parent of
    the root, [filepath.Rel] answers [..]: the loop of [relative] only strips
    [../], so the bare [..] stays and the archive name is [../x].  It begins
    with [../] and has an upward-traversal segment. *)
Theorem relative_keeps_bare_updir :
  Rel "a/b" (Dir "a/x") = Some ".."
  ∧ relative "a/b" "a/x" = inr "../x"
  ∧ entry_name "a/b" false "a/x" = inr "../x"
  ∧ HasPrefix "../x" "../" = true.
Proof. repeat split; reflexivity. Qed.

(** ** Create *)

(** C2. Create with [preserveMetadata] set, on a directory with a symbolic
    link and a regular file: the header of the file is in the PAX format, the
    header of the link is the fresh one of [createSymlinkHeader], whose
    format was never set. *)
Theorem symlink_header_format_unset :
  map (λ e, (tar.Typeflag e.1, tar.Format e.1))
      (Create "linux" (NewWithPreserveMetadata "w" false true)
         [sample.link_and_file] false).1
  = [(tar.TypeSymlink, tar.FormatUnknown); (tar.TypeReg, tar.FormatPAX)].
Proof. reflexivity. Qed.

(** C8. Create on a directory whose second file fails while it is copied:
    seven payload bytes went into the archive, three of the first file and
    four of the second, and Create returns three with the error. *)
Theorem Create_drops_partial_copy :
  let r := Create "linux" (New "w" false) [sample.failing_copy] false in
  archive_bytes r.1 = 7%Z
  ∧ r.2.1 = 3%Z
  ∧ r.2.2 = Some (Wrapf "walk, add all files to archive, %w" []
                   (Wrapf "write file to archive, %w" []
                      (Wrapf "copy the file <%s> data to the tarball, %w" ["w/g"]
                         (ErrNew "read w/g: input/output error")))).
Proof. repeat split; reflexivity. Qed.

(** ** Links: the removal step *)

Lemma emits_trans w w1 w2 e1 e2 :
  emits w w1 e1 → emits w1 w2 e2 → emits w w2 (e1 ++ e2).
Proof. unfold emits. intros -> ->. by rewrite app_assoc. Qed.

Lemma written_bytes_app l1 l2 :
  written_bytes (l1 ++ l2) = (written_bytes l1 + written_bytes l2)%Z.
Proof. induction l1 as [|[] l1 IH]; simpl; lia. Qed.

Lemma Lstat_absent path w :
  sys.lookup_key (w_fs w) (sys.key path) = None → (sys.Lstat path w).1 ≠ None.
Proof.
  intros Hno. unfold sys.Lstat. step_io. simpl in *.
  case_match; [done|]. replace (w_fs w0) with (w_fs w). by rewrite Hno.
Qed.

Lemma unlink_log path w :
  emits w (unlink path w).2
    (EvLstat path :: match (sys.Lstat path w).1 with
                     | None => [EvRemove path]
                     | Some _ => []
                     end).
Proof.
  unfold unlink, emits.
  destruct (Lstat_log path w) as [Hl _].
  destruct (sys.Lstat path w) as [[e|] w1]; simpl in *; [done|].
  rewrite Remove_log, Hl, <- app_assoc. done.
Qed.

Lemma unlink_lstat_failed path w :
  (sys.Lstat path w).1 ≠ None →
  (unlink path w).1 = None ∧ w_fs (unlink path w).2 = w_fs w.
Proof.
  intros Hf. unfold unlink.
  destruct (Lstat_log path w) as [_ Hfs].
  destruct (sys.Lstat path w) as [[e|] w1]; simpl in *; done.
Qed.

(** C10. When nothing exists at the destination of a link, [os.Lstat] fails
    and [unlink] is a no-op: it returns no error, leaves the tree as it is
    and calls nothing but [Lstat] (no [Remove]); so neither [extractSymlink]
    nor [extractLink] can fail with the error of the removal step. *)
Theorem unlink_absent_noop (GOOS : string) (target : string) (w : world) :
  sys.lookup_key (w_fs w) (sys.key target) = None →
  (sys.Lstat target w).1 ≠ None
  ∧ (unlink target w).1 = None
  ∧ w_fs (unlink target w).2 = w_fs w
  ∧ emits w (unlink target w).2 [EvLstat target]
  ∧ (∀ h preserve e format args,
       (extractSymlink GOOS h target preserve w).1 = Some (Wrapf format args e) →
       format = "create symbolic link <%s>, %w")
  ∧ (∀ h preserve e format args,
       (extractLink GOOS h target preserve w).1 = Some (Wrapf format args e) →
       format = "create hard link <%s>, %w").
Proof.
  intros Hno. pose proof (Lstat_absent _ _ Hno) as Hl.
  destruct (unlink_lstat_failed _ _ Hl) as [Hu Hfs].
  pose proof (unlink_log target w) as Hlog.
  split; [done|]. split; [done|]. split; [done|].
  split; [by destruct (sys.Lstat target w).1|].
  split; intros h preserve e format args.
  - unfold extractSymlink. destruct (unlink target w) as [[u|] w1]; [done|].
    repeat case_match; simpl; congruence.
  - unfold extractLink. destruct (unlink target w) as [[u|] w1]; [done|].
    repeat case_match; simpl; congruence.
Qed.

Lemma unlink_absent_noop_witness :
  (unlink "out/l" sample.fresh).1 = None
  ∧ w_log (unlink "out/l" sample.fresh).2 = [EvLstat "out/l"].
Proof.
  destruct (unlink_absent_noop "linux" "out/l" sample.fresh) as (_ & Hu & _ & Hl & _).
  - reflexivity.
  - split; [exact Hu | exact Hl].
Defined.

(** ** Metadata calls leave names and bodies alone *)

Lemma alter_kept {A} (pr : inode → A) (m : gmap nat inode) i upd j :
  kept_by upd pr →
  pr <$> alter (λ n, {| i_body := i_body n; i_meta := upd (i_meta n) |}) i m !! j
  = pr <$> m !! j.
Proof.
  intros Hk. destruct (decide (i = j)) as [->|Hne].
  - rewrite lookup_alter_eq. destruct (m !! j); simpl; [by rewrite Hk|done].
  - by rewrite lookup_alter_ne.
Qed.

Ltac frame_done := repeat split; try (intros ?); simpl; congruence.

Lemma update_meta_keeps {A} (pr : inode → A) follow upd op path w :
  kept_by upd pr →
  let w' := (sys.update_meta follow upd op path w).2 in
  names (w_fs w') = names (w_fs w)
  ∧ next_ino (w_fs w') = next_ino (w_fs w)
  ∧ w_io w' = w_io w
  ∧ ∀ i, pr <$> inodes (w_fs w') !! i = pr <$> inodes (w_fs w) !! i.
Proof.
  intros Hkept. unfold sys.update_meta. step_io.
  destruct b; simpl; [frame_done|].
  destruct (if follow then _ else _) as [e|[k [[i b]|]]]; simpl; try frame_done.
  repeat split; try congruence. intros j.
  rewrite (alter_kept pr _ i upd j Hkept). congruence.
Qed.

(** ** Symbolic links *)

Lemma Symlink_ok o n w w' :
  sys.Symlink o n w = (None, w') →
  names (w_fs w) !! sys.key n = None
  ∧ w_fs w' = sys.add_inode (sys.key n)
                {| i_body := BSymlink o; i_meta := sys.new_meta 511 |} (w_fs w)
  ∧ emits w w' [EvSymlink o n].
Proof.
  unfold sys.Symlink, emits. step_io. simpl in *.
  repeat case_match; intros [= <-]; simpl.
  repeat split; congruence.
Qed.


(** ** The calls of one entry *)


Lemma performs_trans A w w1 w2 k1 k2 :
  performs A w w1 k1 → performs A w1 w2 k2 → performs A w w2 (k1 + k2).
Proof.
  intros (e1 & H1 & C1 & B1) (e2 & H2 & C2 & B2). exists (e1 ++ e2).
  split; [by eapply emits_trans|]. split; [by apply Forall_app|].
  rewrite written_bytes_app. lia.
Qed.

Lemma performs_one A w w' e :
  w_log w' = w_log w ++ [e] → event_paths e ⊆ A → written_bytes [e] = 0%Z →
  performs A w w' 0.
Proof. intros Hl Hp Hb. exists [e]. split; [done|]. split; [by constructor|done]. Qed.

Lemma sub0 (A : list string) : [] ⊆ A.
Proof. intros x Hx. by apply elem_of_nil in Hx. Qed.

Lemma sub1 (A : list string) p : p ∈ A → [p] ⊆ A.
Proof. intros Hp x Hx. apply list_elem_of_singleton in Hx. by subst. Qed.

Lemma sub2 (A : list string) p q : p ∈ A → q ∈ A → [p; q] ⊆ A.
Proof.
  intros Hp Hq x Hx. apply elem_of_cons in Hx as [->|Hx]; [done|].
  apply list_elem_of_singleton in Hx. by subst.
Qed.

Section Performs.

Variable A : list string.

Lemma performs_MkdirAll path perm w :
  path ∈ A → performs A w (sys.MkdirAll path perm w).2 0.
Proof.
  intros. eapply performs_one; [apply MkdirAll_log | by apply sub1 | done].
Qed.

Lemma performs_Chmod path mode w :
  path ∈ A → performs A w (sys.Chmod path mode w).2 0.
Proof. intros. eapply performs_one; [apply Chmod_log | by apply sub1 | done]. Qed.

Lemma performs_Chtimes path a m w :
  path ∈ A → performs A w (sys.Chtimes path a m w).2 0.
Proof. intros. eapply performs_one; [apply Chtimes_log | by apply sub1 | done]. Qed.

Lemma performs_Chown path u g w :
  path ∈ A → performs A w (sys.Chown path u g w).2 0.
Proof. intros. eapply performs_one; [apply Chown_log | by apply sub1 | done]. Qed.

Lemma performs_Lchown path u g w :
  path ∈ A → performs A w (sys.Lchown path u g w).2 0.
Proof. intros. eapply performs_one; [apply Lchown_log | by apply sub1 | done]. Qed.

Lemma performs_Symlink o n w :
  o ∈ A → n ∈ A → performs A w (sys.Symlink o n w).2 0.
Proof. intros. eapply performs_one; [apply Symlink_log | by apply sub2 | done]. Qed.

Lemma performs_Link o n w :
  o ∈ A → n ∈ A → performs A w (sys.Link o n w).2 0.
Proof. intros. eapply performs_one; [apply Link_log | by apply sub2 | done]. Qed.

Lemma performs_OpenFile path flag perm w :
  path ∈ A → performs A w (sys.OpenFile path flag perm w).2 0.
Proof. intros. eapply performs_one; [apply OpenFile_log | by apply sub1 | done]. Qed.

Lemma performs_Close i w : performs A w (sys.Close i w).2 0.
Proof. eapply performs_one; [apply Close_log | apply sub0 | done]. Qed.

Lemma performs_then w w1 w2 k :
  performs A w w1 k → performs A w1 w2 0 → performs A w w2 k.
Proof.
  intros H1 H2. replace k with (k + 0)%Z by lia. by eapply performs_trans.
Qed.

Lemma performs_unlink path w :
  path ∈ A → performs A w (unlink path w).2 0.
Proof.
  intros Hin. exists (EvLstat path :: match (sys.Lstat path w).1 with
                                      | None => [EvRemove path] | Some _ => [] end).
  split; [apply unlink_log|]. unfold calls_on.
  destruct (sys.Lstat path w).1; simpl; split; repeat constructor; try done;
    by apply sub1.
Qed.

Lemma performs_restore_metadata GOOS h target w :
  target ∈ A → performs A w (restore_metadata GOOS h target w) 0.
Proof.
  intros Hin. unfold restore_metadata.
  destruct (not_windows GOOS).
  - eapply performs_then; [eapply performs_then|].
    + by apply performs_Chmod.
    + by apply performs_Chtimes.
    + by apply performs_Chown.
  - eapply performs_then; [by apply performs_Chmod | by apply performs_Chtimes].
Qed.

Lemma performs_extractSymlink GOOS h target preserve w :
  target ∈ A → tar.Linkname h ∈ A →
  performs A w (extractSymlink GOOS h target preserve w).2 0.
Proof.
  intros Ht Hl. unfold extractSymlink.
  pose proof (performs_unlink target w Ht) as Hu.
  destruct (unlink target w) as [[e|] w1]; [done|]. simpl in Hu.
  pose proof (performs_Symlink (tar.Linkname h) target w1 Hl Ht) as Hs.
  destruct (sys.Symlink (tar.Linkname h) target w1) as [[e|] w2]; simpl in Hs |- *.
  { by eapply performs_then. }
  destruct (preserve && not_windows GOOS); simpl.
  - eapply performs_then; [by eapply performs_then|]. by apply performs_Lchown.
  - by eapply performs_then.
Qed.

Lemma performs_extractLink GOOS h target preserve w :
  target ∈ A → tar.Linkname h ∈ A →
  performs A w (extractLink GOOS h target preserve w).2 0.
Proof.
  intros Ht Hl. unfold extractLink.
  pose proof (performs_unlink target w Ht) as Hu.
  destruct (unlink target w) as [[e|] w1]; [done|]. simpl in Hu.
  pose proof (performs_Link (tar.Linkname h) target w1 Hl Ht) as Hs.
  destruct (sys.Link (tar.Linkname h) target w1) as [[e|] w2]; simpl in Hs |- *.
  { by eapply performs_then. }
  destruct preserve; simpl.
  - eapply performs_then; [by eapply performs_then|].
    by apply performs_restore_metadata.
  - by eapply performs_then.
Qed.

Lemma performs_Copy i data read_err w :
  performs A w (sys.Copy i data read_err w).2 (sys.Copy i data read_err w).1.1.
Proof.
  destruct (Copy_log i data read_err w) as (evs & Hl & Hb & Hp).
  exists (EvRead (length data) :: evs). split; [done|]. split; [|done].
  constructor; [apply sub0|]. eapply Forall_impl; [exact Hp|].
  intros e ->. apply sub0.
Qed.

Lemma performs_extractRegular GOOS h data read_err target preserve w :
  target ∈ A →
  performs A w (extractRegular GOOS h data read_err target preserve w).2
    (extractRegular GOOS h data read_err target preserve w).1.1.
Proof.
  intros Ht. unfold extractRegular.
  pose proof (performs_OpenFile target (Z.lor sys.O_CREATE sys.O_RDWR)
                (FileMode_of (tar.Mode h)) w Ht) as Ho.
  destruct (sys.OpenFile _ _ _ w) as [[e|f] w1]; simpl in Ho; [done|].
  pose proof (performs_Copy f data read_err w1) as Hc.
  destruct (sys.Copy f data read_err w1) as [[n err] w2]. simpl in Hc.
  assert (performs A w w2 n) as H2.
  { replace n with (0 + n)%Z by lia. by eapply performs_trans. }
  destruct err as [e|].
  - pose proof (performs_Close f w2) as Hcl.
    destruct (sys.Close f w2) as [c w3]. simpl in *. by eapply performs_then.
  - set (w3 := if preserve then _ else _).
    assert (performs A w w3 n) as H3.
    { subst w3. destruct preserve; [|done].
      eapply performs_then; [exact H2|]. by apply performs_restore_metadata. }
    pose proof (performs_Close f w3) as Hcl.
    destruct (sys.Close f w3) as [c w4]. simpl in *. by eapply performs_then.
Qed.

End Performs.

(** One turn of the loop of [Extract]: the calls are on the target of the
    entry, its parent directory and the link name of the header; and, unless
    the turn ends with one of the two early errors, the counter it reports
    is the counter it was given, moved on by the bytes written to files. *)
Lemma extract_entry_performs GOOS a dst h data read_err w written dirMetadata target :
  entry_target dst h = inr target →
  let r := extract_entry GOOS a dst h data read_err w written dirMetadata in
  ∃ k, performs [target; Dir target; tar.Linkname h] w r.1 k
       ∧ match r.2 with
         | inl (n, err) =>
             (∀ e, err = Some e → setup_error e = false) →
             (n = written ∧ k = 0%Z) ∨ n = add64 written k
         | inr (n, _) => (n = written ∧ k = 0%Z) ∨ n = add64 written k
         end.
Proof.
  intros Htarget. unfold extract_entry. rewrite Htarget.
  set (A := [target; Dir target; tar.Linkname h]).
  assert (target ∈ A) as Ht by (subst A; repeat constructor).
  assert (Dir target ∈ A) as Hd by (subst A; repeat constructor).
  assert (tar.Linkname h ∈ A) as Hl by (subst A; repeat constructor).
  pose proof (performs_MkdirAll A (Dir target) defaultDirPermission w Hd) as Hmk.
  destruct (sys.MkdirAll (Dir target) defaultDirPermission w) as [[e|] w1]; simpl in Hmk.
  { exists 0%Z. split; [done|]. simpl. intros Hse. by specialize (Hse _ eq_refl). }
  destruct (bool_decide (tar.Typeflag h = tar.TypeDir)).
  { destruct (preserveMetadata a).
    - pose proof (performs_MkdirAll A target defaultDirPermission w1 Ht) as H2.
      destruct (sys.MkdirAll target defaultDirPermission w1) as [[e|] w2];
        simpl in H2 |- *; exists 0%Z; (split; [by eapply performs_then|]); auto.
    - unfold extractDir.
      pose proof (performs_MkdirAll A target (FileMode_of (tar.Mode h)) w1 Ht) as H2.
      destruct (sys.MkdirAll target (FileMode_of (tar.Mode h)) w1) as [[e|] w2];
        simpl in H2 |- *; exists 0%Z; (split; [by eapply performs_then|]); auto. }
  destruct (is_regular_flag (tar.Typeflag h)).
  { pose proof (performs_extractRegular A GOOS h data read_err target
                  (preserveMetadata a) w1 Ht) as H2.
    destruct (extractRegular GOOS h data read_err target (preserveMetadata a) w1)
      as [[n err] w2]. simpl in H2.
    exists n. split.
    - replace n with (0 + n)%Z by lia.
      destruct err; simpl; by eapply performs_trans.
    - destruct err; simpl; auto. }
  destruct (bool_decide (tar.Typeflag h = tar.TypeSymlink)).
  { pose proof (performs_extractSymlink A GOOS h target (preserveMetadata a) w1 Ht Hl)
      as H2.
    destruct (extractSymlink GOOS h target (preserveMetadata a) w1) as [[e|] w2];
      simpl in H2 |- *; exists 0%Z; (split; [by eapply performs_then|]); auto. }
  destruct (bool_decide (tar.Typeflag h = tar.TypeLink)).
  { pose proof (performs_extractLink A GOOS h target (preserveMetadata a) w1 Ht Hl)
      as H2.
    destruct (extractLink GOOS h target (preserveMetadata a) w1) as [[e|] w2];
      simpl in H2 |- *; exists 0%Z; (split; [by eapply performs_then|]); auto. }
  destruct (bool_decide (tar.Typeflag h = tar.TypeXGlobalHeader));
    simpl; exists 0%Z; (split; [done|]); auto.
Qed.

(** ** The byte count of Extract *)

Lemma add64_wrap64 B k : add64 (wrap64 B) k = wrap64 (B + k).
Proof.
  unfold add64, wrap64. f_equal.
  replace ((B + 2 ^ 63) mod 2 ^ 64 - 2 ^ 63 + k + 2 ^ 63)%Z
    with ((B + 2 ^ 63) mod 2 ^ 64 + k)%Z by lia.
  rewrite Zplus_mod_idemp_l. f_equal. lia.
Qed.








(** ** Regular files *)

(** C5. A file restored over a longer one.  The first archive leaves
    [out/d/f] with 17 bytes; the second has 3 bytes for it.  [extractRegular]
    opens the file with [O_CREATE|O_RDWR], without [O_TRUNC], so the bytes of
    the old content after the third stay. *)
Theorem extractRegular_keeps_old_tail :
  let old := (Extract "linux" [] sample.plain "out"
                (sample.stream [Entry (sample.header tar.TypeReg "d/f")
                                  (to_bytes "a longer old text") None])
                sample.fresh).1 in
  let r := Extract "linux" [] sample.plain "out"
             (sample.stream [Entry (sample.header tar.TypeReg "d/f") (to_bytes "new") None])
             old in
  file_at (w_fs old) "out/d/f" = Some (to_bytes "a longer old text")
  ∧ r.2 = (3%Z, None)
  ∧ file_at (w_fs r.1) "out/d/f" = Some (to_bytes "newonger old text")
  ∧ Z.land (Z.lor sys.O_CREATE sys.O_RDWR) sys.O_TRUNC = 0%Z.
Proof. vm_compute. done. Qed.

(** ** The sort of the pending directories *)

Lemma bubble_length x l : length (bubble x l).2 = length l.
Proof.
  revert x. induction l as [|y l IH]; intros x; simpl; [done|].
  destruct (String.length x <? String.length y)%nat.
  - specialize (IH y). destruct (bubble y l). simpl in *. by rewrite IH.
  - specialize (IH x). destruct (bubble x l). simpl in *. by rewrite IH.
Qed.

Lemma bubble_perm x l : (bubble x l).1 :: (bubble x l).2 ≡ₚ x :: l.
Proof.
  revert x. induction l as [|y l IH]; intros x; simpl; [done|].
  destruct (String.length x <? String.length y)%nat.
  - specialize (IH y). destruct (bubble y l) as [m r]. simpl in *.
    etrans; [apply Permutation_swap|]. by constructor.
  - specialize (IH x). destruct (bubble x l) as [m r]. simpl in *.
    etrans; [apply Permutation_swap|].
    etrans; [apply perm_skip, IH|]. apply Permutation_swap.
Qed.

Lemma bubble_max x l :
  (String.length x ≤ String.length (bubble x l).1)%nat
  ∧ Forall (λ y, (String.length y ≤ String.length (bubble x l).1)%nat) (bubble x l).2.
Proof.
  revert x. induction l as [|y l IH]; intros x; simpl; [by split|].
  destruct (String.length x <? String.length y)%nat eqn:Hlt.
  - apply Nat.ltb_lt in Hlt. specialize (IH y).
    destruct (bubble y l) as [m r]. simpl in *. destruct IH as [Hy Hr].
    split; [lia|]. constructor; [lia|done].
  - apply Nat.ltb_ge in Hlt. specialize (IH x).
    destruct (bubble x l) as [m r]. simpl in *. destruct IH as [Hx Hr].
    split; [done|]. constructor; [lia|done].
Qed.

Lemma exchange_sort_perm fuel l : exchange_sort fuel l ≡ₚ l.
Proof.
  revert l. induction fuel as [|fuel IH]; intros [|x l]; simpl; try done.
  pose proof (bubble_perm x l) as Hp. destruct (bubble x l) as [m r]. simpl in *.
  by rewrite IH.
Qed.

Lemma exchange_sort_sorted fuel l :
  length l ≤ fuel → longest_first (exchange_sort fuel l).
Proof.
  unfold longest_first.
  revert l. induction fuel as [|fuel IH]; intros [|x l] Hlen; simpl in *;
    try (by constructor); try lia.
  pose proof (bubble_max x l) as [_ Hmax].
  pose proof (bubble_length x l) as Hl.
  destruct (bubble x l) as [m r]. simpl in *.
  constructor; [apply IH; lia|].
  eapply Forall_forall. intros y Hy.
  rewrite exchange_sort_perm in Hy. by eapply Forall_forall in Hmax.
Qed.

(** The loop on indices does what [bubble] does on the elements. *)
Lemma sort_inner_bubble todo :
  ∀ fuel pre x passed,
    length todo ≤ fuel →
    sort_inner fuel (length pre) (S (length pre + length passed))
      (pre ++ x :: passed ++ todo)
    = pre ++ (bubble x todo).1 :: passed ++ (bubble x todo).2.
Proof.
  induction todo as [|y todo IH]; intros fuel pre x passed Hfuel.
  - simpl. destruct fuel as [|fuel]; [done|]. simpl.
    rewrite app_nil_r. rewrite length_app. simpl.
    replace (S (length pre + length passed) <? length pre + S (length passed))%nat
      with false; [done|]. symmetry. apply Nat.ltb_ge. lia.
  - destruct fuel as [|fuel]; [simpl in Hfuel; lia|].
    simpl in Hfuel. cbn [sort_inner].
    replace (S (length pre + length passed) <? length (pre ++ x :: passed ++ y :: todo))%nat
      with true
      by (symmetry; apply Nat.ltb_lt; rewrite !length_app; simpl;
          rewrite length_app; simpl; lia).
    assert ((pre ++ x :: passed ++ y :: todo) !!! length pre = x) as Hi
      by (by apply list_lookup_total_middle).
    assert ((pre ++ x :: passed ++ y :: todo) !!! S (length pre + length passed) = y) as Hj.
    { replace (pre ++ x :: passed ++ y :: todo) with ((pre ++ x :: passed) ++ y :: todo)
        by (by rewrite <- app_assoc).
      apply list_lookup_total_middle. rewrite length_app. simpl. lia. }
    rewrite Hi, Hj. simpl.
    destruct (String.length x <? String.length y)%nat.
    + assert (swap (length pre) (S (length pre + length passed))
                (pre ++ x :: passed ++ y :: todo)
              = pre ++ y :: (passed ++ [x]) ++ todo) as ->.
      { unfold swap. rewrite Hi, Hj.
        replace (pre ++ x :: passed ++ y :: todo) with ((pre ++ x :: passed) ++ y :: todo)
          by (by rewrite <- app_assoc).
        replace (S (length pre + length passed)) with (length (pre ++ x :: passed) + 0)
          by (rewrite length_app; simpl; lia).
        rewrite insert_app_r. simpl.
        rewrite <- app_assoc. simpl.
        replace (length pre) with (length pre + 0) at 1 by lia.
        rewrite insert_app_r. simpl. by rewrite <- app_assoc. }
      specialize (IH fuel pre y (passed ++ [x])).
      rewrite length_app in IH. simpl in IH.
      replace (S (length pre + (length passed + 1))) with (S (S (length pre + length passed)))
        in IH by lia.
      rewrite IH by lia.
      destruct (bubble y todo) as [m r]. simpl. by rewrite <- app_assoc.
    + replace (pre ++ x :: passed ++ y :: todo) with (pre ++ x :: (passed ++ [y]) ++ todo)
        by (by rewrite <- app_assoc).
      specialize (IH fuel pre x (passed ++ [y])).
      rewrite length_app in IH. simpl in IH.
      replace (S (length pre + (length passed + 1))) with (S (S (length pre + length passed)))
        in IH by lia.
      rewrite IH by lia.
      destruct (bubble x todo) as [m r]. simpl. by rewrite <- app_assoc.
Qed.

Lemma sort_outer_exchange fuel :
  ∀ pre l, sort_outer fuel (length pre) (pre ++ l) = pre ++ exchange_sort fuel l.
Proof.
  induction fuel as [|fuel IH]; intros pre l; simpl; [by destruct l|].
  destruct l as [|x l].
  - rewrite app_nil_r. by rewrite Nat.ltb_irrefl.
  - replace (length pre <? length (pre ++ x :: l))%nat with true
      by (symmetry; apply Nat.ltb_lt; rewrite length_app; simpl; lia).
    pose proof (sort_inner_bubble l (length (pre ++ x :: l)) pre x []) as Hin.
    simpl in Hin. rewrite Nat.add_0_r in Hin.
    rewrite Hin by (rewrite length_app; simpl; lia).
    destruct (bubble x l) as [m r]. simpl.
    specialize (IH (pre ++ [m]) r). rewrite length_app in IH. simpl in IH.
    replace (length pre + 1) with (S (length pre)) in IH by lia.
    rewrite <- app_assoc in IH. simpl in IH. rewrite IH.
    by rewrite <- app_assoc.
Qed.

Lemma sort_dirs_exchange dirs : sort_dirs dirs = exchange_sort (length dirs) dirs.
Proof. apply (sort_outer_exchange (length dirs) [] dirs). Qed.

Lemma sort_dirs_perm dirs : sort_dirs dirs ≡ₚ dirs.
Proof. rewrite sort_dirs_exchange. apply exchange_sort_perm. Qed.

Lemma sort_dirs_sorted dirs : longest_first (sort_dirs dirs).
Proof. rewrite sort_dirs_exchange. by apply exchange_sort_sorted. Qed.

Lemma sorted_lookup {A} (R : A → A → Prop) (l : list A) i j p q :
  StronglySorted R l → l !! i = Some p → l !! j = Some q → i < j → R p q.
Proof.
  intros Hs. revert i j. induction Hs as [|x l Hs IH Hx]; intros i j Hi Hj Hlt.
  - done.
  - destruct j as [|j]; [lia|]. destruct i as [|i]; simpl in *.
    + injection Hi as ->. eapply Forall_forall in Hx; [exact Hx|].
      by eapply list_elem_of_lookup_2.
    + apply (IH i j); [done|done|lia].
Qed.

(** ** The keys of the map, in any order *)

Lemma to_front_perm {A} i (l : list A) : to_front i l ≡ₚ l.
Proof.
  unfold to_front. destruct (l !! (i mod length l)) eqn:Hi; [|done].
  symmetry. by apply delete_Permutation.
Qed.

Lemma range_keys_perm {V} order (m : gmap string V) :
  range_keys order m ≡ₚ (map_to_list m).*1.
Proof.
  unfold range_keys. generalize ((map_to_list m).*1). 
  induction order as [|i order IH]; intros l; simpl; [done|].
  rewrite IH. apply to_front_perm.
Qed.

Lemma flush_order_perm order (m : gmap string dirRecord) :
  flush_order order m ≡ₚ (map_to_list m).*1.
Proof. unfold flush_order. by rewrite sort_dirs_perm, range_keys_perm. Qed.

Lemma flush_order_NoDup order (m : gmap string dirRecord) : NoDup (flush_order order m).
Proof. rewrite flush_order_perm. apply NoDup_fst_map_to_list. Qed.

Lemma flush_order_elem order (m : gmap string dirRecord) dir :
  dir ∈ flush_order order m ↔ is_Some (m !! dir).
Proof.
  rewrite flush_order_perm. rewrite list_elem_of_fmap. split.
  - intros ([k v] & -> & Hkv). apply elem_of_map_to_list in Hkv. by exists v.
  - intros [v Hv]. exists (dir, v). split; [done|]. by apply elem_of_map_to_list.
Qed.

(** ** The records are applied at the end *)

Lemma apply_dir_log GOOS dirMetadata dir w :
  emits w (apply_dir GOOS dirMetadata dir w) (dir_events GOOS dirMetadata dir).
Proof.
  unfold apply_dir, dir_events, emits. destruct (not_windows GOOS).
  - rewrite Chown_log, Chtimes_log, Chmod_log. by rewrite <- !app_assoc.
  - rewrite Chtimes_log, Chmod_log. by rewrite <- !app_assoc.
Qed.

Lemma apply_dirs_log GOOS dirMetadata dirs w :
  emits w (fold_left (λ w dir, apply_dir GOOS dirMetadata dir w) dirs w)
    (flat_map (dir_events GOOS dirMetadata) dirs).
Proof.
  revert w. induction dirs as [|dir dirs IH]; intros w; cbn [fold_left flat_map].
  - unfold emits. by rewrite app_nil_r.
  - eapply emits_trans; [apply apply_dir_log | apply IH].
Qed.

Lemma extract_entry_return GOOS a dst h data read_err w written dirMetadata w' n err :
  extract_entry GOOS a dst h data read_err w written dirMetadata = (w', inl (n, err)) →
  err ≠ None.
Proof.
  unfold extract_entry, extractDir. repeat case_match; intros [= <- <- <-]; done.
Qed.

Lemma extract_entry_continue GOOS a dst h data read_err w written dirMetadata w' n dm' :
  extract_entry GOOS a dst h data read_err w written dirMetadata = (w', inr (n, dm')) →
  ∃ target,
    entry_target dst h = inr target
    ∧ dm' = if bool_decide (tar.Typeflag h = tar.TypeDir) && preserveMetadata a
            then <[target := {| mode := FileMode_of (tar.Mode h);
                                at_ := tar.AccessTime h; mt := tar.ModTime h;
                                uid := tar.Uid h; gid := tar.Gid h |}]> dirMetadata
            else dirMetadata.
Proof.
  unfold extract_entry, extractDir.
  destruct (entry_target dst h) as [e|target]; [done|].
  intros H. exists target. split; [done|]. revert H.
  destruct (bool_decide (tar.Typeflag h = tar.TypeDir));
    destruct (preserveMetadata a); simpl;
    repeat case_match; intros [= <- <- <-]; done.
Qed.

(** ** A cleaned path is shorter than the cleaned paths below it *)

Lemma String_length_bytes s : String.length s = length (to_bytes s).
Proof. induction s as [|c s IH]; simpl; congruence. Qed.

Lemma to_of_bytes l : to_bytes (of_bytes l) = l.
Proof. apply list_ascii_of_string_of_list_ascii. Qed.

Lemma Clean_fixed p :
  Clean p = p → to_bytes p = render (rooted (to_bytes p)) (clean_elems (to_bytes p)).
Proof.
  intros Hc. rewrite <- Hc at 1. unfold Clean. by rewrite to_of_bytes.
Qed.

Lemma strip_elems_Some pre l r : strip_elems pre l = Some r → l = pre ++ r.
Proof.
  revert l. induction pre as [|x pre IH]; intros l; simpl.
  - by intros [= ->].
  - destruct l as [|y l]; [done|]. unfold bytes_eqb. case_bool_decide; [|done].
    subst. intros H. by rewrite (IH _ H).
Qed.

Lemma clean_pass_nonempty is_rooted es :
  ∀ stack, Forall (λ e, e ≠ []) stack →
           Forall (λ e, e ≠ []) (clean_pass is_rooted es stack).
Proof.
  induction es as [|e es IH]; intros stack Hs; simpl.
  - by apply Forall_rev.
  - unfold bytes_eqb. repeat case_bool_decide; subst;
      repeat case_match; subst; apply IH;
      repeat (done || constructor || (by inversion Hs)).
Qed.

Lemma join_sep_cons e es :
  es ≠ [] → join_sep (e :: es) = e ++ Separator :: join_sep es.
Proof. by destruct es. Qed.

Lemma join_sep_app_length a l :
  a ≠ [] → l ≠ [] →
  length (join_sep (a ++ l)) = length (join_sep a) + 1 + length (join_sep l).
Proof.
  induction a as [|x a IH]; [done|]. intros _ Hl.
  destruct a as [|y a].
  - simpl app. rewrite join_sep_cons by done. simpl. rewrite length_app. simpl. lia.
  - change ((x :: y :: a) ++ l) with (x :: ((y :: a) ++ l)).
    rewrite join_sep_cons by done. rewrite (join_sep_cons x (y :: a)) by done.
    rewrite !length_app. cbn [length]. rewrite IH by done. lia.
Qed.

Lemma join_sep_first_length e rest : e ≠ [] → 1 ≤ length (join_sep (e :: rest)).
Proof.
  intros He. destruct rest.
  - simpl. destruct e; [done|simpl; lia].
  - rewrite join_sep_cons by done. rewrite length_app. simpl. lia.
Qed.

Lemma nested_longer p q :
  nested q p = true → Clean p = p → Clean q = q → p ≠ "." →
  String.length p < String.length q.
Proof.
  unfold nested. intros Hn Hp Hq Hdot.
  apply andb_true_iff in Hn as [Hr Hn]. apply eqb_prop in Hr.
  destruct (strip_elems _ _) as [[|e rest]|] eqn:Hs; try done.
  apply strip_elems_Some in Hs.
  rewrite !String_length_bytes, (Clean_fixed _ Hp), (Clean_fixed _ Hq), Hs, Hr.
  assert (e ≠ []) as He.
  { pose proof (clean_pass_nonempty (rooted (to_bytes q)) (split_sep (to_bytes q)) []
                  (Forall_nil_2 _)) as Hne.
    fold (clean_elems (to_bytes q)) in Hne. rewrite Hs in Hne.
    apply Forall_app in Hne as [_ Hne]. by inversion Hne. }
  destruct (clean_elems (to_bytes p)) as [|x ep] eqn:Hep.
  - destruct (rooted (to_bytes p)) eqn:Hrp.
    + simpl app. unfold render. cbn [length].
      pose proof (join_sep_first_length e rest He). simpl in *. lia.
    + exfalso. apply Hdot. 
      assert (to_bytes p = to_bytes ".") as Hb.
      { rewrite (Clean_fixed _ Hp), Hep, Hrp. done. }
      rewrite <- (string_of_list_ascii_of_string p).
      unfold to_bytes in Hb. by rewrite Hb.
  - assert (length (render (rooted (to_bytes p)) ((x :: ep) ++ e :: rest))
            = length (render (rooted (to_bytes p)) (x :: ep)) + 1
              + length (join_sep (e :: rest))) as ->.
    { unfold render. destruct (rooted (to_bytes p)); cbn [length app];
        change (x :: ep ++ e :: rest) with ((x :: ep) ++ e :: rest);
        rewrite join_sep_app_length by done; lia. }
    lia.
Qed.

(** ** The pending records of an extraction that reaches the end *)

Lemma Extract_loop_pending GOOS order a dst items stream_end :
  preserveMetadata a = true →
  ∀ w written dirMetadata,
    (Extract_loop GOOS order a dst items stream_end w written dirMetadata).2.2 = None →
    ∃ w1 dm1 before,
      (Extract_loop GOOS order a dst items stream_end w written dirMetadata).1
      = flush GOOS order dm1 w1
      ∧ emits w w1 before
      ∧ dom dirMetadata ⊆ dom dm1
      ∧ ∀ h data read_err target,
          Entry h data read_err ∈ items → tar.Typeflag h = tar.TypeDir →
          entry_target dst h = inr target → target ∈ dom dm1.
Proof.
  intros Hpres.
  induction items as [|[h data read_err|] items IH]; intros w written dirMetadata; simpl.
  - destruct stream_end as [err|]; [done|]. intros _. rewrite Hpres.
    exists w, dirMetadata, []. split; [done|]. split; [unfold emits; by rewrite app_nil_r|].
    split; [done|]. intros h data read_err target Hin. by apply elem_of_nil in Hin.
  - destruct (extract_entry GOOS a dst h data read_err w written dirMetadata)
      as [w1 [[n err]|[n dm']]] eqn:He.
    { intros Herr. simpl in Herr. subst err. by apply extract_entry_return in He. }
    intros Hok.
    destruct (extract_entry_continue _ _ _ _ _ _ _ _ _ _ _ _ He) as (target & Ht & Hdm).
    destruct (extract_entry_performs GOOS a dst h data read_err w written dirMetadata
                target Ht) as (k & (evs & Hevs & _) & _).
    rewrite He in Hevs. simpl in Hevs.
    destruct (IH w1 n dm' Hok) as (w2 & dm2 & before & Hfl & Hem & Hdom & Hdirs).
    exists w2, dm2, (evs ++ before). split; [done|].
    split; [by eapply emits_trans|].
    assert (dom dirMetadata ⊆ dom dm') as Hsub.
    { rewrite Hdm. case_match; [|done]. rewrite dom_insert. set_solver. }
    split; [set_solver|].
    intros h' data' read_err' target' Hin Hflag Ht'.
    apply elem_of_cons in Hin as [[= -> -> ->]|Hin]; [|by eapply Hdirs].
    apply Hdom. rewrite Hdm, Hpres, bool_decide_eq_true_2 by done. simpl.
    rewrite Ht in Ht'. injection Ht' as ->. rewrite dom_insert. set_solver.
  - intros Hok. destruct (IH w written dirMetadata Hok)
      as (w2 & dm2 & before & Hfl & Hem & Hdom & Hdirs).
    exists w2, dm2, before. repeat split; try done.
    intros h data read_err target Hin. apply elem_of_cons in Hin as [[=]|Hin].
    by eapply Hdirs.
Qed.

(** C3, as amended.  An extraction with [preserveMetadata] that reaches the
    end of the stream has, for every directory entry, exactly one pending
    record; it applies all of them as its last calls, longest path first.
    So the record of a directory is applied after those of the directories
    inside it whenever both paths are in cleaned form and the outer one is
    not [.]. *)
Theorem pending_records_flushed (GOOS : string) (order : list nat) (a : Archive)
    (dst : string) (r : tape) (w : world) :
  preserveMetadata a = true →
  (Extract GOOS order a dst r w).2.2 = None →
  ∃ (dirMetadata : gmap string dirRecord) (before : list event),
    let dirs := flush_order order dirMetadata in
    emits w (Extract GOOS order a dst r w).1
      (before ++ flat_map (dir_events GOOS dirMetadata) dirs)
    ∧ (∀ h data read_err target,
         Entry h data read_err ∈ t_items r → tar.Typeflag h = tar.TypeDir →
         entry_target dst h = inr target →
         ∃ i, dirs !! i = Some target ∧ ∀ j, dirs !! j = Some target → j = i)
    ∧ longest_first dirs
    ∧ (∀ i j p q,
         dirs !! i = Some p → dirs !! j = Some q → nested q p = true →
         Clean p = p → Clean q = q → p ≠ "." → j < i).
Proof.
  intros Hpres Hok. unfold Extract in *.
  destruct (Extract_loop_pending GOOS order a dst (t_items r) (t_end r) Hpres w 0%Z ∅ Hok)
    as (w1 & dm & before & Hfl & Hem & _ & Hdirs).
  exists dm, before. cbn zeta. split; [|split; [|split]].
  - rewrite Hfl. eapply emits_trans; [exact Hem|]. apply apply_dirs_log.
  - intros h data read_err target Hin Hflag Ht.
    specialize (Hdirs _ _ _ _ Hin Hflag Ht).
    apply elem_of_dom, (flush_order_elem order) in Hdirs.
    apply list_elem_of_lookup in Hdirs as [i Hi]. exists i. split; [done|].
    intros j Hj. by eapply NoDup_lookup; [apply flush_order_NoDup|..].
  - apply sort_dirs_sorted.
  - intros i j p q Hi Hj Hn Hp Hq Hdot.
    pose proof (nested_longer p q Hn Hp Hq Hdot) as Hlen.
    destruct (decide (j < i)) as [|Hge]; [done|]. exfalso.
    destruct (decide (i = j)) as [->|Hne].
    + rewrite Hi in Hj. injection Hj as ->. lia.
    + assert (i < j) as Hlt by lia.
      pose proof (sorted_lookup _ _ i j p q (sort_dirs_sorted _) Hi Hj Hlt) as Hle.
      simpl in Hle. lia.
Qed.

Lemma pending_records_flushed_witness :
  let r := sample.stream [Entry (sample.header tar.TypeDir "a") [] None;
                          Entry (sample.header tar.TypeDir "a/b") [] None;
                          Entry (sample.header tar.TypeReg "a/b/f") (to_bytes "x") None] in
  drop 12 (w_log (Extract "linux" [1] sample.preserving "out" r sample.fresh).1)
  = [EvChmod "out/a/b" 420%Z; EvChtimes "out/a/b" 0%Z 5%Z; EvChown "out/a/b" 0%Z 0%Z;
     EvChmod "out/a" 420%Z; EvChtimes "out/a" 0%Z 5%Z; EvChown "out/a" 0%Z 0%Z]
  ∧ ∃ (dirMetadata : gmap string dirRecord) (before : list event),
      let dirs := flush_order [1] dirMetadata in
      emits sample.fresh (Extract "linux" [1] sample.preserving "out" r sample.fresh).1
        (before ++ flat_map (dir_events "linux" dirMetadata) dirs)
      ∧ (∀ h data read_err target,
           Entry h data read_err ∈ t_items r → tar.Typeflag h = tar.TypeDir →
           entry_target "out" h = inr target →
           ∃ i, dirs !! i = Some target ∧ ∀ j, dirs !! j = Some target → j = i)
      ∧ longest_first dirs
      ∧ (∀ i j p q,
           dirs !! i = Some p → dirs !! j = Some q → nested q p = true →
           Clean p = p → Clean q = q → p ≠ "." → j < i).
Proof.
  intros r. split; [reflexivity|].
  apply (pending_records_flushed "linux" [1] sample.preserving "out" r sample.fresh);
    reflexivity.
Defined.

(** C3, as stated, fails.  Extracting the directories [.] and [a] into the
    destination [.] leaves two pending records whose paths have the same
    length; when the range over the map yields [.] first, the sort keeps that
    order and the record of [.] is applied before the record of [a], which
    lies inside it. *)
Lemma parent_record_applied_first :
  let r := Extract "linux" [0; 1] sample.preserving "."
             (sample.stream [Entry (sample.header tar.TypeDir ".") [] None;
                             Entry (sample.header tar.TypeDir "a") [] None])
             sample.fresh in
  r.2 = (0%Z, None)
  ∧ nested "a" "." = true
  ∧ drop 4 (w_log r.1)
    = [EvChmod "." 420%Z; EvChtimes "." 0%Z 5%Z; EvChown "." 0%Z 0%Z;
       EvChmod "a" 420%Z; EvChtimes "a" 0%Z 5%Z; EvChown "a" 0%Z 0%Z].
Proof. vm_compute. done. Qed.

(** ** Content calls do not look at metadata *)

Section SameTree.

Variables f1 f2 : fs.
Hypothesis Hsame : same_tree f1 f2.

Lemma find_inode_same k : sys.find_inode f1 k = sys.find_inode f2 k.
Proof.
  destruct Hsame as (Hn & _ & Hb). unfold sys.find_inode. rewrite Hn.
  destruct (names f2 !! k) as [i|]; simpl; [|done]. by rewrite Hb.
Qed.

Lemma lookup_key_same k : sys.lookup_key f1 k = sys.lookup_key f2 k.
Proof. unfold sys.lookup_key. by rewrite find_inode_same. Qed.

Lemma resolve_same fuel k : sys.resolve f1 fuel k = sys.resolve f2 fuel k.
Proof.
  revert k. induction fuel as [|fuel IH]; intros k; simpl; rewrite lookup_key_same;
    repeat case_match; auto.
Qed.

Lemma stat_key_same k : sys.stat_key f1 k = sys.stat_key f2 k.
Proof.
  unfold sys.stat_key. rewrite resolve_same.
  destruct (sys.resolve f2 sys.max_links k); [|done]. by rewrite find_inode_same.
Qed.

Lemma is_dir_same k : sys.is_dir f1 k = sys.is_dir f2 k.
Proof. unfold sys.is_dir. by rewrite stat_key_same. Qed.

Lemma has_children_same k : sys.has_children f1 k = sys.has_children f2 k.
Proof. unfold sys.has_children. destruct Hsame as (-> & _). done. Qed.

Lemma same_tree_add_inode k n :
  same_tree (sys.add_inode k n f1) (sys.add_inode k n f2).
Proof.
  destruct Hsame as (Hn & Hx & Hb). unfold sys.add_inode, same_tree, sys.body_of.
  simpl. rewrite Hn, Hx. repeat split. intros i.
  destruct (decide (next_ino f2 = i)) as [->|Hne].
  - by rewrite !lookup_insert_eq.
  - rewrite !lookup_insert_ne by done. apply Hb.
Qed.

Lemma same_tree_set_body i b :
  same_tree (sys.set_body i b f1) (sys.set_body i b f2).
Proof.
  destruct Hsame as (Hn & Hx & Hb). unfold sys.set_body, same_tree, sys.body_of.
  simpl. repeat split; try done. intros j. specialize (Hb j). unfold sys.body_of in Hb.
  destruct (decide (i = j)) as [->|Hne].
  - rewrite !lookup_alter_eq.
    destruct (inodes f1 !! j), (inodes f2 !! j); simpl in *; done.
  - by rewrite !lookup_alter_ne.
Qed.

Lemma same_tree_unlink_name k :
  same_tree (sys.unlink_name k f1) (sys.unlink_name k f2).
Proof.
  destruct Hsame as (Hn & Hx & Hb). unfold sys.unlink_name, same_tree. simpl.
  by rewrite Hn.
Qed.

Lemma same_tree_link k i :
  same_tree {| names := <[k := i]> (names f1); inodes := inodes f1;
               next_ino := next_ino f1 |}
            {| names := <[k := i]> (names f2); inodes := inodes f2;
               next_ino := next_ino f2 |}.
Proof.
  destruct Hsame as (Hn & Hx & Hb). unfold same_tree. simpl. by rewrite Hn.
Qed.

Lemma same_tree_write_inode i data :
  same_tree (sys.write_inode i data f1) (sys.write_inode i data f2).
Proof.
  unfold sys.write_inode. destruct Hsame as (_ & _ & Hb). rewrite (Hb i).
  repeat case_match; try done. apply same_tree_set_body.
Qed.

End SameTree.

Lemma same_tree_set_meta f i upd : same_tree (sys.set_meta i upd f) f.
Proof.
  unfold same_tree, sys.set_meta, sys.body_of. simpl. repeat split.
  intros j. by apply alter_kept.
Qed.

Lemma same_tree_sym f1 f2 : same_tree f1 f2 → same_tree f2 f1.
Proof.
  intros (Hn & Hx & Hb). split; [done|]. split; [done|]. intros i. by rewrite Hb.
Qed.

Lemma same_tree_trans f1 f2 f3 : same_tree f1 f2 → same_tree f2 f3 → same_tree f1 f3.
Proof.
  intros (Hn1 & Hx1 & Hb1) (Hn2 & Hx2 & Hb2).
  split; [congruence|]. split; [congruence|]. intros i. by rewrite Hb1.
Qed.

Lemma mkdir_chain_same perm ks :
  ∀ f1 f2, same_tree f1 f2 →
    match sys.mkdir_chain perm ks f1, sys.mkdir_chain perm ks f2 with
    | inl e1, inl e2 => e1 = e2
    | inr g1, inr g2 => same_tree g1 g2
    | _, _ => False
    end.
Proof.
  induction ks as [|k ks IH]; intros f1 f2 Hs; simpl; [done|].
  rewrite (stat_key_same f1 f2 Hs).
  destruct (sys.stat_key f2 k) as [e|[k' [[i []]|]]]; try done.
  - by apply IH.
  - case_bool_decide; [|done]. apply IH. by apply same_tree_add_inode.
Qed.

(** Opens two worlds of the same content into their fields. *)
Ltac open_worlds w1 w2 H :=
  destruct w1 as [f1 l1 io1 md1], w2 as [f2 l2 io2 md2];
  destruct H as (Ht & Hio & Hlog); simpl in Ht, Hio, Hlog; subst io2 l2;
  unfold agree, same_content, sys.next_io, sys.record, sys.set_fs; simpl.

Ltac agree_done :=
  split; [simpl; try done | split; [simpl; auto | split; simpl; done]].

Lemma MkdirAll_agree path perm w1 w2 :
  same_content w1 w2 → agree (sys.MkdirAll path perm w1) (sys.MkdirAll path perm w2).
Proof.
  intros H. unfold sys.MkdirAll. open_worlds w1 w2 H.
  destruct io1 as [|[k|] io]; simpl; try by agree_done.
  all: pose proof (mkdir_chain_same perm
         (sys.ancestors (String.length (sys.key path)) (sys.key path) []) f1 f2 Ht) as Hm;
       destruct (sys.mkdir_chain _ _ f1), (sys.mkdir_chain _ _ f2); try done; subst;
       by agree_done.
Qed.

Lemma Lstat_agree path w1 w2 :
  same_content w1 w2 → agree (sys.Lstat path w1) (sys.Lstat path w2).
Proof.
  intros H. unfold sys.Lstat. open_worlds w1 w2 H.
  destruct io1 as [|[k|] io]; simpl; rewrite ?(lookup_key_same f1 f2 Ht);
    repeat case_match; by agree_done.
Qed.

Lemma Remove_agree path w1 w2 :
  same_content w1 w2 → agree (sys.Remove path w1) (sys.Remove path w2).
Proof.
  intros H. unfold sys.Remove. open_worlds w1 w2 H.
  destruct io1 as [|[k|] io]; simpl;
    rewrite ?(lookup_key_same f1 f2 Ht), ?(has_children_same f1 f2 Ht);
    repeat case_match; agree_done; by apply same_tree_unlink_name.
Qed.

Lemma Symlink_agree o n w1 w2 :
  same_content w1 w2 → agree (sys.Symlink o n w1) (sys.Symlink o n w2).
Proof.
  intros H. unfold sys.Symlink. open_worlds w1 w2 H.
  pose proof Ht as (Hn & _).
  destruct io1 as [|[k|] io]; simpl; rewrite ?Hn, ?(is_dir_same f1 f2 Ht);
    repeat case_match; agree_done; by apply same_tree_add_inode.
Qed.

Lemma Link_agree o n w1 w2 :
  same_content w1 w2 → agree (sys.Link o n w1) (sys.Link o n w2).
Proof.
  intros H. unfold sys.Link. open_worlds w1 w2 H.
  pose proof Ht as (Hn & _).
  destruct io1 as [|[k|] io]; simpl;
    rewrite ?(find_inode_same f1 f2 Ht), ?Hn, ?(is_dir_same f1 f2 Ht);
    repeat case_match; agree_done;
    destruct Ht as (_ & Hx & Hb); (split; [done|]); by split.
Qed.

Lemma OpenFile_agree path flag perm w1 w2 :
  same_content w1 w2 →
  agree (sys.OpenFile path flag perm w1) (sys.OpenFile path flag perm w2).
Proof.
  intros H. unfold sys.OpenFile. open_worlds w1 w2 H.
  pose proof Ht as (_ & Hx & _).
  destruct io1 as [|[k|] io]; simpl;
    rewrite ?(stat_key_same f1 f2 Ht), ?Hx;
    repeat case_match;
    try (match goal with
         | H : sys.is_dir f1 _ = _ |- _ =>
             rewrite (is_dir_same f1 f2 Ht) in H; congruence
         end);
    agree_done;
    (by apply same_tree_set_body) || (by apply same_tree_add_inode).
Qed.

Lemma Copy_agree i data read_err w1 w2 :
  same_content w1 w2 →
  agree (sys.Copy i data read_err w1) (sys.Copy i data read_err w2).
Proof.
  intros H. unfold sys.Copy. open_worlds w1 w2 H.
  destruct data as [|c data]; [by agree_done|].
  destruct io1 as [|[k|] io]; simpl; agree_done; by apply same_tree_write_inode.
Qed.

Lemma Close_agree i w1 w2 :
  same_content w1 w2 → agree (sys.Close i w1) (sys.Close i w2).
Proof.
  intros H. unfold sys.Close. open_worlds w1 w2 H.
  destruct io1 as [|[k|] io]; simpl; by agree_done.
Qed.

(** A metadata call keeps the content, whether it fails or not. *)
Lemma update_meta_same follow upd op path w :
  same_tree (w_fs (sys.update_meta follow upd op path w).2) (w_fs w)
  ∧ w_io (sys.update_meta follow upd op path w).2 = w_io w
  ∧ w_log (sys.update_meta follow upd op path w).2 = w_log w.
Proof.
  destruct (update_meta_keeps i_body follow upd op path w) as (Hn & Hx & Hio & Hb);
    [done|].
  split; [|split; [done | apply update_meta_log]].
  split; [done|]. split; [done|]. exact Hb.
Qed.

Lemma update_meta_content follow upd op path e w1 w2 :
  same_content w1 w2 →
  same_content (sys.update_meta follow upd op path (sys.record e w1)).2
               (sys.update_meta follow upd op path (sys.record e w2)).2.
Proof.
  intros (Ht & Hio & Hlog).
  destruct (update_meta_same follow upd op path (sys.record e w1)) as (T1 & I1 & L1).
  destruct (update_meta_same follow upd op path (sys.record e w2)) as (T2 & I2 & L2).
  split; [|split].
  - eapply same_tree_trans; [exact T1|]. eapply same_tree_trans; [exact Ht|].
    by apply same_tree_sym.
  - rewrite I1, I2. done.
  - rewrite L1, L2. simpl. by rewrite Hlog.
Qed.

(** ** The engine does not look at metadata either *)

(** Runs one call in both worlds: [lem] is its agreement; the two outcomes
    are split into the common result and the two worlds after the call. *)
Ltac both_call lem :=
  let Hr := fresh "Hr" in
  let Hw := fresh "Hw" in
  destruct lem as [Hr Hw];
  match type of Hr with
  | (?x).1 = (?y).1 =>
      destruct x as [? ?], y as [? ?]; simpl in Hr, Hw; subst
  end.

Section Agreement.

Variable GOOS : string.

Lemma Chmod_content path mode w1 w2 :
  same_content w1 w2 →
  same_content (sys.Chmod path mode w1).2 (sys.Chmod path mode w2).2.
Proof. apply update_meta_content. Qed.

Lemma Chtimes_content path a m w1 w2 :
  same_content w1 w2 →
  same_content (sys.Chtimes path a m w1).2 (sys.Chtimes path a m w2).2.
Proof. apply update_meta_content. Qed.

Lemma Chown_content path u g w1 w2 :
  same_content w1 w2 →
  same_content (sys.Chown path u g w1).2 (sys.Chown path u g w2).2.
Proof. apply update_meta_content. Qed.

Lemma Lchown_content path u g w1 w2 :
  same_content w1 w2 →
  same_content (sys.Lchown path u g w1).2 (sys.Lchown path u g w2).2.
Proof. apply update_meta_content. Qed.

Lemma agree_pair {R} (r : R) w1 w2 : same_content w1 w2 → agree (r, w1) (r, w2).
Proof. by split. Qed.

Lemma unlink_agree path w1 w2 :
  same_content w1 w2 → agree (unlink path w1) (unlink path w2).
Proof.
  intros H. unfold unlink. both_call (Lstat_agree path w1 w2 H).
  destruct o0; [by apply agree_pair | by apply Remove_agree].
Qed.

Lemma restore_metadata_content h target w1 w2 :
  same_content w1 w2 →
  same_content (restore_metadata GOOS h target w1) (restore_metadata GOOS h target w2).
Proof.
  intros H. unfold restore_metadata.
  destruct (not_windows GOOS).
  - by apply Chown_content, Chtimes_content, Chmod_content.
  - by apply Chtimes_content, Chmod_content.
Qed.

Lemma extractDir_agree h target w1 w2 :
  same_content w1 w2 → agree (extractDir h target w1) (extractDir h target w2).
Proof.
  intros H. unfold extractDir.
  both_call (MkdirAll_agree target (FileMode_of (tar.Mode h)) w1 w2 H).
  destruct o0; by apply agree_pair.
Qed.

Lemma extractRegular_agree h data read_err target preserve w1 w2 :
  same_content w1 w2 →
  agree (extractRegular GOOS h data read_err target preserve w1)
        (extractRegular GOOS h data read_err target preserve w2).
Proof.
  intros H. unfold extractRegular.
  both_call (OpenFile_agree target (Z.lor sys.O_CREATE sys.O_RDWR)
               (FileMode_of (tar.Mode h)) w1 w2 H).
  destruct s0 as [e|f]; [by apply agree_pair|].
  both_call (Copy_agree f data read_err _ _ Hw).
  destruct p0 as [n [e|]].
  - both_call (Close_agree f _ _ Hw0). by apply agree_pair.
  - destruct preserve.
    + both_call (Close_agree f _ _ (restore_metadata_content h target _ _ Hw0)).
      by apply agree_pair.
    + both_call (Close_agree f _ _ Hw0). by apply agree_pair.
Qed.

Lemma extractSymlink_agree h target preserve w1 w2 :
  same_content w1 w2 →
  agree (extractSymlink GOOS h target preserve w1)
        (extractSymlink GOOS h target preserve w2).
Proof.
  intros H. unfold extractSymlink. both_call (unlink_agree target w1 w2 H).
  destruct o0; [by apply agree_pair|].
  both_call (Symlink_agree (tar.Linkname h) target _ _ Hw).
  destruct o0; [by apply agree_pair|].
  destruct (preserve && not_windows GOOS); apply agree_pair; [|done].
  by apply Lchown_content.
Qed.

Lemma extractLink_agree h target preserve w1 w2 :
  same_content w1 w2 →
  agree (extractLink GOOS h target preserve w1)
        (extractLink GOOS h target preserve w2).
Proof.
  intros H. unfold extractLink. both_call (unlink_agree target w1 w2 H).
  destruct o0; [by apply agree_pair|].
  both_call (Link_agree (tar.Linkname h) target _ _ Hw).
  destruct o0; [by apply agree_pair|].
  apply agree_pair. destruct preserve; [by apply restore_metadata_content|done].
Qed.

Lemma extract_entry_agree a dst h data read_err written dirMetadata w1 w2 :
  same_content w1 w2 →
  (extract_entry GOOS a dst h data read_err w1 written dirMetadata).2
  = (extract_entry GOOS a dst h data read_err w2 written dirMetadata).2
  ∧ same_content (extract_entry GOOS a dst h data read_err w1 written dirMetadata).1
                 (extract_entry GOOS a dst h data read_err w2 written dirMetadata).1.
Proof.
  intros H. unfold extract_entry.
  destruct (entry_target dst h) as [e|target]; [done|].
  both_call (MkdirAll_agree (Dir target) defaultDirPermission w1 w2 H).
  destruct o0; [done|].
  destruct (bool_decide (tar.Typeflag h = tar.TypeDir)).
  { destruct (preserveMetadata a).
    - both_call (MkdirAll_agree target defaultDirPermission _ _ Hw). by destruct o0.
    - both_call (extractDir_agree h target _ _ Hw). by destruct o0. }
  destruct (is_regular_flag (tar.Typeflag h)).
  { both_call (extractRegular_agree h data read_err target (preserveMetadata a) _ _ Hw).
    destruct p0 as [n [e|]]; done. }
  destruct (bool_decide (tar.Typeflag h = tar.TypeSymlink)).
  { both_call (extractSymlink_agree h target (preserveMetadata a) _ _ Hw).
    by destruct o0. }
  destruct (bool_decide (tar.Typeflag h = tar.TypeLink)).
  { both_call (extractLink_agree h target (preserveMetadata a) _ _ Hw).
    by destruct o0. }
  by destruct (bool_decide (tar.Typeflag h = tar.TypeXGlobalHeader)).
Qed.

Lemma apply_dir_content dirMetadata dir w1 w2 :
  same_content w1 w2 →
  same_content (apply_dir GOOS dirMetadata dir w1) (apply_dir GOOS dirMetadata dir w2).
Proof.
  intros H. unfold apply_dir. destruct (not_windows GOOS).
  - by apply Chown_content, Chtimes_content, Chmod_content.
  - by apply Chtimes_content, Chmod_content.
Qed.

Lemma flush_content order dirMetadata w1 w2 :
  same_content w1 w2 →
  same_content (flush GOOS order dirMetadata w1) (flush GOOS order dirMetadata w2).
Proof.
  unfold flush. generalize (flush_order order dirMetadata). intros dirs.
  revert w1 w2. induction dirs as [|dir dirs IH]; intros w1 w2 H; simpl; [done|].
  by apply IH, apply_dir_content.
Qed.

Lemma Extract_loop_agree order a dst items stream_end :
  ∀ written dirMetadata w1 w2,
    same_content w1 w2 →
    (Extract_loop GOOS order a dst items stream_end w1 written dirMetadata).2
    = (Extract_loop GOOS order a dst items stream_end w2 written dirMetadata).2
    ∧ same_content
        (Extract_loop GOOS order a dst items stream_end w1 written dirMetadata).1
        (Extract_loop GOOS order a dst items stream_end w2 written dirMetadata).1.
Proof.
  induction items as [|[h data read_err|] items IH];
    intros written dirMetadata w1 w2 H; simpl.
  - destruct stream_end; [done|]. split; [done|].
    destruct (preserveMetadata a); [by apply flush_content|done].
  - destruct (extract_entry_agree a dst h data read_err written dirMetadata w1 w2 H)
      as [Hr Hw].
    destruct (extract_entry GOOS a dst h data read_err w1 written dirMetadata)
      as [w1' r1],
      (extract_entry GOOS a dst h data read_err w2 written dirMetadata) as [w2' r2].
    simpl in Hr, Hw. subst r2. destruct r1 as [res|[n dm]]; [done|]. by apply IH.
  - by apply IH.
Qed.

End Agreement.

Lemma file_at_same f1 f2 path : same_tree f1 f2 → file_at f1 path = file_at f2 path.
Proof. intros H. unfold file_at. by rewrite (stat_key_same f1 f2 H). Qed.

Lemma same_content_with_md faults1 faults2 w :
  same_content (with_md faults1 w) (with_md faults2 w).
Proof. repeat split. Qed.

(** C6. Extract in a world where metadata calls (chmod, chtimes, chown,
    lchown, on files, links and pending directories) fail as [faults] says,
    against the same world where [faults'] says it (for no failure at all,
    take no faults): the same byte count and error come back, the same calls
    are made, the names lead to the same inodes, and every file has the same
    content. *)
Theorem metadata_failures_ignored (GOOS : string) (order : list nat) (a : Archive)
    (dst : string) (r : tape) (w : world) (faults faults' : list bool) :
  let degraded := Extract GOOS order a dst r (with_md faults w) in
  let reference := Extract GOOS order a dst r (with_md faults' w) in
  degraded.2 = reference.2
  ∧ (∀ path, file_at (w_fs degraded.1) path = file_at (w_fs reference.1) path)
  ∧ names (w_fs degraded.1) = names (w_fs reference.1)
  ∧ w_log degraded.1 = w_log reference.1.
Proof.
  cbn zeta. unfold Extract.
  destruct (Extract_loop_agree GOOS order a dst (t_items r) (t_end r) 0%Z ∅
              (with_md faults w) (with_md faults' w) (same_content_with_md _ _ w))
    as (Hres & Ht & _ & Hlog).
  split; [done|]. split; [|split; [by destruct Ht|done]].
  intros path. by apply file_at_same.
Qed.

(** On a platform user who may not change owners or times: every metadata
    call of this extraction fails, and the file is restored all the same. *)
Example degraded_extraction :
  let r := Extract "linux" [] sample.preserving "out"
             (sample.stream [Entry (sample.header tar.TypeDir "d") [] None;
                             Entry (sample.header tar.TypeReg "d/f") (to_bytes "hello") None])
             (with_md [true; true; true; true; true; true] sample.fresh) in
  r.2 = (5%Z, None) ∧ file_at (w_fs r.1) "out/d/f" = Some (to_bytes "hello").
Proof. vm_compute. done. Qed.

(** ** Further facts about Create and regular files *)

(** [tar.FileInfoHeader] leaves the format open. *)
Lemma FileInfoHeader_format fi link h :
  tar.FileInfoHeader fi link = inr h → tar.Format h = tar.FormatUnknown.
Proof.
  unfold tar.FileInfoHeader. destruct (tar.header_kind fi link) as [e|[[[flag name] lnk] size]];
    [done|]. by intros [= <-].
Qed.

(** The header of a node that is not a symbolic link is in the PAX format
    exactly when metadata is preserved. *)
Lemma preserve_header_format GOOS preserve fi h :
  tar.Format h = tar.FormatUnknown →
  tar.Format (preserve_header GOOS preserve fi h)
  = if preserve then tar.FormatPAX else tar.FormatUnknown.
Proof.
  intros Hf. unfold preserve_header. destruct preserve; [|done].
  destruct (not_windows GOOS); [|done]. by destruct (os.Sys fi).
Qed.

(** A source that cannot be stat'd ends Create with an error that wraps
    [ErrSourceNotReachable]; the count is the one reached before. *)
Lemma Create_unreachable_source GOOS a src srcs isRelativePath err :
  src_lstat src = Some err →
  ∃ e, Create GOOS a (src :: srcs) isRelativePath = ([], (0%Z, Some e))
       ∧ Is e ErrSourceNotReachable = true.
Proof.
  intros Hl. unfold Create. simpl. rewrite Hl. eexists. split; [done|]. done.
Qed.

Lemma md_call_same follow upd op path e w :
  same_tree (w_fs (sys.update_meta follow upd op path (sys.record e w)).2) (w_fs w)
  ∧ w_io (sys.update_meta follow upd op path (sys.record e w)).2 = w_io w.
Proof.
  destruct (update_meta_same follow upd op path (sys.record e w)) as (Ht & Hio & _).
  by split.
Qed.

Lemma restore_metadata_same GOOS h target w :
  same_tree (w_fs (restore_metadata GOOS h target w)) (w_fs w)
  ∧ w_io (restore_metadata GOOS h target w) = w_io w.
Proof.
  unfold restore_metadata, sys.Chmod, sys.Chtimes, sys.Chown.
  set (at_ := if IsZero _ then _ else _).
  destruct (md_call_same true (sys.set_mode (FileMode_of (tar.Mode h))) "chmod" target
              (EvChmod target (FileMode_of (tar.Mode h))) w) as [T1 I1].
  set (w1 := (sys.update_meta true (sys.set_mode _) "chmod" target _).2) in *.
  destruct (md_call_same true (sys.set_times at_ (tar.ModTime h)) "chtimes" target
              (EvChtimes target at_ (tar.ModTime h)) w1) as [T2 I2].
  set (w2 := (sys.update_meta true (sys.set_times _ _) "chtimes" target _).2) in *.
  destruct (not_windows GOOS).
  - destruct (md_call_same true (sys.set_owner (tar.Uid h) (tar.Gid h)) "chown" target
                (EvChown target (tar.Uid h) (tar.Gid h)) w2) as [T3 I3].
    split; [|congruence].
    eapply same_tree_trans; [exact T3|]. by eapply same_tree_trans.
  - split; [|congruence]. by eapply same_tree_trans.
Qed.

Lemma stat_key_body f key k i b :
  sys.stat_key f key = inr (k, Some (i, b)) → sys.body_of f i = Some b.
Proof.
  unfold sys.stat_key. destruct (sys.resolve _ _ _) as [k'|]; [|done].
  intros [= -> Hf]. unfold sys.find_inode in Hf.
  destruct (names f !! k) as [j|]; simpl in Hf; [|done].
  destruct (sys.body_of f j) eqn:Hj; simpl in Hf; [|done]. congruence.
Qed.

Lemma OpenFile_existing target perm w k i old :
  w_io w = [] →
  sys.stat_key (w_fs w) (sys.key target) = inr (k, Some (i, BFile old)) →
  sys.OpenFile target (Z.lor sys.O_CREATE sys.O_RDWR) perm w
  = (inr i, sys.record (EvOpenFile target (Z.lor sys.O_CREATE sys.O_RDWR) perm) w).
Proof.
  intros Hio Hst. unfold sys.OpenFile, sys.next_io. simpl. rewrite Hio. simpl.
  rewrite Hst. simpl. unfold sys.record. by rewrite Hio.
Qed.

Lemma Copy_whole i data w old :
  w_io w = [] → sys.body_of (w_fs w) i = Some (BFile old) →
  (sys.Copy i data None w).1 = (Z.of_nat (length data), None)
  ∧ w_io (sys.Copy i data None w).2 = []
  ∧ sys.body_of (w_fs (sys.Copy i data None w).2) i
    = Some (BFile (sys.overwrite data old)).
Proof.
  intros Hio Hb. unfold sys.Copy, sys.next_io. destruct data as [|c data]; simpl.
  - by rewrite Hb.
  - rewrite Hio. simpl. split; [done|]. split; [done|].
    unfold sys.write_inode. simpl. rewrite Hb. unfold sys.body_of, sys.set_body. simpl.
    rewrite lookup_alter_eq. unfold sys.body_of in Hb.
    by destruct (inodes (w_fs w) !! i).
Qed.

(** What [extractRegular] leaves in a file that is already there, when no
    call fails: the payload over the old content, the rest of the old
    content after it. *)
Lemma extractRegular_overwrites GOOS h data target preserve w k i old :
  w_io w = [] →
  sys.stat_key (w_fs w) (sys.key target) = inr (k, Some (i, BFile old)) →
  (extractRegular GOOS h data None target preserve w).1
  = (Z.of_nat (length data), None)
  ∧ sys.body_of (w_fs (extractRegular GOOS h data None target preserve w).2) i
    = Some (BFile (sys.overwrite data old)).
Proof.
  intros Hio Hst. unfold extractRegular.
  rewrite (OpenFile_existing target _ w k i old Hio Hst).
  set (w1 := sys.record _ w).
  destruct (Copy_whole i data w1 old Hio (stat_key_body _ _ _ _ _ Hst))
    as (Hres & Hio2 & Hb2).
  destruct (sys.Copy i data None w1) as [[n err] w2]. simpl in Hres, Hio2, Hb2.
  injection Hres as -> ->.
  set (w3 := if preserve then _ else w2).
  assert (w_io w3 = [] ∧ sys.body_of (w_fs w3) i = Some (BFile (sys.overwrite data old)))
    as [Hio3 Hb3].
  { subst w3. destruct preserve; [|done].
    destruct (restore_metadata_same GOOS h target w2) as [(_ & _ & Hb) Hi].
    split; [congruence|]. by rewrite Hb. }
  unfold sys.Close, sys.next_io. simpl. rewrite Hio3. simpl. done.
Qed.

(** ** Symbolic links in Create *)

Lemma symlink_not_regular m : os.has m os.ModeSymlink = true → os.IsRegular m = false.
Proof.
  unfold os.has, os.IsRegular. intros H. apply negb_true_iff, Z.eqb_neq in H.
  apply Z.eqb_neq. intros H0. apply H.
  replace os.ModeSymlink with (Z.land os.ModeType os.ModeSymlink) by reflexivity.
  by rewrite Z.land_assoc, H0.
Qed.

(** The header of a symbolic link carries the text that [os.Readlink]
    returned. *)
Lemma createSymlinkHeader_linkname fi v lnk h :
  os.has (os.Mode fi) os.ModeSymlink = true → os.IsDir (os.Mode fi) = false →
  v_readlink v = inr lnk → createSymlinkHeader fi v = inr h →
  tar.Typeflag h = tar.TypeSymlink ∧ tar.Linkname h = lnk.
Proof.
  intros Hs Hd Hl. unfold createSymlinkHeader, tar.FileInfoHeader, tar.header_kind.
  rewrite Hl, (symlink_not_regular _ Hs), Hd, Hs. by intros [= <-].
Qed.

(** For a symbolic link Create writes a header and no payload: the archive
    grows by at most one entry, which is empty, and the count stays. *)
Lemma symlink_node_no_payload GOOS root skip isRelativePath preserve v fi tw written st :
  v_info v = Some fi → os.has (os.Mode fi) os.ModeSymlink = true →
  writeToArchive GOOS root skip isRelativePath preserve v (tw, written) = (st, None) →
  st.2 = written ∧ (st.1 = tw ∨ ∃ h, st.1 = tw ++ [(h, [])]).
Proof.
  intros Hfi Hs. unfold writeToArchive. rewrite Hfi, Hs, (symlink_not_regular _ Hs).
  repeat case_match; simplify_eq/=; intros [= <-]; simpl; (split; [done|]); auto;
    right; by eexists.
Qed.

(** ** The sort of the pending directories, as a whole *)

Lemma bubble_fixed x l :
  Forall (λ y, String.length y ≤ String.length x) l → bubble x l = (x, l).
Proof.
  induction 1 as [|y l Hy Hl IH]; simpl; [done|].
  destruct (String.length x <? String.length y) eqn:E.
  - apply Nat.ltb_lt in E. lia.
  - by rewrite IH.
Qed.

Lemma exchange_sort_fixed fuel l : longest_first l → exchange_sort fuel l = l.
Proof.
  intros H. revert fuel. induction H as [|x l Hl IH Hx]; intros [|fuel]; simpl; try done.
  rewrite (bubble_fixed x l Hx). by rewrite IH.
Qed.

(** X1. The two nested loops of tar.go 232-238 sort: the list they leave has
    the same paths as the list they were given, each as often as before, and
    no path in it is longer than one before it. *)
Theorem sort_loops_sort (dirs : list string) :
  sort_dirs dirs ≡ₚ dirs ∧ longest_first (sort_dirs dirs).
Proof. split; [apply sort_dirs_perm | apply sort_dirs_sorted]. Qed.

(** X2. On a list that already has its longest paths first the loops swap
    nothing: paths of the same length keep the order they came in. *)
Theorem sort_loops_keep_sorted (dirs : list string) :
  longest_first dirs → sort_dirs dirs = dirs.
Proof. intros H. rewrite sort_dirs_exchange. by apply exchange_sort_fixed. Qed.

Lemma sort_loops_keep_sorted_witness :
  sort_dirs ["out/a/b"; "out/a"; "out/c"; "out"] = ["out/a/b"; "out/a"; "out/c"; "out"].
Proof.
  apply (sort_loops_keep_sorted ["out/a/b"; "out/a"; "out/c"; "out"]).
  unfold longest_first. repeat constructor; simpl; lia.
Defined.

(** ** Create: the count, the sources, the nodes *)

Lemma archive_bytes_app tw1 tw2 :
  archive_bytes (tw1 ++ tw2) = (archive_bytes tw1 + archive_bytes tw2)%Z.
Proof. unfold archive_bytes. induction tw1 as [|e tw1 IH]; simpl; lia. Qed.

Lemma tw_Write_last data tw h payload :
  tw_Write data (tw ++ [(h, payload)]) = tw ++ [(h, payload ++ data)].
Proof. unfold tw_Write. by rewrite reverse_snoc, reverse_involutive. Qed.

(** What a node that is added without an error does to the archive and to
    the counter. *)
Lemma writeToArchive_ok GOOS root skip isRelativePath preserve v tw written st :
  writeToArchive GOOS root skip isRelativePath preserve v (tw, written) = (st, None) →
  (st = (tw, written))
  ∨ (∃ h, st = (tw ++ [(h, [])], written))
  ∨ (∃ h, st = (tw ++ [(h, v_data v)], add64 written (Z.of_nat (length (v_data v))))).
Proof.
  unfold writeToArchive, writeFileToArchive, tw_WriteHeader.
  repeat case_match; simplify_eq/=; intros [= <-]; auto.
  all: try (right; left; by eexists).
  all: right; right; rewrite ?tw_Write_last; simpl.
  all: unfold CloseWithErrCapturef in *; repeat case_match; simplify_eq/=.
  all: by eexists.
Qed.

Lemma Walk_count GOOS root skip isRelativePath preserve vs :
  ∀ tw written st,
    written = wrap64 (archive_bytes tw) →
    Walk (writeToArchive GOOS root skip isRelativePath preserve) vs (tw, written)
    = (st, None) →
    st.2 = wrap64 (archive_bytes st.1).
Proof.
  induction vs as [|v vs IH]; intros tw written st Hw; cbn [Walk].
  - by intros [= <-].
  - destruct (writeToArchive _ _ _ _ _ v (tw, written)) as [st1 [e|]] eqn:Hv; [done|].
    apply writeToArchive_ok in Hv as [->|[[h ->]|[h ->]]]; apply IH; subst written.
    + done.
    + rewrite archive_bytes_app. unfold archive_bytes. simpl. f_equal. lia.
    + rewrite add64_wrap64, archive_bytes_app. unfold archive_bytes. simpl. f_equal. lia.
Qed.

Lemma Create_srcs_count GOOS a isRelativePath srcs :
  ∀ st tw n,
    st.2 = wrap64 (archive_bytes st.1) →
    Create_srcs GOOS a srcs isRelativePath st = (tw, (n, None)) →
    n = wrap64 (archive_bytes tw).
Proof.
  induction srcs as [|src srcs IH]; intros [tw0 n0] tw n Hst; simpl in *.
  - by intros [= <- <-].
  - destruct (src_lstat src); [done|].
    destruct (Walk _ _ _) as [[tw1 n1] [e|]] eqn:Hw; [done|].
    apply IH. by apply Walk_count in Hw.
Qed.

(** X3. When Create returns without an error, the count it returns is the
    number of payload bytes in the archive it wrote (as an [int64]). *)
Theorem Create_count_is_payload GOOS a srcs isRelativePath tw n :
  Create GOOS a srcs isRelativePath = (tw, (n, None)) →
  n = wrap64 (archive_bytes tw).
Proof. unfold Create. by apply Create_srcs_count. Qed.

Lemma Create_count_is_payload_witness :
  3%Z = wrap64 (archive_bytes
                  (Create "linux" (New "w" false) [sample2.one_file] false).1).
Proof.
  apply (Create_count_is_payload "linux" (New "w" false) [sample2.one_file] false).
  reflexivity.
Defined.

Lemma Create_srcs_app GOOS a isRelativePath srcs1 srcs2 :
  ∀ st tw n,
    Create_srcs GOOS a srcs1 isRelativePath st = (tw, (n, None)) →
    Create_srcs GOOS a (srcs1 ++ srcs2) isRelativePath st
    = Create_srcs GOOS a srcs2 isRelativePath (tw, n).
Proof.
  induction srcs1 as [|src srcs1 IH]; intros [tw0 n0] tw n; simpl.
  - by intros [= <- <-].
  - destruct (src_lstat src); [done|].
    destruct (Walk _ _ _) as [st1 [e|]]; [done|]. apply IH.
Qed.

Lemma Create_srcs_stop GOOS a isRelativePath srcs1 srcs2 :
  ∀ st tw n e,
    Create_srcs GOOS a srcs1 isRelativePath st = (tw, (n, Some e)) →
    Create_srcs GOOS a (srcs1 ++ srcs2) isRelativePath st = (tw, (n, Some e)).
Proof.
  induction srcs1 as [|src srcs1 IH]; intros [tw0 n0] tw n e; simpl; [done|].
  destruct (src_lstat src); [done|].
  destruct (Walk _ _ _) as [st1 [e1|]]; [done|]. apply IH.
Qed.

(** X4. A source that [os.Lstat] cannot reach ends Create, whatever came
    before it: the archive and the count are those of the sources before it,
    the error wraps [ErrSourceNotReachable], and the sources after it are not
    looked at. *)
Theorem Create_stops_at_unreachable_source GOOS a srcs1 src srcs2 isRelativePath
    tw n err :
  Create GOOS a srcs1 isRelativePath = (tw, (n, None)) →
  src_lstat src = Some err →
  ∃ e, Create GOOS a (srcs1 ++ src :: srcs2) isRelativePath = (tw, (n, Some e))
       ∧ Is e ErrSourceNotReachable = true.
Proof.
  unfold Create. intros H1 Hl. rewrite (Create_srcs_app _ _ _ _ _ _ _ _ H1).
  simpl. rewrite Hl. by eexists.
Qed.

Lemma Create_stops_at_unreachable_source_witness :
  ∃ e, Create "linux" (New "w" false)
         ([sample2.one_file] ++ sample2.missing :: [sample.failing_copy]) false
       = ((Create "linux" (New "w" false) [sample2.one_file] false).1, (3%Z, Some e))
       ∧ Is e ErrSourceNotReachable = true.
Proof.
  apply (Create_stops_at_unreachable_source "linux" (New "w" false) [sample2.one_file]
           sample2.missing [sample.failing_copy] false _ 3%Z
           (ErrNew "lstat gone: no such file or directory")); reflexivity.
Defined.

(** X5. The first error ends Create: sources listed after the one that
    failed change neither the archive nor the count nor the error. *)
Theorem Create_first_error_is_final GOOS a srcs1 srcs2 isRelativePath tw n e :
  Create GOOS a srcs1 isRelativePath = (tw, (n, Some e)) →
  Create GOOS a (srcs1 ++ srcs2) isRelativePath = (tw, (n, Some e)).
Proof. unfold Create. apply Create_srcs_stop. Qed.

Lemma Create_first_error_is_final_witness :
  (Create "linux" (New "w" false) ([sample.failing_copy] ++ [sample2.one_file]) false).2.1
  = 3%Z.
Proof.
  by rewrite (Create_first_error_is_final "linux" (New "w" false) [sample.failing_copy]
                [sample2.one_file] false
                (Create "linux" (New "w" false) [sample.failing_copy] false).1 3%Z
                (Wrapf "walk, add all files to archive, %w" []
                   (Wrapf "write file to archive, %w" []
                      (Wrapf "copy the file <%s> data to the tarball, %w" ["w/g"]
                         (ErrNew "read w/g: input/output error"))))).
Defined.

(** X6. With [skipSymlinks] a symbolic link leaves no trace: the callback
    returns nil with the archive and the counter as they were, without
    reading the link or computing a name. *)
Theorem skipped_symlink_leaves_no_trace GOOS root isRelativePath preserve v fi st :
  v_err v = None → v_info v = Some fi →
  os.has (os.Mode fi) os.ModeSymlink = true →
  writeToArchive GOOS root true isRelativePath preserve v st = (st, None).
Proof.
  intros He Hfi Hs. destruct st as [tw written]. unfold writeToArchive.
  rewrite He, Hfi, Hs. unfold tar.FileInfoHeader, tar.header_kind.
  rewrite (symlink_not_regular _ Hs), Hs. by destruct (os.IsDir _).
Qed.

Lemma skipped_symlink_leaves_no_trace_witness :
  writeToArchive "linux" "w" true false true
    (sample.node "w/l" (sample.symlink_info "l") "" None) ([], 0%Z)
  = (([], 0%Z), None).
Proof.
  by apply (skipped_symlink_leaves_no_trace "linux" "w" false true _
              (sample.symlink_info "l")).
Defined.

(** X7. A node that is not a regular file (a directory, a symbolic link, a
    device, a pipe) adds at most its header: no payload follows the header
    and the counter stays. *)
Theorem non_regular_node_no_payload GOOS root skip isRelativePath preserve v fi
    tw written st :
  v_info v = Some fi → os.IsRegular (os.Mode fi) = false →
  writeToArchive GOOS root skip isRelativePath preserve v (tw, written) = (st, None) →
  st.2 = written ∧ (st.1 = tw ∨ ∃ h, st.1 = tw ++ [(h, [])]).
Proof.
  intros Hfi Hr. unfold writeToArchive. rewrite Hfi, Hr.
  repeat case_match; simplify_eq/=; intros [= <-]; simpl; (split; [done|]); auto;
    right; by eexists.
Qed.

Lemma non_regular_node_no_payload_witness :
  (writeToArchive "linux" "" false true false
     (sample.node "w" (sample2.directory_info "w") "" None) ([], 5%Z)).1.2 = 5%Z.
Proof.
  by destruct (non_regular_node_no_payload "linux" "" false true false
                 (sample.node "w" (sample2.directory_info "w") "" None)
                 (sample2.directory_info "w") [] 5%Z
                 (writeToArchive "linux" "" false true false
                    (sample.node "w" (sample2.directory_info "w") "" None) ([], 5%Z)).1
                 eq_refl eq_refl eq_refl) as [H _].
Defined.

(** X8. With [preserveMetadata], on a platform other than Windows, the
    header of a node that is not a symbolic link and has a stat structure is
    written in the PAX format with the owner of the stat structure, and its
    access and change times are both the modification time of the node: the
    access and change times of the stat structure are not used. *)
Theorem preserved_header_fields GOOS root skip isRelativePath v fi stat tw written st :
  not_windows GOOS = true →
  v_info v = Some fi → os.Sys fi = Some stat →
  os.has (os.Mode fi) os.ModeSymlink = false →
  writeToArchive GOOS root skip isRelativePath true v (tw, written) = (st, None) →
  ∃ h payload,
    st.1 = tw ++ [(h, payload)]
    ∧ tar.Format h = tar.FormatPAX
    ∧ tar.Uid h = os.Uid stat ∧ tar.Gid h = os.Gid stat
    ∧ tar.ModTime h = os.ModTime fi
    ∧ tar.AccessTime h = os.ModTime fi
    ∧ tar.ChangeTime h = os.ModTime fi.
Proof.
  intros Hw Hfi Hsys Hs. unfold writeToArchive, writeFileToArchive, tw_WriteHeader.
  rewrite Hfi, Hs. unfold preserve_header. rewrite Hw, Hsys.
  unfold tar.FileInfoHeader.
  destruct (tar.header_kind fi (os.Name fi)) as [e|[[[flag name] lnk] size]];
    [by destruct (v_err v)|].
  repeat case_match; simplify_eq/=; intros [= <-]; simpl;
    rewrite ?tw_Write_last; by do 2 eexists.
Qed.

Lemma preserved_header_fields_witness :
  ∃ h payload,
    (writeToArchive "linux" "w" false false true
       (sample.node "w/f" (sample.regular_info "f" 3) "abc" None) ([], 0%Z)).1.1
    = [] ++ [(h, payload)]
    ∧ tar.Format h = tar.FormatPAX
    ∧ tar.Uid h = 1000%Z ∧ tar.Gid h = 1000%Z
    ∧ tar.ModTime h = 7%Z ∧ tar.AccessTime h = 7%Z ∧ tar.ChangeTime h = 7%Z.
Proof.
  apply (preserved_header_fields "linux" "w" false false
           (sample.node "w/f" (sample.regular_info "f" 3) "abc" None)
           (sample.regular_info "f" 3) sample.stat [] 0%Z); reflexivity.
Defined.

(** X9. A symbolic link that is added to the archive gets the header that
    [createSymlinkHeader] builds, under the name of the entry: type flag
    [TypeSymlink], the text of [os.Readlink] as link name, no payload, and
    the format left open, also when [preserveMetadata] is set. *)
Theorem symlink_node_header GOOS root isRelativePath preserve v fi lnk tw written st :
  v_info v = Some fi →
  os.has (os.Mode fi) os.ModeSymlink = true → os.IsDir (os.Mode fi) = false →
  v_readlink v = inr lnk →
  writeToArchive GOOS root false isRelativePath preserve v (tw, written) = (st, None) →
  ∃ h, st = (tw ++ [(h, [])], written)
       ∧ entry_name root isRelativePath (v_path v) = inr (tar.Name h)
       ∧ tar.Typeflag h = tar.TypeSymlink
       ∧ tar.Linkname h = lnk
       ∧ tar.Format h = tar.FormatUnknown.
Proof.
  intros Hfi Hs Hd Hl. unfold writeToArchive, tw_WriteHeader.
  rewrite Hfi, Hs, (symlink_not_regular _ Hs).
  unfold createSymlinkHeader, tar.FileInfoHeader, tar.header_kind.
  rewrite Hl, (symlink_not_regular _ Hs), Hd, Hs.
  repeat case_match; simplify_eq/=; intros [= <-]. by eexists.
Qed.

Lemma symlink_node_header_witness :
  ∃ h, writeToArchive "linux" "w" false false true
         (sample.node "w/l" (sample.symlink_info "l") "" None) ([], 0%Z)
       = (([] ++ [(h, [])], 0%Z), None)
       ∧ inr (tar.Name h) = entry_name "w" false "w/l" ∧ tar.Linkname h = "target"
       ∧ tar.Format h = tar.FormatUnknown.
Proof.
  destruct (symlink_node_header "linux" "w" false true
              (sample.node "w/l" (sample.symlink_info "l") "" None)
              (sample.symlink_info "l") "target" [] 0%Z
              (writeToArchive "linux" "w" false false true
                 (sample.node "w/l" (sample.symlink_info "l") "" None) ([], 0%Z)).1
              eq_refl eq_refl eq_refl eq_refl eq_refl)
    as (h & Hst & Hn & _ & Hl & Hf).
  exists h. split; [by rewrite <- Hst|]. split; [by rewrite <- Hn|done].
Defined.

(** ** The path normalizer: what it does guarantee *)

Lemma has_prefix_sep s : has_prefix s [Separator] = rooted s.
Proof.
  destruct s as [|c s]; simpl; [done|]. destruct s; simpl; by rewrite andb_true_r.
Qed.

Lemma split_sep_unrooted l : Forall (λ e, rooted e = false) (split_sep l).
Proof.
  induction l as [|c l IH]; simpl; [by repeat constructor|].
  destruct (IsPathSeparator c) eqn:Hc; [by constructor|].
  destruct (split_sep l) as [|e es]; [by repeat constructor|].
  inversion_clear IH. by constructor.
Qed.

Lemma clean_pass_Forall (Q : bytes → Prop) is_rooted es :
  ∀ stack, Forall Q es → Forall Q stack → Forall Q (clean_pass is_rooted es stack).
Proof.
  induction es as [|e es IH]; intros stack Hes Hs; simpl.
  - by apply Forall_rev.
  - inversion_clear Hes.
    repeat case_match; apply IH; try done; repeat constructor; try done;
      by inversion_clear Hs.
Qed.

Lemma join_sep_unrooted es :
  Forall (λ e, e ≠ []) es → Forall (λ e, rooted e = false) es →
  rooted (join_sep es) = false.
Proof.
  destruct es as [|e es]; [done|]. intros Hn Hr.
  inversion_clear Hn. inversion_clear Hr.
  destruct es; [done|]. rewrite join_sep_cons by done. by destruct e.
Qed.

Lemma clean_trimmed_unrooted p : rooted (trim_prefix (clean p) [Separator]) = false.
Proof.
  assert (rooted (join_sep (clean_elems p)) = false) as Hj.
  { apply join_sep_unrooted.
    - by apply clean_pass_nonempty.
    - apply clean_pass_Forall; [apply split_sep_unrooted | done]. }
  unfold trim_prefix. rewrite has_prefix_sep. unfold clean, render.
  destruct (rooted p); simpl.
  - by rewrite drop_0.
  - destruct (clean_elems p) eqn:He; [done|]. by rewrite Hj.
Qed.

(** X10. A name that [relative] returns never begins with a separator: the
    names of the entries that Create derives from a root are not absolute. *)
Theorem relative_name_not_absolute (parent path name : string) :
  relative parent path = inr name → IsAbs name = false.
Proof.
  unfold relative. destruct (Rel parent (Dir path)) as [rel|]; [|done].
  intros [= <-]. unfold IsAbs, HasPrefix, TrimPrefix, Join. rewrite !to_of_bytes.
  change (to_bytes "/") with [Separator]. rewrite has_prefix_sep.
  unfold join2. repeat case_match; try done; apply clean_trimmed_unrooted.
Qed.

Lemma relative_name_not_absolute_witness : IsAbs "../x" = false.
Proof. by apply (relative_name_not_absolute "a/b" "a/x" "../x"). Defined.

Lemma TrimPrefix_length s p :
  HasPrefix s p = true → String.length (TrimPrefix s p) = String.length s - String.length p.
Proof.
  unfold HasPrefix, TrimPrefix, trim_prefix. intros ->.
  by rewrite !String_length_bytes, to_of_bytes, length_drop.
Qed.

Lemma strip_updirs_done fuel :
  ∀ rel, String.length rel ≤ fuel → HasPrefix (strip_updirs fuel rel) "../" = false.
Proof.
  induction fuel as [|fuel IH]; intros rel Hlen; simpl.
  - destruct rel; [done | simpl in Hlen; lia].
  - destruct (HasPrefix rel "../") eqn:Hp; [|done].
    apply IH. rewrite (TrimPrefix_length _ _ Hp). simpl. lia.
Qed.

Lemma has_prefix_split s p : has_prefix s p = true → s = p ++ drop (length p) s.
Proof.
  revert s. induction p as [|c p IH]; intros [|d s]; simpl; try done.
  intros [->%bool_decide_eq_true Hp]%andb_true_iff. f_equal. by apply IH.
Qed.

Lemma of_bytes_app a b : of_bytes (a ++ b) = of_bytes a +:+ of_bytes b.
Proof. induction a as [|c a IH]; simpl; [done|]. by rewrite IH. Qed.

Lemma TrimPrefix_split s p : HasPrefix s p = true → s = p +:+ TrimPrefix s p.
Proof.
  unfold HasPrefix, TrimPrefix, trim_prefix. intros Hp. rewrite Hp.
  rewrite <- (string_of_list_ascii_of_string p) at 1.
  rewrite <- (string_of_list_ascii_of_string s) at 1.
  fold (of_bytes (list_ascii_of_string p)). rewrite <- of_bytes_app.
  unfold of_bytes. f_equal. by apply has_prefix_split.
Qed.

Lemma strip_updirs_suffix fuel :
  ∀ rel, ∃ k, rel = String.concat "" (replicate k "../") +:+ strip_updirs fuel rel.
Proof.
  induction fuel as [|fuel IH]; intros rel; simpl; [by exists 0|].
  destruct (HasPrefix rel "../") eqn:Hp; [|by exists 0].
  destruct (IH (TrimPrefix rel "../")) as [k Hk]. exists (S k).
  rewrite (TrimPrefix_split _ _ Hp) at 1. rewrite Hk at 1.
  by destruct k.
Qed.

(** X11. The loop of [relative] that strips [../] runs to its end within
    the bound given by the length of the text: what it leaves does not begin
    with [../], and it is the text it was given without a number of leading
    [../]. *)
Theorem strip_updirs_complete (rel : string) :
  HasPrefix (strip_updirs (String.length rel) rel) "../" = false
  ∧ ∃ k, rel = String.concat "" (replicate k "../")
               +:+ strip_updirs (String.length rel) rel.
Proof. split; [by apply strip_updirs_done | apply strip_updirs_suffix]. Qed.

(** ** Extract: the stream *)

Lemma Extract_loop_damaged GOOS order a dst items err :
  ∀ w written dirMetadata,
    (Extract_loop GOOS order a dst items (Some err) w written dirMetadata).2.2 ≠ None.
Proof.
  induction items as [|[h data read_err|] items IH]; intros w written dm; cbn [Extract_loop].
  - done.
  - destruct (extract_entry _ _ _ _ _ _ _ _ _) as [w1 [[n e]|[n dm1]]] eqn:He.
    + simpl. by eapply extract_entry_return.
    + apply IH.
  - apply IH.
Qed.

(** X12. Extract never reports success on a stream that ends in a read
    error: whatever the entries before the damage, the error it returns is
    not nil. *)
Theorem damaged_stream_never_succeeds GOOS order a dst r w err :
  t_end r = Some err → (Extract GOOS order a dst r w).2.2 ≠ None.
Proof. unfold Extract. intros ->. apply Extract_loop_damaged. Qed.

Lemma damaged_stream_never_succeeds_witness :
  (Extract "linux" [] sample.plain "out"
     {| t_items := [Entry (sample.header tar.TypeReg "d/f") (to_bytes "abc") None];
        t_end := Some (ErrNew "unexpected EOF") |} sample.fresh).2.2 ≠ None.
Proof. by apply (damaged_stream_never_succeeds _ _ _ _ _ _ (ErrNew "unexpected EOF")). Defined.

Lemma Extract_loop_nil_headers GOOS order a dst stream_end items :
  ∀ w written dirMetadata,
    Extract_loop GOOS order a dst (List.filter has_header items) stream_end w written
      dirMetadata
    = Extract_loop GOOS order a dst items stream_end w written dirMetadata.
Proof.
  induction items as [|[h data read_err|] items IH]; intros w written dm;
    cbn [Extract_loop List.filter has_header].
  - done.
  - destruct (extract_entry _ _ _ _ _ _ _ _ _) as [w1 [res|[n dm1]]]; [done|]. apply IH.
  - apply IH.
Qed.

(** X13. Nil headers in the stream change nothing: Extract on a stream and
    on the same stream without its nil headers leave the same world and
    return the same pair. *)
Theorem nil_headers_are_skipped GOOS order a dst r w :
  Extract GOOS order a dst
    {| t_items := List.filter has_header (t_items r); t_end := t_end r |} w
  = Extract GOOS order a dst r w.
Proof. unfold Extract. apply Extract_loop_nil_headers. Qed.

Lemma range_keys_empty {V} order : range_keys order (∅ : gmap string V) = [].
Proof.
  unfold range_keys. rewrite map_to_list_empty. simpl.
  induction order as [|i order IH]; simpl; [done|]. apply IH.
Qed.

(** X14. An archive without entries restores nothing: Extract returns zero
    bytes and no error and makes no call, with or without
    [preserveMetadata]; the same holds when the stream only has nil
    headers. *)
Theorem empty_archive_restores_nothing GOOS order a dst w k :
  Extract GOOS order a dst {| t_items := replicate k NilHeader; t_end := None |} w
  = (w, (0%Z, None)).
Proof.
  unfold Extract. simpl.
  induction k as [|k IH]; simpl; [|exact IH].
  destruct (preserveMetadata a); [|done].
  unfold flush, flush_order. by rewrite range_keys_empty.
Qed.

(** ** Extract: which calls it makes *)

Lemma only_refl P w : only P w w.
Proof. exists []. split; [|done]. unfold emits. by rewrite app_nil_r. Qed.

Lemma only_trans P w w1 w2 : only P w w1 → only P w1 w2 → only P w w2.
Proof.
  intros (e1 & H1 & F1) (e2 & H2 & F2). exists (e1 ++ e2).
  split; [by eapply emits_trans | by apply Forall_app].
Qed.

Lemma only_one P w w' e : w_log w' = w_log w ++ [e] → P e → only P w w'.
Proof. intros Hl He. exists [e]. split; [done | by constructor]. Qed.

Section Only.

Variable P : event → Prop.
Variable GOOS : string.
Variable preserve : bool.

Hypothesis P_content : ∀ e, is_metadata_call e = false → P e.
Hypothesis P_chmod : preserve = true → ∀ p m, P (EvChmod p m).
Hypothesis P_chtimes : preserve = true → ∀ p a m, P (EvChtimes p a m).
Hypothesis P_chown : preserve = true → not_windows GOOS = true → ∀ p u g, P (EvChown p u g).
Hypothesis P_lchown :
  preserve = true → not_windows GOOS = true → ∀ p u g, P (EvLchown p u g).

Lemma only_MkdirAll path perm w : only P w (sys.MkdirAll path perm w).2.
Proof. eapply only_one; [apply MkdirAll_log | by apply P_content]. Qed.

Lemma only_unlink path w : only P w (unlink path w).2.
Proof.
  eexists. split; [apply unlink_log|].
  destruct (sys.Lstat path w).1; repeat constructor; by apply P_content.
Qed.

Lemma only_restore_metadata h target w :
  preserve = true → only P w (restore_metadata GOOS h target w).
Proof.
  intros Hp. unfold restore_metadata.
  eapply only_trans; [eapply only_trans|].
  - eapply only_one; [apply Chmod_log | by apply P_chmod].
  - eapply only_one; [apply Chtimes_log | by apply P_chtimes].
  - destruct (sumbool_of_bool (not_windows GOOS)) as [Hw|Hw]; rewrite Hw;
      [|apply only_refl].
    eapply only_one; [apply Chown_log | by apply P_chown].
Qed.

Lemma only_apply_dir dirMetadata dir w :
  preserve = true → only P w (apply_dir GOOS dirMetadata dir w).
Proof.
  intros Hp. unfold apply_dir.
  eapply only_trans; [eapply only_trans|].
  - eapply only_one; [apply Chmod_log | by apply P_chmod].
  - eapply only_one; [apply Chtimes_log | by apply P_chtimes].
  - destruct (sumbool_of_bool (not_windows GOOS)) as [Hw|Hw]; rewrite Hw;
      [|apply only_refl].
    eapply only_one; [apply Chown_log | by apply P_chown].
Qed.

Lemma only_flush order dirMetadata w :
  preserve = true → only P w (flush GOOS order dirMetadata w).
Proof.
  intros Hp. unfold flush. generalize (flush_order order dirMetadata).
  intros dirs. revert w. induction dirs as [|dir dirs IH]; intros w; simpl.
  - apply only_refl.
  - eapply only_trans; [by apply only_apply_dir | apply IH].
Qed.

Lemma only_Copy i data read_err w : only P w (sys.Copy i data read_err w).2.
Proof.
  unfold sys.Copy. destruct data as [|c data].
  - eapply only_one; [done | by apply P_content].
  - step_io. case_match; simpl.
    + exists [EvRead (length (c :: data)); EvWrite i (length (take n (c :: data)))].
      unfold emits. simpl. rewrite H0, <- app_assoc. split; [done|].
      repeat constructor; by apply P_content.
    + exists [EvRead (length (c :: data)); EvWrite i (length (c :: data))].
      unfold emits. simpl. rewrite H0, <- app_assoc. split; [done|].
      repeat constructor; by apply P_content.
Qed.

Lemma only_extractRegular h data read_err target w :
  only P w (extractRegular GOOS h data read_err target preserve w).2.
Proof.
  unfold extractRegular.
  pose proof (OpenFile_log target (Z.lor sys.O_CREATE sys.O_RDWR)
                (FileMode_of (tar.Mode h)) w) as Ho.
  destruct (sys.OpenFile _ _ _ w) as [[e|f] w1]; simpl in Ho |- *.
  - eapply only_one; [exact Ho | by apply P_content].
  - pose proof (only_Copy f data read_err w1) as Hc.
    destruct (sys.Copy f data read_err w1) as [[n err] w2]. simpl in Hc.
    assert (only P w w2) as H2.
    { eapply only_trans; [|exact Hc]. eapply only_one; [exact Ho | by apply P_content]. }
    destruct err as [err|].
    + pose proof (Close_log f w2) as Hcl.
      destruct (sys.Close f w2) as [closed w3]. simpl in *.
      eapply only_trans; [exact H2|]. eapply only_one; [exact Hcl | by apply P_content].
    + set (w3 := if preserve then _ else w2).
      assert (only P w2 w3) as H3.
      { subst w3. destruct (sumbool_of_bool preserve) as [Hp|Hp]; rewrite Hp;
          [|apply only_refl].
        by apply only_restore_metadata. }
      pose proof (Close_log f w3) as Hcl.
      destruct (sys.Close f w3) as [closed w4]. simpl in *.
      eapply only_trans; [exact H2|]. eapply only_trans; [exact H3|].
      eapply only_one; [exact Hcl | by apply P_content].
Qed.

Lemma only_extractSymlink h target w :
  only P w (extractSymlink GOOS h target preserve w).2.
Proof.
  unfold extractSymlink.
  pose proof (only_unlink target w) as Hu.
  destruct (unlink target w) as [[e|] w1]; [done|]. simpl in Hu.
  pose proof (Symlink_log (tar.Linkname h) target w1) as Hs.
  destruct (sys.Symlink _ _ w1) as [[e|] w2]; simpl in Hs |- *.
  - eapply only_trans; [exact Hu|]. eapply only_one; [exact Hs | by apply P_content].
  - assert (only P w w2) as H2.
    { eapply only_trans; [exact Hu|]. eapply only_one; [exact Hs | by apply P_content]. }
    destruct (sumbool_of_bool preserve) as [Hp|Hp]; rewrite Hp; [|done].
    destruct (sumbool_of_bool (not_windows GOOS)) as [Hw|Hw]; rewrite Hw; [|done]. simpl.
    eapply only_trans; [exact H2|]. eapply only_one; [apply Lchown_log | by apply P_lchown].
Qed.

Lemma only_extractLink h target w :
  only P w (extractLink GOOS h target preserve w).2.
Proof.
  unfold extractLink.
  pose proof (only_unlink target w) as Hu.
  destruct (unlink target w) as [[e|] w1]; [done|]. simpl in Hu.
  pose proof (Link_log (tar.Linkname h) target w1) as Hs.
  destruct (sys.Link _ _ w1) as [[e|] w2]; simpl in Hs |- *.
  - eapply only_trans; [exact Hu|]. eapply only_one; [exact Hs | by apply P_content].
  - eapply only_trans; [exact Hu|].
    eapply only_trans; [eapply only_one; [exact Hs | by apply P_content]|].
    destruct (sumbool_of_bool preserve) as [Hp|Hp]; rewrite Hp; [|apply only_refl].
    by apply only_restore_metadata.
Qed.

Lemma only_extract_entry a dst h data read_err w written dirMetadata :
  preserveMetadata a = preserve →
  only P w (extract_entry GOOS a dst h data read_err w written dirMetadata).1.
Proof.
  intros Ha. unfold extract_entry. rewrite Ha.
  destruct (entry_target dst h) as [e|target]; [apply only_refl|].
  pose proof (only_MkdirAll (Dir target) defaultDirPermission w) as Hm.
  destruct (sys.MkdirAll (Dir target) _ w) as [[e|] w1]; [done|]. simpl in Hm.
  eapply only_trans; [exact Hm|].
  case_bool_decide.
  { destruct (sumbool_of_bool preserve) as [Hp|Hp]; rewrite Hp.
    - pose proof (only_MkdirAll target defaultDirPermission w1) as Hd.
      by destruct (sys.MkdirAll target _ w1) as [[e|] w2].
    - unfold extractDir.
      pose proof (only_MkdirAll target (FileMode_of (tar.Mode h)) w1) as Hd.
      by destruct (sys.MkdirAll target _ w1) as [[e|] w2]. }
  destruct (is_regular_flag _).
  { pose proof (only_extractRegular h data read_err target w1) as Hr.
    destruct (extractRegular _ _ _ _ _ _ _) as [[n [e|]] w2]; done. }
  case_bool_decide.
  { pose proof (only_extractSymlink h target w1) as Hr.
    destruct (extractSymlink _ _ _ _ _) as [[e|] w2]; done. }
  case_bool_decide.
  { pose proof (only_extractLink h target w1) as Hr.
    destruct (extractLink _ _ _ _ _) as [[e|] w2]; done. }
  case_bool_decide; apply only_refl.
Qed.

Lemma only_Extract_loop order a dst items stream_end :
  preserveMetadata a = preserve →
  ∀ w written dirMetadata,
    only P w (Extract_loop GOOS order a dst items stream_end w written dirMetadata).1.
Proof.
  intros Ha. induction items as [|[h data read_err|] items IH]; intros w written dm;
    cbn [Extract_loop].
  - destruct stream_end; [apply only_refl|]. rewrite Ha.
    destruct (sumbool_of_bool preserve) as [Hp|Hp]; rewrite Hp; [|apply only_refl].
    by apply only_flush.
  - pose proof (only_extract_entry a dst h data read_err w written dm Ha) as He.
    destruct (extract_entry _ _ _ _ _ _ _ _ _) as [w1 [res|[n dm1]]]; [done|].
    eapply only_trans; [exact He | apply IH].
  - apply IH.
Qed.

End Only.

(** X15. Without [preserveMetadata] Extract sets no metadata: none of its
    calls is [Chmod], [Chtimes], [Chown] or [Lchown]. *)
Theorem plain_extract_sets_no_metadata GOOS order a dst r w :
  preserveMetadata a = false →
  ∃ evs, emits w (Extract GOOS order a dst r w).1 evs
         ∧ Forall (λ e, is_metadata_call e = false) evs.
Proof.
  intros Ha. unfold Extract.
  by apply (only_Extract_loop (λ e, is_metadata_call e = false) GOOS false).
Qed.

Lemma plain_extract_sets_no_metadata_witness :
  ∃ evs, emits sample.fresh sample2.restored evs
         ∧ Forall (λ e, is_metadata_call e = false) evs.
Proof.
  by apply (plain_extract_sets_no_metadata "linux" [] sample.plain "out"
              (sample.stream [Entry (sample.header tar.TypeReg "d/f")
                                (to_bytes "a longer old text") None])
              sample.fresh).
Defined.

(** X16. On Windows Extract never sets an owner: none of its calls is
    [Chown] or [Lchown], with or without [preserveMetadata]. *)
Theorem windows_extract_sets_no_owner order a dst r w :
  ∃ evs, emits w (Extract "windows" order a dst r w).1 evs
         ∧ Forall (λ e, is_owner_call e = false) evs.
Proof.
  unfold Extract.
  apply (only_Extract_loop (λ e, is_owner_call e = false) "windows" (preserveMetadata a));
    try done.
  by intros [].
Qed.

(** ** Regular files: what is on disk afterwards *)

Lemma OpenFile_fresh target perm w k :
  w_io w = [] →
  sys.stat_key (w_fs w) (sys.key target) = inr (k, None) →
  sys.is_dir (w_fs w) (Dir k) = true →
  sys.OpenFile target (Z.lor sys.O_CREATE sys.O_RDWR) perm w
  = (inr (next_ino (w_fs w)),
     sys.set_fs (sys.add_inode k {| i_body := BFile []; i_meta := sys.new_meta perm |}
                   (w_fs w))
       (sys.record (EvOpenFile target (Z.lor sys.O_CREATE sys.O_RDWR) perm) w)).
Proof.
  intros Hio Hst Hd. unfold sys.OpenFile, sys.next_io. simpl. rewrite Hio. simpl.
  rewrite Hst, Hd. simpl. unfold sys.record, sys.set_fs. simpl. by rewrite Hio.
Qed.

Lemma Copy_names i data read_err w :
  names (w_fs (sys.Copy i data read_err w).2) = names (w_fs w).
Proof.
  unfold sys.Copy. destruct data as [|c data]; [done|].
  step_io. case_match; simpl; unfold sys.write_inode; repeat case_match; simpl; congruence.
Qed.

Lemma Close_quiet i w :
  w_io w = [] → (sys.Close i w).1 = None ∧ w_fs (sys.Close i w).2 = w_fs w.
Proof. intros Hio. unfold sys.Close, sys.next_io. simpl. by rewrite Hio. Qed.

(** [extractRegular] once the file is open, when no call fails. *)
Lemma extractRegular_opened GOOS h data target preserve w i old w1 :
  sys.OpenFile target (Z.lor sys.O_CREATE sys.O_RDWR) (FileMode_of (tar.Mode h)) w
  = (inr i, w1) →
  w_io w1 = [] → sys.body_of (w_fs w1) i = Some (BFile old) →
  (extractRegular GOOS h data None target preserve w).1 = (Z.of_nat (length data), None)
  ∧ names (w_fs (extractRegular GOOS h data None target preserve w).2) = names (w_fs w1)
  ∧ sys.body_of (w_fs (extractRegular GOOS h data None target preserve w).2) i
    = Some (BFile (sys.overwrite data old)).
Proof.
  intros Hopen. unfold extractRegular. rewrite Hopen.
  intros Hio Hb.
  destruct (Copy_whole i data w1 old Hio Hb) as (Hres & Hio2 & Hb2).
  pose proof (Copy_names i data None w1) as Hn2.
  destruct (sys.Copy i data None w1) as [[n err] w2]. simpl in Hres, Hio2, Hb2, Hn2.
  injection Hres as -> ->.
  set (w3 := if preserve then _ else w2).
  assert (w_io w3 = [] ∧ names (w_fs w3) = names (w_fs w2)
          ∧ sys.body_of (w_fs w3) i = Some (BFile (sys.overwrite data old)))
    as (Hio3 & Hn3 & Hb3).
  { subst w3. destruct preserve; [|done].
    destruct (restore_metadata_same GOOS h target w2) as [(Hn & _ & Hb') Hi].
    split; [congruence|]. split; [done|]. by rewrite Hb'. }
  destruct (Close_quiet i w3 Hio3) as [Hc Hf].
  destruct (sys.Close i w3) as [closed w4]. simpl in Hc, Hf. subst closed. simpl.
  rewrite Hf. split; [done|]. split; [congruence|done].
Qed.

(** X17. A regular entry whose target does not exist yet, in a directory
    that does, and with no failing call: [extractRegular] returns the length
    of the payload and no error, and the target then names a new file whose
    content is exactly the payload. *)
Theorem extractRegular_creates_file GOOS h data target preserve w k :
  w_io w = [] →
  sys.stat_key (w_fs w) (sys.key target) = inr (k, None) →
  sys.is_dir (w_fs w) (Dir k) = true →
  (extractRegular GOOS h data None target preserve w).1 = (Z.of_nat (length data), None)
  ∧ sys.find_inode (w_fs (extractRegular GOOS h data None target preserve w).2) k
    = Some (next_ino (w_fs w), BFile data).
Proof.
  intros Hio Hst Hd.
  pose proof (OpenFile_fresh target (FileMode_of (tar.Mode h)) w k Hio Hst Hd) as Hopen.
  set (w1 := sys.set_fs _ _) in Hopen.
  assert (sys.body_of (w_fs w1) (next_ino (w_fs w)) = Some (BFile [])) as Hb.
  { unfold sys.body_of. simpl. by rewrite lookup_insert_eq. }
  destruct (extractRegular_opened GOOS h data target preserve w _ [] w1 Hopen Hio Hb)
    as (Hr & Hn & Hb').
  split; [exact Hr|]. unfold sys.find_inode. rewrite Hn. simpl.
  rewrite lookup_insert_eq. simpl. rewrite Hb'. unfold sys.overwrite.
  by rewrite drop_nil, app_nil_r.
Qed.

Lemma extractRegular_creates_file_witness :
  let w := (sys.MkdirAll "out/d" 493%Z sample.fresh).2 in
  sys.find_inode
    (w_fs (extractRegular "linux" (sample.header tar.TypeReg "d/f") (to_bytes "hello")
             None "out/d/f" false w).2) "out/d/f"
  = Some (3, BFile (to_bytes "hello")).
Proof.
  intros w.
  destruct (extractRegular_creates_file "linux" (sample.header tar.TypeReg "d/f")
                 (to_bytes "hello") "out/d/f" false w "out/d/f"
                 eq_refl eq_refl eq_refl) as [_ H].
  exact H.
Defined.

Lemma stat_key_find f key k i b :
  sys.stat_key f key = inr (k, Some (i, b)) → sys.find_inode f k = Some (i, b).
Proof.
  unfold sys.stat_key. destruct (sys.resolve _ _ _) as [k'|]; [|done]. by intros [= -> ->].
Qed.

(** X18. A regular entry whose target is an existing file, with no failing
    call: the file keeps its inode, so every other name of the file sees the
    change, and its content is the payload written over the start of the old
    content; what the old content had beyond the length of the payload
    stays. *)
Theorem extractRegular_writes_in_place GOOS h data target preserve w k i old :
  w_io w = [] →
  sys.stat_key (w_fs w) (sys.key target) = inr (k, Some (i, BFile old)) →
  (extractRegular GOOS h data None target preserve w).1 = (Z.of_nat (length data), None)
  ∧ sys.find_inode (w_fs (extractRegular GOOS h data None target preserve w).2) k
    = Some (i, BFile (data ++ drop (length data) old)).
Proof.
  intros Hio Hst.
  destruct (extractRegular_opened GOOS h data target preserve w i old _
              (OpenFile_existing target _ w k i old Hio Hst) Hio
              (stat_key_body _ _ _ _ _ Hst)) as (Hr & Hn & Hb').
  split; [exact Hr|]. apply stat_key_find in Hst.
  unfold sys.find_inode in *. rewrite Hn. simpl.
  destruct (names (w_fs w) !! k) as [j|]; simpl in *; [|done].
  destruct (sys.body_of (w_fs w) j); simpl in Hst; [|done].
  injection Hst as -> ->. by rewrite Hb'.
Qed.

Lemma extractRegular_writes_in_place_witness :
  sys.find_inode
    (w_fs (extractRegular "linux" (sample.header tar.TypeReg "d/f") (to_bytes "new")
             None "out/d/f" true sample2.restored).2) "out/d/f"
  = Some (3, BFile (to_bytes "newonger old text")).
Proof.
  destruct (extractRegular_writes_in_place "linux" (sample.header tar.TypeReg "d/f")
                 (to_bytes "new") "out/d/f" true sample2.restored "out/d/f" 3
                 (to_bytes "a longer old text") eq_refl eq_refl) as [_ H].
  exact H.
Defined.

(** ** Links: what is on disk afterwards *)

Lemma Link_ok o n w w' :
  sys.Link o n w = (None, w') →
  ∃ i b, sys.find_inode (w_fs w) (sys.key o) = Some (i, b) ∧ b ≠ BDir
         ∧ names (w_fs w') = <[sys.key n := i]> (names (w_fs w))
         ∧ inodes (w_fs w') = inodes (w_fs w).
Proof.
  unfold sys.Link. step_io. simpl in *.
  repeat case_match; intros [= <-]; simplify_eq/=;
    do 2 eexists; (split; [by rewrite <- H|]); by repeat split; try congruence.
Qed.

(** X19. A hard-link entry that is restored without an error: the target
    and the link name of the header, taken as it stands (it is not placed
    under the destination), then name one and the same inode, which is not
    a directory. *)
Theorem hard_link_shares_inode GOOS h target preserve w w' :
  extractLink GOOS h target preserve w = (None, w') →
  ∃ i b, sys.find_inode (w_fs w') (sys.key target) = Some (i, b)
         ∧ sys.find_inode (w_fs w') (sys.key (tar.Linkname h)) = Some (i, b)
         ∧ b ≠ BDir.
Proof.
  unfold extractLink. destruct (unlink target w) as [[e|] w1]; [done|].
  destruct (sys.Link (tar.Linkname h) target w1) as [[e|] w2] eqn:Hl; [done|].
  intros [= <-]. apply Link_ok in Hl as (i & b & Hf & Hb & Hn & Hi).
  exists i, b.
  assert (sys.find_inode (w_fs w2) (sys.key target) = Some (i, b)
          ∧ sys.find_inode (w_fs w2) (sys.key (tar.Linkname h)) = Some (i, b)) as [H1 H2].
  { unfold sys.find_inode, sys.body_of in *. rewrite Hn, Hi.
    destruct (names (w_fs w1) !! sys.key (tar.Linkname h)) as [j|] eqn:Hj;
      simpl in Hf; [|done].
    destruct (inodes (w_fs w1) !! j) as [nd|] eqn:Hnd; simpl in Hf; [|done].
    injection Hf as -> <-. split.
    - rewrite lookup_insert_eq. simpl. by rewrite Hnd.
    - destruct (decide (sys.key target = sys.key (tar.Linkname h))) as [->|Hne].
      + rewrite lookup_insert_eq. simpl. by rewrite Hnd.
      + rewrite lookup_insert_ne by done. rewrite Hj. simpl. by rewrite Hnd. }
  destruct preserve; [|done].
  destruct (restore_metadata_same GOOS h target w2) as [Ht _].
  by rewrite !(find_inode_same _ _ Ht).
Qed.

Lemma hard_link_shares_inode_witness :
  ∃ i b,
    sys.find_inode
      (w_fs (extractLink "linux" (sample.link_header tar.TypeLink "d/h" "out/d/f")
               "out/d/h" true sample2.restored).2) "out/d/h" = Some (i, b)
    ∧ sys.find_inode
        (w_fs (extractLink "linux" (sample.link_header tar.TypeLink "d/h" "out/d/f")
                 "out/d/h" true sample2.restored).2) "out/d/f" = Some (i, b)
    ∧ b ≠ BDir.
Proof.
  apply (hard_link_shares_inode "linux"
           (sample.link_header tar.TypeLink "d/h" "out/d/f") "out/d/h" true
           sample2.restored). reflexivity.
Defined.

Lemma Lstat_present path w b :
  w_io w = [] → sys.lookup_key (w_fs w) (sys.key path) = Some b →
  sys.Lstat path w = (None, sys.record (EvLstat path) w).
Proof.
  intros Hio Hb. unfold sys.Lstat, sys.next_io. simpl. rewrite Hio. simpl.
  rewrite Hb. unfold sys.record. by rewrite Hio.
Qed.

(** X20. [unlink] on a path that names something other than a directory
    with entries, with no failing call: the name is removed from the tree
    (nothing else changes) after one [Lstat] and one [Remove]. *)
Theorem unlink_removes_entry path w b :
  w_io w = [] →
  sys.lookup_key (w_fs w) (sys.key path) = Some b →
  (b = BDir → sys.has_children (w_fs w) (sys.key path) = false) →
  (unlink path w).1 = None
  ∧ w_fs (unlink path w).2 = sys.unlink_name (sys.key path) (w_fs w)
  ∧ emits w (unlink path w).2 [EvLstat path; EvRemove path].
Proof.
  intros Hio Hb Hc. unfold unlink. rewrite (Lstat_present path w b Hio Hb).
  unfold sys.Remove, sys.next_io, emits. simpl. rewrite Hio. simpl. rewrite Hb.
  destruct b; simpl; rewrite ?Hc by done; simpl; rewrite <- app_assoc; done.
Qed.

Lemma unlink_removes_entry_witness :
  names (w_fs (unlink "out/d/f" sample2.restored).2) !! "out/d/f" = None.
Proof.
  destruct (unlink_removes_entry "out/d/f" sample2.restored
              (BFile (to_bytes "a longer old text")) eq_refl eq_refl) as (_ & Hf & _).
  - done.
  - rewrite Hf. reflexivity.
Defined.

(** X21. A link cannot take the place of a directory that has entries:
    when the target of a symbolic-link or hard-link entry is such a
    directory and no call fails for another reason, the removal fails, the
    entry fails with the error of the removal, and the tree stays as it
    was. *)
Theorem link_over_full_directory_fails GOOS h target preserve w :
  w_io w = [] →
  sys.lookup_key (w_fs w) (sys.key target) = Some BDir →
  sys.has_children (w_fs w) (sys.key target) = true →
  let e := Wrapf "unlink <%s>, %w" [target] (PathError "remove" target ENOTEMPTY) in
  (extractSymlink GOOS h target preserve w).1 = Some e
  ∧ (extractLink GOOS h target preserve w).1 = Some e
  ∧ w_fs (extractSymlink GOOS h target preserve w).2 = w_fs w
  ∧ w_fs (extractLink GOOS h target preserve w).2 = w_fs w.
Proof.
  intros Hio Hb Hc.
  assert (unlink target w
          = (Some (PathError "remove" target ENOTEMPTY),
             sys.record (EvRemove target) (sys.record (EvLstat target) w))) as Hu.
  { unfold unlink. rewrite (Lstat_present target w BDir Hio Hb).
    unfold sys.Remove, sys.next_io. simpl. rewrite Hio. simpl. rewrite Hb, Hc.
    unfold sys.record. simpl. by rewrite Hio. }
  unfold extractSymlink, extractLink. rewrite Hu. done.
Qed.

Lemma link_over_full_directory_fails_witness :
  (extractSymlink "linux" (sample.link_header tar.TypeSymlink "d" "elsewhere") "out/d"
     false sample2.restored).1
  = Some (Wrapf "unlink <%s>, %w" ["out/d"] (PathError "remove" "out/d" ENOTEMPTY)).
Proof.
  destruct (link_over_full_directory_fails "linux"
              (sample.link_header tar.TypeSymlink "d" "elsewhere") "out/d" false
              sample2.restored eq_refl eq_refl eq_refl) as (H & _).
  exact H.
Defined.

(** ** The platform helpers and the engine *)

(** X22. The blocks of the engine that apply metadata do what the platform
    helpers do: on a file, [applyFileMetadata] (mode, times with the access
    time falling back to the modification time, owner), on a pending
    directory, [applyDirMetadata] with the fields of its record, on a
    restored symbolic link, [applySymlinkMetadata]; each in the build for
    the platform, so that on Windows no owner is set. *)
Theorem engine_matches_platform_helpers GOOS h target dirMetadata dir w :
  let unix_build := not_windows GOOS in
  restore_metadata GOOS h target w
  = (if unix_build then unix.applyFileMetadata else windows.applyFileMetadata) target h w
  ∧ apply_dir GOOS dirMetadata dir w
    = (let m := default {| mode := 0%Z; at_ := 0%Z; mt := 0%Z; uid := 0%Z; gid := 0%Z |}
                  (dirMetadata !! dir) in
       (if unix_build then unix.applyDirMetadata else windows.applyDirMetadata)
         dir (mode m) (at_ m) (mt m) (uid m) (gid m) w)
  ∧ ∀ w1 w2,
      unlink target w = (None, w1) →
      sys.Symlink (tar.Linkname h) target w1 = (None, w2) →
      extractSymlink GOOS h target true w
      = (None, (if unix_build then unix.applySymlinkMetadata
                else windows.applySymlinkMetadata) target h w2).
Proof.
  intros unix_build. subst unix_build. split; [|split].
  - unfold restore_metadata, unix.applyFileMetadata, windows.applyFileMetadata.
    destruct (not_windows GOOS), (IsZero (tar.AccessTime h)); done.
  - unfold apply_dir, unix.applyDirMetadata, windows.applyDirMetadata.
    by destruct (not_windows GOOS).
  - intros w1 w2 Hu Hs. unfold extractSymlink. rewrite Hu, Hs.
    by destruct (not_windows GOOS).
Qed.

Lemma engine_matches_platform_helpers_witness :
  extractSymlink "linux" (sample.link_header tar.TypeSymlink "l" "f") "out/l" true
    (sys.MkdirAll "out" 493%Z sample.fresh).2
  = (None,
     unix.applySymlinkMetadata "out/l" (sample.link_header tar.TypeSymlink "l" "f")
       (sys.Symlink "f" "out/l"
          (unlink "out/l" (sys.MkdirAll "out" 493%Z sample.fresh).2).2).2).
Proof.
  destruct (engine_matches_platform_helpers "linux"
              (sample.link_header tar.TypeSymlink "l" "f") "out/l" ∅ "out"
              (sys.MkdirAll "out" 493%Z sample.fresh).2) as (_ & _ & H).
  apply (H (unlink "out/l" (sys.MkdirAll "out" 493%Z sample.fresh).2).2); reflexivity.
Defined.

(** ** Entries that restore nothing *)

(** X23. A global extended header restores nothing, and its payload is not
    read; but like every entry it has the parent directory of its name
    created below the destination first, and a failure of that ends Extract
    with the count zero. *)
Theorem global_header_only_makes_parent GOOS a dst h data read_err w written
    dirMetadata target :
  tar.Typeflag h = tar.TypeXGlobalHeader →
  entry_target dst h = inr target →
  extract_entry GOOS a dst h data read_err w written dirMetadata
  = ((sys.MkdirAll (Dir target) defaultDirPermission w).2,
     match (sys.MkdirAll (Dir target) defaultDirPermission w).1 with
     | Some err => inl (0%Z, Some (Wrapf "ensure directory <%s>, %w" [target] err))
     | None => inr (written, dirMetadata)
     end).
Proof.
  intros Hf Ht. unfold extract_entry. rewrite Ht, Hf.
  by destruct (sys.MkdirAll (Dir target) defaultDirPermission w) as [[e|] w1].
Qed.

Lemma global_header_only_makes_parent_witness :
  w_log (extract_entry "linux" sample.plain "out"
           (sample.header tar.TypeXGlobalHeader "sub/pax_global_header")
           (to_bytes "comment=x") None sample.fresh 0%Z ∅).1
  = [EvMkdirAll "out/sub" 493%Z].
Proof.
  by rewrite (global_header_only_makes_parent "linux" sample.plain "out"
                (sample.header tar.TypeXGlobalHeader "sub/pax_global_header")
                (to_bytes "comment=x") None sample.fresh 0%Z ∅
                "out/sub/pax_global_header" eq_refl eq_refl).
Defined.

(** ** The Cloud Storage backend *)

Lemma List_loop_spec b p objects done :
  ∀ entries,
    gcs.List_loop b p objects done entries
    = match done with
      | None =>
          (entries ++ map (λ attrs, {| common.Path := gcs.Name attrs;
                                       common.Size := gcs.Size attrs;
                                       common.LastModified := gcs.Updated attrs |})
                          objects,
           None)
      | Some err =>
          ([], Some (Errorf "failed to iterate objects present at path %s/%s with err: %v"
                       [gcs.bucket b; p; Error err]))
      end.
Proof.
  induction objects as [|attrs objects IH]; intros entries; simpl.
  - destruct done; [done|]. by rewrite app_nil_r.
  - rewrite IH. destruct done; [done|]. by rewrite <- app_assoc.
Qed.

(** X24. [List] is all or nothing.  When the iterator runs to its end, the
    result has one entry for every object, in the order of the iterator,
    with the name, size and update time of the object.  When the iterator
    fails, also after it has delivered objects, the result has no entry, and
    the error only quotes the failure: it wraps nothing. *)
Theorem List_all_or_nothing (b : gcs.Backend) (p : string) (it : gcs.ObjectIterator) :
  match gcs.it_end it with
  | None =>
      gcs.List b p it
      = (map (λ attrs, {| common.Path := gcs.Name attrs; common.Size := gcs.Size attrs;
                          common.LastModified := gcs.Updated attrs |})
             (gcs.it_objects it), None)
  | Some err =>
      ∃ e, gcs.List b p it = ([], Some e) ∧ ∀ cause, Is e cause = true → cause = e
  end.
Proof.
  unfold gcs.List. rewrite List_loop_spec. destruct (gcs.it_end it) as [err|]; [|done].
  eexists. split; [done|]. intros cause. simpl. rewrite orb_false_r.
  by intros ->%bool_decide_eq_true.
Qed.

(** ** The byte count of an extraction without faults *)

Ltac quiet_solve Hio :=
  unfold sys.next_io; simpl; rewrite Hio; simpl; repeat case_match; simpl; done.

Lemma MkdirAll_quiet path perm w : w_io w = [] → w_io (sys.MkdirAll path perm w).2 = [].
Proof. intros Hio. unfold sys.MkdirAll. quiet_solve Hio. Qed.

Lemma Lstat_quiet path w : w_io w = [] → w_io (sys.Lstat path w).2 = [].
Proof. intros Hio. unfold sys.Lstat. quiet_solve Hio. Qed.

Lemma Remove_quiet path w : w_io w = [] → w_io (sys.Remove path w).2 = [].
Proof. intros Hio. unfold sys.Remove. quiet_solve Hio. Qed.

Lemma Symlink_quiet o n w : w_io w = [] → w_io (sys.Symlink o n w).2 = [].
Proof. intros Hio. unfold sys.Symlink. quiet_solve Hio. Qed.

Lemma Link_quiet o n w : w_io w = [] → w_io (sys.Link o n w).2 = [].
Proof. intros Hio. unfold sys.Link. quiet_solve Hio. Qed.

Lemma OpenFile_quiet path flag perm w :
  w_io w = [] → w_io (sys.OpenFile path flag perm w).2 = [].
Proof. intros Hio. unfold sys.OpenFile. quiet_solve Hio. Qed.

Lemma Copy_quiet i data read_err w :
  w_io w = [] →
  w_io (sys.Copy i data read_err w).2 = []
  ∧ (sys.Copy i data read_err w).1 = (Z.of_nat (length data), read_err).
Proof.
  intros Hio. unfold sys.Copy, sys.next_io. destruct data as [|c data]; simpl; [done|].
  by rewrite Hio.
Qed.

Lemma unlink_quiet path w : w_io w = [] → w_io (unlink path w).2 = [].
Proof.
  intros Hio. unfold unlink. pose proof (Lstat_quiet path w Hio) as Hl.
  destruct (sys.Lstat path w) as [[e|] w1]; simpl in *; [done|]. by apply Remove_quiet.
Qed.

Lemma restore_metadata_quiet GOOS h target (preserve : bool) w :
  w_io w = [] → w_io (if preserve then restore_metadata GOOS h target w else w) = [].
Proof.
  intros Hio. destruct preserve; [|done].
  destruct (restore_metadata_same GOOS h target w) as [_ Hi]. congruence.
Qed.

Lemma extractRegular_quiet GOOS h data read_err target preserve w n w' :
  w_io w = [] →
  extractRegular GOOS h data read_err target preserve w = ((n, None), w') →
  w_io w' = [] ∧ n = Z.of_nat (length data).
Proof.
  intros Hio. unfold extractRegular.
  pose proof (OpenFile_quiet target (Z.lor sys.O_CREATE sys.O_RDWR)
                (FileMode_of (tar.Mode h)) w Hio) as Ho.
  destruct (sys.OpenFile _ _ _ w) as [[e|f] w1]; simpl in Ho; [done|].
  destruct (Copy_quiet f data read_err w1 Ho) as [Hc Hr].
  destruct (sys.Copy f data read_err w1) as [[k err] w2]. simpl in Hc, Hr.
  injection Hr as -> ->.
  destruct read_err as [err|].
  - destruct (sys.Close f w2) as [[c|] w3]; done.
  - pose proof (restore_metadata_quiet GOOS h target preserve w2 Hc) as Hm.
    destruct (Close_quiet f _ Hm) as [Hcl _].
    unfold sys.Close, sys.next_io in *. simpl in *. rewrite Hm in *. simpl.
    by intros [= <- <-].
Qed.

Lemma extract_entry_quiet GOOS a dst h data read_err w written dirMetadata w' n dm' :
  w_io w = [] →
  extract_entry GOOS a dst h data read_err w written dirMetadata = (w', inr (n, dm')) →
  w_io w' = []
  ∧ n = if is_regular_flag (tar.Typeflag h)
        then add64 written (Z.of_nat (length data)) else written.
Proof.
  intros Hio. unfold extract_entry.
  destruct (entry_target dst h) as [e|target]; [done|].
  pose proof (MkdirAll_quiet (Dir target) defaultDirPermission w Hio) as Hm.
  destruct (sys.MkdirAll (Dir target) _ w) as [[e|] w1]; [done|]. simpl in Hm.
  case_bool_decide as Hd.
  { rewrite Hd. change (is_regular_flag tar.TypeDir) with false.
    destruct (preserveMetadata a).
    - pose proof (MkdirAll_quiet target defaultDirPermission w1 Hm) as H2.
      destruct (sys.MkdirAll target _ w1) as [[e|] w2]; [done|]. by intros [= <- <- <-].
    - unfold extractDir.
      pose proof (MkdirAll_quiet target (FileMode_of (tar.Mode h)) w1 Hm) as H2.
      destruct (sys.MkdirAll target _ w1) as [[e|] w2]; [done|]. by intros [= <- <- <-]. }
  destruct (is_regular_flag (tar.Typeflag h)).
  { destruct (extractRegular _ _ _ _ _ _ w1) as [[k [e|]] w2] eqn:Hr; [done|].
    apply extractRegular_quiet in Hr as [H2 ->]; [|done]. by intros [= <- <- <-]. }
  case_bool_decide.
  { unfold extractSymlink.
    pose proof (unlink_quiet target w1 Hm) as Hu.
    destruct (unlink target w1) as [[e|] w2]; [done|]. simpl in Hu.
    pose proof (Symlink_quiet (tar.Linkname h) target w2 Hu) as Hs.
    destruct (sys.Symlink _ _ w2) as [[e|] w3]; [done|]. simpl in Hs.
    destruct (preserveMetadata a && not_windows GOOS); intros [= <- <- <-];
      (split; [|done]); [|done].
    simpl. unfold sys.Lchown.
    destruct (update_meta_same false (sys.set_owner (tar.Uid h) (tar.Gid h)) "lchown"
                target (sys.record (EvLchown target (tar.Uid h) (tar.Gid h)) w3))
      as (_ & Hi & _).
    by rewrite Hi. }
  case_bool_decide.
  { unfold extractLink.
    pose proof (unlink_quiet target w1 Hm) as Hu.
    destruct (unlink target w1) as [[e|] w2]; [done|]. simpl in Hu.
    pose proof (Link_quiet (tar.Linkname h) target w2 Hu) as Hs.
    destruct (sys.Link _ _ w2) as [[e|] w3]; [done|]. simpl in Hs.
    intros [= <- <- <-]. split; [|done]. by apply restore_metadata_quiet. }
  case_bool_decide; [|done]. by intros [= <- <- <-].
Qed.

Lemma Extract_loop_quiet GOOS order a dst items :
  ∀ w B dirMetadata w' n,
    w_io w = [] →
    Extract_loop GOOS order a dst items None w (wrap64 B) dirMetadata = (w', (n, None)) →
    n = wrap64 (B + regular_payload items).
Proof.
  induction items as [|[h data read_err|] items IH]; intros w B dm w' n Hio;
    cbn [Extract_loop regular_payload].
  - intros [= _ <-]. f_equal. lia.
  - destruct (extract_entry _ _ _ _ _ _ _ _ _) as [w1 [[k e]|[k dm1]]] eqn:He.
    + intros [= ? ? ?]; subst. by apply extract_entry_return in He.
    + apply extract_entry_quiet in He as [H1 ->]; [|done].
      destruct (is_regular_flag _).
      * rewrite add64_wrap64. intros Hl. apply IH in Hl; [|done]. rewrite Hl.
        f_equal; lia.
      * intros Hl. apply IH in Hl; [|done]. rewrite Hl. f_equal; lia.
  - by apply IH.
Qed.

(** X25. When no call of the operating system is scheduled to fail and
    Extract returns without an error, the count it returns is the total
    length of the payloads of the entries it restored as regular files
    (as an [int64]); directories, links and global headers add nothing. *)
Theorem Extract_count_is_payload GOOS order a dst r w n :
  w_io w = [] →
  (Extract GOOS order a dst r w).2 = (n, None) →
  n = wrap64 (regular_payload (t_items r)).
Proof.
  intros Hio. unfold Extract.
  destruct (Extract_loop _ _ _ _ _ _ _ _ _) as [w' [k e]] eqn:Hl. simpl.
  intros [= -> ->]. destruct r as [items [err|]]; simpl in *.
  - by pose proof (Extract_loop_damaged GOOS order a dst items err w 0%Z ∅) as Hd;
      rewrite Hl in Hd.
  - by apply (Extract_loop_quiet _ _ _ _ _ _ 0%Z _ _ _ Hio) in Hl.
Qed.

Lemma Extract_count_is_payload_witness :
  6%Z = wrap64 (regular_payload
                  [Entry (sample.header tar.TypeDir "d") (to_bytes "ignored") None;
                   Entry (sample.header tar.TypeReg "d/g") (to_bytes "second") None]).
Proof.
  apply (Extract_count_is_payload "linux" [] sample.preserving "out"
           (sample.stream [Entry (sample.header tar.TypeDir "d") (to_bytes "ignored") None;
                           Entry (sample.header tar.TypeReg "d/g") (to_bytes "second") None])
           sample.fresh); reflexivity.
Defined.

(** ** What a restored entry leaves at its target *)

Lemma ancestors_last fuel :
  ∀ k acc, ∃ pre, sys.ancestors fuel k acc = pre ++ k :: acc.
Proof.
  induction fuel as [|fuel IH]; intros k acc; simpl; [by exists []|].
  case_bool_decide; [by exists []|].
  destruct (IH (Dir k) (k :: acc)) as [pre ->]. exists (pre ++ [Dir k]).
  by rewrite <- app_assoc.
Qed.

Lemma mkdir_chain_app perm l1 l2 :
  ∀ f, sys.mkdir_chain perm (l1 ++ l2) f
       = match sys.mkdir_chain perm l1 f with
         | inl e => inl e
         | inr f1 => sys.mkdir_chain perm l2 f1
         end.
Proof.
  induction l1 as [|k l1 IH]; intros f; simpl; [done|].
  destruct (sys.stat_key f k) as [e|[k' [[i []]|]]]; try done.
  case_bool_decide; [apply IH|done].
Qed.

Lemma is_dir_add_inode k m f :
  sys.is_dir (sys.add_inode k {| i_body := BDir; i_meta := m |} f) k = true.
Proof.
  assert (sys.find_inode (sys.add_inode k {| i_body := BDir; i_meta := m |} f) k
          = Some (next_ino f, BDir)) as Hf.
  { unfold sys.find_inode, sys.body_of. simpl. rewrite lookup_insert_eq. simpl.
    rewrite lookup_insert_eq. reflexivity. }
  unfold sys.is_dir, sys.stat_key, sys.max_links.
  assert (sys.resolve (sys.add_inode k {| i_body := BDir; i_meta := m |} f) 40 k = Some k)
    as ->.
  { simpl. unfold sys.lookup_key. rewrite Hf. reflexivity. }
  rewrite Hf. reflexivity.
Qed.

(** After a successful [os.MkdirAll] the path is a directory. *)
Lemma MkdirAll_ok path perm w w' :
  sys.MkdirAll path perm w = (None, w') → sys.is_dir (w_fs w') (sys.key path) = true.
Proof.
  unfold sys.MkdirAll. step_io. simpl in *.
  destruct o; [done|].
  destruct (ancestors_last (String.length (sys.key path)) (sys.key path) []) as [pre ->].
  rewrite mkdir_chain_app.
  destruct (sys.mkdir_chain perm pre (w_fs w0)) as [e|f1]; [done|].
  simpl. destruct (sys.stat_key f1 (sys.key path)) as [e|[k' [[i b]|]]] eqn:Hst; [done| |].
  - destruct b; try done. intros [= <-]. simpl. unfold sys.is_dir. by rewrite Hst.
  - case_bool_decide; [|done]. intros [= <-]. simpl. apply is_dir_add_inode.
Qed.

Lemma OpenFile_ok path perm w i w' :
  sys.OpenFile path (Z.lor sys.O_CREATE sys.O_RDWR) perm w = (inr i, w') →
  ∃ k old, sys.resolve (w_fs w) sys.max_links (sys.key path) = Some k
           ∧ sys.find_inode (w_fs w') k = Some (i, BFile old).
Proof.
  unfold sys.OpenFile.
  pose proof (next_io_frame
                (sys.record (EvOpenFile path (Z.lor sys.O_CREATE sys.O_RDWR) perm) w))
    as (Hfs & _ & _).
  destruct (sys.next_io _) as [o w0]. cbn [snd sys.record w_fs] in Hfs.
  destruct o; [done|]. rewrite Hfs. unfold sys.stat_key.
  destruct (sys.resolve (w_fs w) sys.max_links (sys.key path)) as [k|]; [|done].
  change (negb (Z.land (Z.lor sys.O_CREATE sys.O_RDWR) sys.O_TRUNC =? 0)%Z) with false.
  change (Z.land (Z.lor sys.O_CREATE sys.O_RDWR) sys.O_CREATE =? 0)%Z with false.
  cbn iota.
  destruct (sys.find_inode (w_fs w) k) as [[j b]|] eqn:Hf.
  - destruct b; try done. intros [= <- <-]. exists k, data. by rewrite Hfs.
  - destruct (sys.is_dir (w_fs w) (Dir k)); [|done]. intros [= <- <-]. exists k, [].
    split; [done|]. unfold sys.find_inode, sys.body_of. simpl.
    rewrite lookup_insert_eq. simpl. rewrite lookup_insert_eq. reflexivity.
Qed.

Lemma find_inode_set_body f k i b b0 :
  sys.find_inode f k = Some (i, b0) →
  sys.find_inode (sys.set_body i b f) k = Some (i, b).
Proof.
  unfold sys.find_inode, sys.body_of, sys.set_body. simpl.
  destruct (names f !! k) as [j|]; simpl; [|done].
  destruct (inodes f !! j) as [n|] eqn:Hj; simpl; [|done].
  intros [= -> <-]. rewrite lookup_alter_eq, Hj. done.
Qed.

(** A copy that ends without an error has written the whole payload. *)
Lemma Copy_ok i data read_err w n w' k old :
  sys.Copy i data read_err w = ((n, None), w') →
  sys.find_inode (w_fs w) k = Some (i, BFile old) →
  sys.find_inode (w_fs w') k = Some (i, BFile (sys.overwrite data old)).
Proof.
  unfold sys.Copy. destruct data as [|c data].
  - intros [= _ _ <-]. simpl. unfold sys.overwrite. simpl. by rewrite drop_0.
  - step_io. destruct o; [done|]. intros [= _ _ <-] Hf. simpl.
    rewrite H in *. unfold sys.write_inode.
    assert (sys.body_of (w_fs w) i = Some (BFile old)) as Hb.
    { unfold sys.find_inode in Hf. destruct (names (w_fs w) !! k) as [j|]; simpl in Hf;
        [|done]. destruct (sys.body_of (w_fs w) j) eqn:Hj; simpl in Hf; [|done].
      by injection Hf as -> ->. }
    rewrite Hb. by eapply find_inode_set_body.
Qed.

Lemma extractRegular_ok GOOS h data read_err target preserve w n w' :
  extractRegular GOOS h data read_err target preserve w = ((n, None), w') →
  ∃ k i old, sys.resolve (w_fs w) sys.max_links (sys.key target) = Some k
             ∧ sys.find_inode (w_fs w') k
               = Some (i, BFile (data ++ drop (length data) old)).
Proof.
  unfold extractRegular.
  destruct (sys.OpenFile _ _ _ w) as [[e|i] w1] eqn:Ho; [done|].
  apply OpenFile_ok in Ho as (k & old & Hr & Hf).
  destruct (sys.Copy i data read_err w1) as [[m [e|]] w2] eqn:Hc.
  { destruct (sys.Close i w2) as [[c|] w3]; done. }
  eapply Copy_ok in Hc; [|exact Hf].
  set (w3 := if preserve then _ else w2).
  assert (sys.find_inode (w_fs w3) k = Some (i, BFile (sys.overwrite data old))) as H3.
  { subst w3. destruct preserve; [|done].
    destruct (restore_metadata_same GOOS h target w2) as [Ht _].
    by rewrite (find_inode_same _ _ Ht). }
  unfold sys.Close. step_io. simpl in *. destruct o; [done|].
  intros [= _ <-]. exists k, i, old. split; [done|]. by rewrite H.
Qed.

Lemma extractSymlink_ok GOOS h target preserve w w' :
  extractSymlink GOOS h target preserve w = (None, w') →
  ∃ i, sys.find_inode (w_fs w') (sys.key target) = Some (i, BSymlink (tar.Linkname h)).
Proof.
  unfold extractSymlink. destruct (unlink target w) as [[e|] w1]; [done|].
  destruct (sys.Symlink (tar.Linkname h) target w1) as [[e|] w2] eqn:Hs; [done|].
  apply Symlink_ok in Hs as (_ & Hfs & _).
  assert (sys.find_inode (w_fs w2) (sys.key target)
          = Some (next_ino (w_fs w1), BSymlink (tar.Linkname h))) as Hf.
  { rewrite Hfs. unfold sys.find_inode, sys.body_of. simpl.
    rewrite lookup_insert_eq. simpl. rewrite lookup_insert_eq. reflexivity. }
  destruct (preserve && not_windows GOOS); intros [= <-]; [|by eexists].
  unfold sys.Lchown.
  destruct (update_meta_same false (sys.set_owner (tar.Uid h) (tar.Gid h)) "lchown"
              target (sys.record (EvLchown target (tar.Uid h) (tar.Gid h)) w2))
    as (Ht & _ & _).
  rewrite (find_inode_same _ _ Ht). by eexists.
Qed.

Lemma extractLink_ok GOOS h target preserve w w' :
  extractLink GOOS h target preserve w = (None, w') →
  ∃ i b, sys.find_inode (w_fs w') (sys.key target) = Some (i, b)
         ∧ sys.find_inode (w_fs w') (sys.key (tar.Linkname h)) = Some (i, b).
Proof.
  unfold extractLink. destruct (unlink target w) as [[e|] w1]; [done|].
  destruct (sys.Link (tar.Linkname h) target w1) as [[e|] w2] eqn:Hl; [done|].
  intros [= <-]. apply Link_ok in Hl as (i & b & Hf & Hb & Hn & Hi).
  exists i, b.
  assert (sys.find_inode (w_fs w2) (sys.key target) = Some (i, b)
          ∧ sys.find_inode (w_fs w2) (sys.key (tar.Linkname h)) = Some (i, b)) as [H1 H2].
  { unfold sys.find_inode, sys.body_of in *. rewrite Hn, Hi.
    destruct (names (w_fs w1) !! sys.key (tar.Linkname h)) as [j|] eqn:Hj;
      simpl in Hf; [|done].
    destruct (inodes (w_fs w1) !! j) as [nd|] eqn:Hnd; simpl in Hf; [|done].
    injection Hf as -> <-. split.
    - rewrite lookup_insert_eq. simpl. by rewrite Hnd.
    - destruct (decide (sys.key target = sys.key (tar.Linkname h))) as [->|Hne].
      + rewrite lookup_insert_eq. simpl. by rewrite Hnd.
      + rewrite lookup_insert_ne by done. rewrite Hj. simpl. by rewrite Hnd. }
  destruct preserve; [|done].
  destruct (restore_metadata_same GOOS h target w2) as [Ht _].
  by rewrite !(find_inode_same _ _ Ht).
Qed.

(** A turn of the loop that goes on to the next entry has restored its
    entry at the target. *)
Lemma extract_entry_restores GOOS a dst h data read_err w written dirMetadata target
    w' written' dm' :
  entry_target dst h = inr target →
  extract_entry GOOS a dst h data read_err w written dirMetadata
  = (w', inr (written', dm')) →
  restored_at h data target
    (w_fs (sys.MkdirAll (Dir target) defaultDirPermission w).2) (w_fs w').
Proof.
  intros Ht. unfold extract_entry, restored_at. rewrite Ht.
  destruct (sys.MkdirAll (Dir target) defaultDirPermission w) as [[e|] w1]; [done|].
  cbn [snd].
  case_bool_decide.
  { destruct (preserveMetadata a).
    - destruct (sys.MkdirAll target defaultDirPermission w1) as [[e|] w2] eqn:Hm; [done|].
      intros [= <- _ _]. by eapply MkdirAll_ok.
    - unfold extractDir.
      destruct (sys.MkdirAll target (FileMode_of (tar.Mode h)) w1) as [[e|] w2] eqn:Hm;
        [done|].
      intros [= <- _ _]. by eapply MkdirAll_ok. }
  destruct (is_regular_flag (tar.Typeflag h)).
  { destruct (extractRegular _ _ _ _ _ _ w1) as [[n [e|]] w2] eqn:Hr; [done|].
    intros [= <- _ _]. by eapply extractRegular_ok. }
  case_bool_decide.
  { destruct (extractSymlink _ _ _ _ w1) as [[e|] w2] eqn:Hs; [done|].
    intros [= <- _ _]. by eapply extractSymlink_ok. }
  case_bool_decide; [|done].
  destruct (extractLink _ _ _ _ w1) as [[e|] w2] eqn:Hl; [done|].
  intros [= <- _ _]. by eapply extractLink_ok.
Qed.

(** ** Symbolic links over an entry that is in the way *)







(** ** Entries that keep their name *)

(** C9. An entry whose name is absolute, or is the destination root itself,
    is restored at that name as it stands, not below the destination: the
    target of the turn is the name; every call of the turn is on the name,
    its parent directory or the link name of the header; and when the turn
    goes on to the next entry, the entry is there at the name: a directory
    for a directory entry, the payload in the file for a regular entry, a
    link with the link name of the header for a symbolic-link entry, one
    inode under the name and the link name for a hard-link entry.  So a
    regular entry [/etc/motd] extracted with the destination root [/out]
    becomes the file [/etc/motd], outside the root. *)
Theorem absolute_name_verbatim (GOOS : string) (a : Archive) (dst : string)
    (h : tar.Header) (data : bytes) (read_err : option error) (w : world)
    (written : Z) (dirMetadata : gmap string dirRecord) :
  dst = tar.Name h ∨ IsAbs (tar.Name h) = true →
  let r := extract_entry GOOS a dst h data read_err w written dirMetadata in
  entry_target dst h = inr (tar.Name h)
  ∧ (∃ k, performs [tar.Name h; Dir (tar.Name h); tar.Linkname h] w r.1 k)
  ∧ (∀ written' dirMetadata',
       r.2 = inr (written', dirMetadata') →
       restored_at h data (tar.Name h)
         (w_fs (sys.MkdirAll (Dir (tar.Name h)) defaultDirPermission w).2) (w_fs r.1))
  ∧ (let x := Extract "linux" [] sample.plain "/out" (sample.stream [sample3.motd])
                sample.fresh in
     x.2 = (2%Z, None)
     ∧ file_at (w_fs x.1) "/etc/motd" = Some (to_bytes "hi")
     ∧ under "/out" "/etc/motd" = false).
Proof.
  intros Hname r.
  assert (entry_target dst h = inr (tar.Name h)) as Ht.
  { unfold entry_target. destruct Hname as [->| ->].
    - by rewrite bool_decide_eq_true_2.
    - by rewrite orb_true_r. }
  split; [done|]. split; [|split].
  - destruct (extract_entry_performs GOOS a dst h data read_err w written dirMetadata
                _ Ht) as (k & Hk & _). by exists k.
  - intros written' dm' Hr. subst r.
    destruct (extract_entry GOOS a dst h data read_err w written dirMetadata)
      as [w' res] eqn:He. simpl in Hr. subst res.
    by apply (extract_entry_restores _ _ _ _ _ _ _ _ _ _ _ _ _ Ht He).
  - vm_compute. done.
Qed.

Lemma absolute_name_verbatim_witness :
  let turn a dst h data w := extract_entry "linux" a dst h data None w 0%Z ∅ in
  let parent name w := w_fs (sys.MkdirAll (Dir name) defaultDirPermission w).2 in
  let file := sample.header tar.TypeReg "/etc/motd" in
  let dir := sample.header tar.TypeDir "/srv/d" in
  let root := sample.header tar.TypeDir "out" in
  let symlink := sample.link_header tar.TypeSymlink "/etc/motd" "elsewhere" in
  let link := sample.link_header tar.TypeLink "/srv/h" "/etc/motd" in
  restored_at file (to_bytes "hi") "/etc/motd" (parent "/etc/motd" sample.fresh)
    (w_fs (turn sample.plain "/out" file (to_bytes "hi") sample.fresh).1)
  ∧ restored_at dir [] "/srv/d" (parent "/srv/d" sample.fresh)
      (w_fs (turn sample.preserving "/out" dir [] sample.fresh).1)
  ∧ restored_at root [] "out" (parent "out" sample.fresh)
      (w_fs (turn sample.plain "out" root [] sample.fresh).1)
  ∧ restored_at symlink [] "/etc/motd" (parent "/etc/motd" sample3.with_motd)
      (w_fs (turn sample.preserving "/out" symlink [] sample3.with_motd).1)
  ∧ restored_at link [] "/srv/h" (parent "/srv/h" sample3.with_motd)
      (w_fs (turn sample.plain "/out" link [] sample3.with_motd).1).
Proof.
  intros turn parent file dir root symlink link.
  split; [|split; [|split; [|split]]].
  - destruct (absolute_name_verbatim "linux" sample.plain "/out" file
                (to_bytes "hi") None sample.fresh 0%Z ∅) as (_ & _ & H & _).
    + right. reflexivity.
    + apply (H 2%Z ∅). reflexivity.
  - destruct (absolute_name_verbatim "linux" sample.preserving "/out" dir
                [] None sample.fresh 0%Z ∅) as (_ & _ & H & _).
    + right. reflexivity.
    + eapply H. reflexivity.
  - destruct (absolute_name_verbatim "linux" sample.plain "out" root
                [] None sample.fresh 0%Z ∅) as (_ & _ & H & _).
    + left. reflexivity.
    + apply (H 0%Z ∅). reflexivity.
  - destruct (absolute_name_verbatim "linux" sample.preserving "/out" symlink
                [] None sample3.with_motd 0%Z ∅) as (_ & _ & H & _).
    + right. reflexivity.
    + apply (H 0%Z ∅). reflexivity.
  - destruct (absolute_name_verbatim "linux" sample.plain "/out" link
                [] None sample3.with_motd 0%Z ∅) as (_ & _ & H & _).
    + right. reflexivity.
    + apply (H 0%Z ∅). reflexivity.
Defined.
